(** * Load forecasting, load balancing and the Mobility Signal Index

    A shallow embedding of the analytic core of the repository:
    [biometric_load_balancer.py] (classes [BiometricLoadForecaster] and
    [LoadBalancingRecommender]) and [mobility_signal_index_analysis.py]
    (class [MobilitySignalIndexEngine]).

    Numbers.  Integer columns (the counts) are [Z], with the wrap-around
    of an [int64] sum written out.  A [float64] column is modelled by an
    ideal real number ([R]): rounding is not modelled, so the equations
    of Part II are equations of exact arithmetic.  Where the rounding of
    [float64] decides a comparison, the module [Float64] repeats the
    computation on IEEE binary64 numbers, and the properties say which of
    the two readings they are about.  Where the source can produce [NaN]
    and a property depends on it, the value is an [option R] and [None]
    stands for [NaN].

    Strings are sequences of characters with code points below 256. *)

From Stdlib Require Import Floats.
From Stdlib Require Import Reals Lra Lia ZArith String Ascii Bool Arith List Permutation Sorted.
Set Warnings "-inexact-float".
Import ListNotations.
Open Scope R_scope.

(* ================================================================== *)
(** * Part I.  The embedding                                           *)
(* ================================================================== *)

(** ** Python and pandas primitives used by the source *)

Module Py.

  (** Comparisons of floats, as booleans. *)
Definition Rltb (x y : R) : bool := if Rlt_dec x y then true else false.
Definition Rleb (x y : R) : bool := if Rle_dec x y then true else false.
Definition Reqb (x y : R) : bool := if Req_dec_T x y then true else false.

  (** The builtin [max(a, b)]: the first argument is kept unless the second
      is strictly greater.  [min(a, b)] likewise. *)
Definition max (a b : R) : R := if Rltb a b then b else a.
Definition min (a b : R) : R := if Rltb b a then b else a.

  (** [min(x, c)] when [x] may be [NaN]: every comparison with [NaN] is
      false, so a [NaN] first argument is returned unchanged. *)
Definition min_nan (x : option R) (c : R) : option R :=
    match x with
    | None => None
    | Some v => Some (min v c)
    end.

  (** Slices on lists, for non-negative bounds: [l[a:b]], and [l[:-n]].
      Note that [l[:-0]] is [l[:0]], the empty list. *)
Definition slice {A} (a b : nat) (l : list A) : list A :=
    firstn (b - a) (skipn a l).
Definition drop_last {A} (n : nat) (l : list A) : list A :=
    match n with
    | O => []
    | _ => firstn (length l - n) l
    end.

  (** [Series.head(n)] and [Series.tail(n)], for [n >= 0]. *)
Definition head {A} (n : nat) (l : list A) : list A := firstn n l.
Definition tail {A} (n : nat) (l : list A) : list A :=
    skipn (length l - n) l.

  (** Sums and means.  The mean of an integer column is a float. *)
Definition Rsum (l : list R) : R := fold_right Rplus 0 l.
Definition Zsum (l : list Z) : Z := fold_right Z.add 0%Z l.
Definition mean (l : list R) : R := Rsum l / INR (length l).
Definition Zmean (l : list Z) : R := IZR (Zsum l) / INR (length l).

  (** An [int64] column is a list of integers of the signed 64-bit range.
      Its [sum()], taken in [int64], wraps around modulo 2^64; its
      [mean()] is accumulated in [float64] and does not wrap. *)
Definition is_int64 (z : Z) : Prop := (- 2 ^ 63 <= z < 2 ^ 63)%Z.
Definition wrap64 (z : Z) : Z := ((z + 2 ^ 63) mod 2 ^ 64 - 2 ^ 63)%Z.
Definition int64_sum (l : list Z) : Z := wrap64 (Zsum l).
Definition Zmaximum (l : list Z) : Z :=
    match l with
    | [] => 0%Z
    | x :: r => fold_left Z.max r x
    end.

  (** Sum of squared deviations from the mean. *)
Definition sq_dev (l : list R) : R :=
    Rsum (map (fun x => (x - mean l) * (x - mean l)) l).

  (** [numpy.std]: the population standard deviation (ddof = 0). *)
Definition np_std (l : list R) : R := sqrt (sq_dev l / INR (length l)).

  (** [pandas.Series.std]: the sample standard deviation (ddof = 1), which
      is [NaN] when there are fewer than two observations. *)
Definition pd_std (l : list R) : option R :=
    if (length l <? 2)%nat then None
    else Some (sqrt (sq_dev l / (INR (length l) - 1))).

  (** Stable insertion sort by a boolean order, and first-occurrence
      de-duplication: the two steps of a sorted [groupby]. *)
Section Grouping.
Context {K A : Type}.
Variable eqb : K -> K -> bool.
Variable leb : K -> K -> bool.

Fixpoint insert (k : K) (l : list K) : list K :=
      match l with
      | [] => [k]
      | x :: r => if leb k x then k :: l else x :: insert k r
      end.

Fixpoint isort (l : list K) : list K :=
      match l with
      | [] => []
      | x :: r => insert x (isort r)
      end.

Fixpoint unique (l : list K) : list K :=
      match l with
      | [] => []
      | x :: r => x :: filter (fun y => negb (eqb y x)) (unique r)
      end.

    (** [df.groupby(key)]: one group per distinct key, keys in sorted
        order, each group holding its rows in their original order. *)
Definition groupby (key : A -> K) (df : list A) : list (K * list A) :=
      map (fun k => (k, filter (fun r => eqb (key r) k) df))
          (isort (unique (map key df))).
End Grouping.

  (** Lexicographic order on pairs of keys. *)
Definition pair_leb {A B} (eqa lea : A -> A -> bool) (leb : B -> B -> bool)
             (x y : A * B) : bool :=
    if eqa (fst x) (fst y) then leb (snd x) (snd y) else lea (fst x) (fst y).
Definition pair_eqb {A B} (eqa : A -> A -> bool) (eqb : B -> B -> bool)
             (x y : A * B) : bool :=
    eqa (fst x) (fst y) && eqb (snd x) (snd y).

End Py.

(** ** [BiometricLoadForecaster] *)

Module Forecaster.

  (** A row of [bio_df] after [load_data]: the date, the cleaned
      geographic keys and [total_bio = bio_age_5_17 + bio_age_17_]. *)
Record BioRow := {
    date_year : Z;
    date_month : Z;
    date_day : Z;
    state : string;
    district : string;
    pincode : string;
    total_bio : Z
  }.

  (** [date.dt.to_period('M')], as the ordinal of the month. *)
Definition year_month (r : BioRow) : Z :=
    ((date_year r - 1970) * 12 + (date_month r - 1))%Z.

Definition district_key (r : BioRow) : string * string :=
    (state r, district r).
Definition pincode_key (r : BioRow) : string * string * string :=
    (state r, district r, pincode r).

Definition key2_eqb := Py.pair_eqb String.eqb String.eqb.
Definition key2_leb := Py.pair_leb String.eqb String.leb String.leb.
Definition key3_eqb := Py.pair_eqb key2_eqb String.eqb.
Definition key3_leb := Py.pair_leb key2_eqb key2_leb String.leb.

  (** [group.groupby('year_month')['total_bio'].sum()]: the monthly sums
      of a group, in chronological order. *)
Definition monthly (group : list BioRow) : list Z :=
    map (fun kg => Py.int64_sum (map total_bio (snd kg)))
        (Py.groupby Z.eqb Z.leb year_month group).

Record ForecastRow := {
    last_month_load : Z;
    trend : R;
    forecast_load : R;
    spike_risk : option R;      (* [None] is NaN *)
    historical_mean : R;
    historical_max : Z
  }.

  (** The trend over comparison windows of [w] months. *)
Definition trend_of (w : nat) (m : list Z) : R :=
    if (w <=? length m)%nat then
      let recent_avg := Py.Zmean (Py.tail w m) in
      let early_avg := Py.Zmean (Py.head w m) in
      (recent_avg - early_avg) / Py.max early_avg 1
    else 0.

  (** [monthly['total_bio'].iloc[-1] if len(monthly) > 0 else 0]. *)
Definition last_load (m : list Z) : Z := last m 0%Z.

  (** [group['total_bio'].std() / max(group['total_bio'].mean(), 1)]. *)
Definition raw_spike_risk (group : list BioRow) : option R :=
    let xs := map (fun r => IZR (total_bio r)) group in
    option_map (fun s => s / Py.max (Py.mean xs) 1) (Py.pd_std xs).

  (** Body of the district loop of [forecast_next_month]. *)
Definition district_row (group : list BioRow) : ForecastRow :=
    let m := monthly group in
    let tr := trend_of 3 m in
    let last_month := last_load m in
    {| last_month_load := last_month;
       trend := tr;
       forecast_load := IZR last_month * (1 + tr * 0.3);
       spike_risk := Py.min_nan (raw_spike_risk group) 2;
       historical_mean :=
         IZR (Py.int64_sum (map total_bio group))
         / INR (Nat.max (length m) 1);
       historical_max := Py.Zmaximum m |}.

  (** Body of the pincode loop of [forecast_next_month]. *)
Definition pincode_row (group : list BioRow) : ForecastRow :=
    let m := monthly group in
    let tr := trend_of 2 m in
    let last_month := last_load m in
    {| last_month_load := last_month;
       trend := tr;
       forecast_load := IZR last_month * (1 + tr * 0.3);
       spike_risk := Py.min_nan (raw_spike_risk group) 2;
       historical_mean :=
         match m with [] => 0 | _ => Py.Zmean m end;
       historical_max := Py.Zmaximum m |}.

  (** [forecast_next_month]: one row per (state, district) group and one
      per (state, district, pincode) group. *)
Definition district_forecast (bio_df : list BioRow)
    : list ((string * string) * ForecastRow) :=
    map (fun kg => (fst kg, district_row (snd kg)))
        (Py.groupby key2_eqb key2_leb district_key bio_df).

Definition pincode_forecast (bio_df : list BioRow)
    : list ((string * string * string) * ForecastRow) :=
    map (fun kg => (fst kg, pincode_row (snd kg)))
        (Py.groupby key3_eqb key3_leb pincode_key bio_df).

End Forecaster.

(** ** The forecast, in the words of the specification

    These definitions are written from the specification, not from the
    code; the theorems of Part II compare them with [Forecaster]. *)

Module ForecasterSpec.
Import Forecaster.

(** [row] is the forecast row of the geographic unit whose records are
    [group], at the granularity whose comparison window is [w] months:
    3 at district level, 2 at pincode level. *)
Definition is_unit_row (bio_df : list BioRow) (w : nat)
           (group : list BioRow) (row : ForecastRow) : Prop :=
  (w = 3%nat /\ exists k, In (k, row) (district_forecast bio_df) /\
     group = filter (fun r => key2_eqb (district_key r) k) bio_df)
  \/
  (w = 2%nat /\ exists k, In (k, row) (pincode_forecast bio_df) /\
     group = filter (fun r => key3_eqb (pincode_key r) k) bio_df).

(** The distinct months of a unit and the summed value of one month. *)
Definition distinct_months (group : list BioRow) : list Z :=
  nodup Z.eq_dec (map year_month group).
Definition month_sum (group : list BioRow) (m : Z) : Z :=
  Py.Zsum (map total_bio (filter (fun r => Z.eqb (year_month r) m) group)).




(** The values of the unit's records, as floats. *)
Definition daily_counts (group : list BioRow) : list R :=
  map (fun r => IZR (total_bio r)) group.

(** Spike risk as the specification words it: population standard
    deviation over mean, clipped to [0, 2]. *)
Definition spec_spike_risk (xs : list R) : R :=
  Rmin (Rmax (Py.np_std xs / Py.mean xs) 0) 2.

(** The sample (ddof = 1) standard deviation. *)
Definition sample_std (xs : list R) : R :=
  sqrt (Py.sq_dev xs / (INR (length xs) - 1)).

End ForecasterSpec.

(** ** [BiometricLoadForecaster.calculate_load_scores] *)

Module LoadScorer.

Inductive LoadCategory := Low | Medium | High | Critical.

(** A row of [load_scores]: the columns of [pincode_forecast] that later
    stages read, and the columns added by [calculate_load_scores]. *)
Record LoadScoreRow := {
  state : string;
  district : string;
  pincode : string;
  forecast_load : R;
  spike_risk : option R;           (* [None] is NaN *)
  load_percentile : R;
  load_score : option R;           (* NaN when [spike_risk] is *)
  spare_capacity : R;
  load_category : option LoadCategory;   (* [None] is NaN *)
  is_overloaded : bool
}.

(** [Series.rank(pct=True)]: the average rank of a value among the
    non-NaN values of its column, divided by their number; NaN stays
    NaN. *)
Definition present (col : list (option R)) : list R :=
  flat_map (fun o => match o with Some v => [v] | None => [] end) col.

Definition rank_pct (col : list (option R)) (x : option R) : option R :=
  match x with
  | None => None
  | Some v =>
      let vals := present col in
      let less := length (filter (fun u => Py.Rltb u v) vals) in
      let same := length (filter (fun u => Py.Reqb u v) vals) in
      Some ((INR less + (INR same + 1) / 2) / INR (length vals))
  end.

(** [pd.cut(x, bins, labels)] with the default [right=True]: bin [i] is
    the interval (bins[i], bins[i+1]], open on the left and closed on the
    right; a value in no bin, or NaN, is NaN. *)
Fixpoint cut {L} (bins : list R) (labels : list L) (x : R) : option L :=
  match bins, labels with
  | lo :: ((hi :: _) as rest), lab :: labs =>
      if Py.Rltb lo x && Py.Rleb x hi then Some lab else cut rest labs x
  | _, _ => None
  end.

Definition category_of (score : option R) : option LoadCategory :=
  match score with
  | None => None
  | Some s => cut [0; 0.5; 0.75; 0.9; 1.0] [Low; Medium; High; Critical] s
  end.

(** [load_score >= 0.9]; a comparison with NaN is false. *)
Definition overloaded_of (score : option R) : bool :=
  match score with
  | None => false
  | Some s => Py.Rleb 0.9 s
  end.

(** [calculate_load_scores] on the rows of [pincode_forecast], in exact
    arithmetic.  A score that is exactly 0.9 here can come out one unit
    in the last place below 0.9 in [float64] (1 * 0.7 + (2/3) * 0.3
    does), so a property that rests on such a score is stated with
    [Float64.load_score] beside it. *)
Definition score_row (loads : list (option R)) (risks : list (option R))
           (kr : (string * string * string) * Forecaster.ForecastRow)
  : LoadScoreRow :=
  let '((st, di, pin), row) := kr in
  let pct :=
    match rank_pct loads (Some (Forecaster.forecast_load row)) with
    | Some p => p
    | None => 0
    end in
  let score :=
    option_map (fun rk => pct * 0.7 + rk * 0.3)
               (rank_pct risks (Forecaster.spike_risk row)) in
  {| state := st; district := di; pincode := pin;
     forecast_load := Forecaster.forecast_load row;
     spike_risk := Forecaster.spike_risk row;
     load_percentile := pct;
     load_score := score;
     spare_capacity := 1 - pct;
     load_category := category_of score;
     is_overloaded := overloaded_of score |}.

Definition calculate_load_scores
           (pincode_forecast : list ((string * string * string)
                                     * Forecaster.ForecastRow))
  : list LoadScoreRow :=
  let loads :=
    map (fun kr => Some (Forecaster.forecast_load (snd kr))) pincode_forecast in
  let risks :=
    map (fun kr => Forecaster.spike_risk (snd kr)) pincode_forecast in
  map (score_row loads risks) pincode_forecast.

End LoadScorer.

(** ** [LoadBalancingRecommender] *)

Module Recommender.
Import LoadScorer.

(** Order of [nlargest]: larger keys first, NaN keys last. *)
Definition key_geb (a b : option R) : bool :=
  match a, b with
  | Some x, Some y => Py.Rleb y x
  | Some _, None => true
  | None, Some _ => false
  | None, None => true
  end.

(** [df.nlargest(n, column)] for [n >= 0]: the first [n] rows of the
    table sorted by the column in descending order, rows with equal keys
    staying in table order. *)
Definition nlargest {A} (n : nat) (key : A -> option R) (df : list A)
  : list A :=
  firstn n (Py.isort (fun a b => key_geb (key a) (key b)) df).

Definition spare_key (r : LoadScoreRow) : option R := Some (spare_capacity r).

Record Alternative := {
  alt_pincode : string;
  alt_district : string;
  alt_spare_capacity : R;
  current_load : R
}.

Record Recommendation := {
  rec_pincode : string;
  rec_district : string;
  rec_state : string;
  rec_load_score : option R;
  rec_forecast_load : R;
  rec_spike_risk : option R;
  alternatives : list Alternative;
  num_alternatives : nat
}.

(** [pincode[:4]]. *)
Definition prefix4 (pin : string) : string := substring 0 4 pin.

(** Pass 1: peers of the same district with more than 50% spare. *)
Definition same_district_pass (load_scores : list LoadScoreRow)
           (per : nat) (row : LoadScoreRow) : list LoadScoreRow :=
  nlargest per spare_key
    (filter (fun r =>
               String.eqb (district r) (district row)
               && String.eqb (state r) (state row)
               && negb (String.eqb (pincode r) (pincode row))
               && Py.Rltb 0.5 (spare_capacity r))
            load_scores).

(** Pass 2: peers with the same 4-digit prefix and more than 30% spare. *)
Definition adjacent_pass (load_scores : list LoadScoreRow)
           (n : nat) (row : LoadScoreRow) : list LoadScoreRow :=
  nlargest n spare_key
    (filter (fun r =>
               String.eqb (prefix4 (pincode r)) (prefix4 (pincode row))
               && negb (String.eqb (pincode r) (pincode row))
               && Py.Rltb 0.3 (spare_capacity r))
            load_scores).

(** The candidate table of one overloaded row, before the final
    [head(alternatives_per_pincode)]. *)
Definition candidates (load_scores : list LoadScoreRow)
           (per : nat) (row : LoadScoreRow) : list LoadScoreRow :=
  let same_district := same_district_pass load_scores per row in
  if (length same_district <? per)%nat then
    same_district
      ++ adjacent_pass load_scores (per - length same_district) row
  else same_district.

Definition alternative_of (alt : LoadScoreRow) : Alternative :=
  {| alt_pincode := pincode alt;
     alt_district := district alt;
     alt_spare_capacity := spare_capacity alt;
     current_load := forecast_load alt |}.

Definition recommend (load_scores : list LoadScoreRow)
           (per : nat) (row : LoadScoreRow) : Recommendation :=
  let alts :=
    map alternative_of (Py.head per (candidates load_scores per row)) in
  {| rec_pincode := pincode row;
     rec_district := district row;
     rec_state := state row;
     rec_load_score := load_score row;
     rec_forecast_load := forecast_load row;
     rec_spike_risk := spike_risk row;
     alternatives := alts;
     num_alternatives := length alts |}.

(** [find_alternatives(top_n_overloaded, alternatives_per_pincode)], for
    non-negative arguments. *)
Definition find_alternatives (load_scores : list LoadScoreRow)
           (top_n_overloaded alternatives_per_pincode : nat)
  : list Recommendation :=
  let overloaded :=
    nlargest top_n_overloaded load_score
             (filter is_overloaded load_scores) in
  map (recommend load_scores alternatives_per_pincode) overloaded.

(** One scenario of [simulate_load_balancing]: the three running totals
    of the inner loop, then the reduction, in exact arithmetic.  In
    [float64] the totals and the reduction carry rounding errors (a load
    of 32.8 redirected by 10 percent gives a reduction of
    10.000000000000005), so the properties proved of a scenario are
    those that rounding keeps: orders, bounds, and the cases in which
    nothing is redirected. *)
Record Totals := {
  total_original_peak : R;
  total_new_peak : R;
  total_redirected : R
}.

Definition simulate_step (pct : R) (acc : Totals) (rec : Recommendation)
  : Totals :=
  let original_load := rec_forecast_load rec in
  let redirect_amount := original_load * (pct / 100) in
  match alternatives rec with
  | _ :: _ =>
      let new_load := original_load - redirect_amount in
      {| total_original_peak := total_original_peak acc + original_load;
         total_new_peak := total_new_peak acc + new_load;
         total_redirected := total_redirected acc + redirect_amount |}
  | [] =>
      {| total_original_peak := total_original_peak acc + original_load;
         total_new_peak := total_new_peak acc + original_load;
         total_redirected := total_redirected acc |}
  end.

Record Scenario := {
  redirect_percentage : R;
  original_peak_load : R;
  new_peak_load : R;
  scenario_redirected : R;
  peak_reduction_pct : R
}.

Definition simulate_one (recommendations : list Recommendation) (pct : R)
  : Scenario :=
  let t := fold_left (simulate_step pct) recommendations
                     {| total_original_peak := 0; total_new_peak := 0;
                        total_redirected := 0 |} in
  {| redirect_percentage := pct;
     original_peak_load := total_original_peak t;
     new_peak_load := total_new_peak t;
     scenario_redirected := total_redirected t;
     peak_reduction_pct :=
       if Py.Rltb 0 (total_original_peak t)
       then (total_original_peak t - total_new_peak t)
            / total_original_peak t * 100
       else 0 |}.

Definition simulate_load_balancing (recommendations : list Recommendation)
           (redirect_percentages : list R) : list Scenario :=
  map (simulate_one recommendations) redirect_percentages.

End Recommender.

(** The categories as the specification words them: right-open bins over
    the edges 0, 0.5, 0.75, 0.9, 1.0, the last one closed. *)

Module LoadScorerSpec.
Import LoadScorer.

Definition spec_category (s : R) : option LoadCategory :=
  if Py.Rleb 0 s && Py.Rltb s 0.5 then Some Low
  else if Py.Rleb 0.5 s && Py.Rltb s 0.75 then Some Medium
  else if Py.Rleb 0.75 s && Py.Rltb s 0.9 then Some High
  else if Py.Rleb 0.9 s && Py.Rleb s 1.0 then Some Critical
  else None.

End LoadScorerSpec.

(** ** [MobilitySignalIndexEngine.build_neighbor_graph] *)

Module NeighborGraph.

(** A [dict] with string keys, as an association list without repeated
    keys: [d[k] = v] and [d.get(k, default)]. *)
Definition Dict (V : Type) := list (string * V).

Fixpoint dict_set {V} (k : string) (v : V) (d : Dict V) : Dict V :=
  match d with
  | [] => [(k, v)]
  | (k', v') :: r =>
      if String.eqb k' k then (k, v) :: r else (k', v') :: dict_set k v r
  end.

Fixpoint dict_get {V} (k : string) (d : Dict V) : option V :=
  match d with
  | [] => None
  | (k', v') :: r => if String.eqb k' k then Some v' else dict_get k r
  end.

Definition dict_get_default {V} (k : string) (default : V) (d : Dict V) : V :=
  match dict_get k d with
  | Some v => v
  | None => default
  end.

(** [pin_region = pincode[:3]] and [pincode[:4]]. *)
Definition prefix3 (pin : string) : string := substring 0 3 pin.
Definition prefix4 (pin : string) : string := substring 0 4 pin.

(** [int(s)] on a string: blanks around the number are skipped, a sign
    may come first, and the digits may be separated by single
    underscores; any other string raises [ValueError], which is [None]
    here.  The blanks are the characters that Python takes for
    whitespace among the code points below 256. *)
Definition digit_value (c : ascii) : option Z :=
  let n := nat_of_ascii c in
  if ((48 <=? n) && (n <=? 57))%nat then Some (Z.of_nat (n - 48)) else None.

Definition is_space (c : ascii) : bool :=
  let n := nat_of_ascii c in
  ((9 <=? n) && (n <=? 13) || (n =? 32) || (n =? 133) || (n =? 160))%nat.

Fixpoint lstrip (cs : list ascii) : list ascii :=
  match cs with
  | c :: r => if is_space c then lstrip r else cs
  | [] => []
  end.

Definition strip (cs : list ascii) : list ascii :=
  rev (lstrip (rev (lstrip cs))).

(** The digits, after the sign: [need_digit] holds at the start and
    after an underscore. *)
Fixpoint int_digits (need_digit : bool) (acc : Z) (cs : list ascii)
  : option Z :=
  match cs with
  | [] => if need_digit then None else Some acc
  | c :: r =>
      match digit_value c with
      | Some d => int_digits false (acc * 10 + d) r
      | None =>
          if Ascii.eqb c "_" && negb need_digit
          then int_digits true acc r
          else None
      end
  end.

Definition py_int (s : string) : option Z :=
  match strip (list_ascii_of_string s) with
  | c :: r =>
      if Ascii.eqb c "-" then option_map Z.opp (int_digits true 0 r)
      else if Ascii.eqb c "+" then int_digits true 0 r
      else int_digits true 0 (c :: r)
  | [] => None
  end.

(** [[p for p in pincodes if p != pin and p[:4] == pin[:4]]]. *)
Definition same_region (pincodes : list string) (pin : string) : list string :=
  filter (fun p => negb (String.eqb p pin)
                   && String.eqb (prefix4 p) (prefix4 pin)) pincodes.

(** [[p for p in pincodes if p != pin and
      abs(int(p[:3]) - int(pin[:3])) <= 1]]; [and] evaluates [int] only
    for [p != pin], and a failing [int] aborts the comprehension. *)
Fixpoint adjacent_region (pincodes : list string) (pin : string)
  : option (list string) :=
  match pincodes with
  | [] => Some []
  | p :: rest =>
      if String.eqb p pin then adjacent_region rest pin
      else
        match py_int (prefix3 p), py_int (prefix3 pin) with
        | Some a, Some b =>
            match adjacent_region rest pin with
            | Some r => Some (if (Z.abs (a - b) <=? 1)%Z then p :: r else r)
            | None => None
            end
        | _, _ => None
        end
  end.

(** The inner loop over the pincodes of one region.  [list(set(...))]
    is modelled by first-occurrence de-duplication; the order of the
    elements of a Python set is unspecified. *)
Fixpoint region_loop (pincodes todo : list string)
         (graph : Dict (list string)) : option (Dict (list string)) :=
  match todo with
  | [] => Some graph
  | pin :: rest =>
      match adjacent_region pincodes pin with
      | Some adj =>
          region_loop pincodes rest
            (dict_set pin (Py.unique String.eqb (same_region pincodes pin ++ adj))
                      graph)
      | None => None
      end
  end.

Fixpoint regions_loop (regions : list (string * list string))
         (graph : Dict (list string)) : option (Dict (list string)) :=
  match regions with
  | [] => Some graph
  | (_, pins) :: rest =>
      let pincodes := Py.unique String.eqb pins in
      match region_loop pincodes pincodes graph with
      | Some g => regions_loop rest g
      | None => None
      end
  end.

(** [build_neighbor_graph(level='pincode')] on the [pincode] column of
    the data: [pin_regions] groups the pincodes by their 3-digit prefix,
    and each pincode is compared with the pincodes of its own group.
    [None] is an exception raised by [int]. *)
Definition pin_regions (data : list string) : list (string * list string) :=
  Py.groupby String.eqb String.leb prefix3 data.

Definition build_pincode_graph (data : list string)
  : option (Dict (list string)) :=
  regions_loop (pin_regions data) [].

(** [build_neighbor_graph(level='district')] on the (state, district)
    columns: within a state every district is a neighbour of every
    other one.  Keys are the strings [state|district]. *)
Definition geo_key (state district : string) : string :=
  (state ++ "|" ++ district)%string.

Definition state_districts (data : list (string * string))
  : list (string * list string) :=
  map (fun kg => (fst kg, Py.unique String.eqb (map snd (snd kg))))
      (Py.groupby String.eqb String.leb fst data).

Definition build_district_graph (data : list (string * string))
  : Dict (list string) :=
  fold_left
    (fun graph sd =>
       let '(st, districts) := sd in
       fold_left
         (fun g d1 =>
            dict_set (geo_key st d1)
              (map (geo_key st)
                   (filter (fun d2 => negb (String.eqb d2 d1)) districts))
              g)
         districts graph)
    (state_districts data) [].

End NeighborGraph.

(** The neighbours of a pincode as the specification words them. *)

Module NeighborGraphSpec.
Import NeighborGraph.

(** [q] is a neighbour of [p]: another pincode that shares [p]'s 4-digit
    prefix, or whose 3-digit prefix differs from [p]'s by at most 1. *)
Definition spec_neighbor (p q : string) : Prop :=
  q <> p /\
  (prefix4 q = prefix4 p \/
   exists a b, py_int (prefix3 p) = Some a /\ py_int (prefix3 q) = Some b /\
               (Z.abs (b - a) <= 1)%Z).

(** Every neighbour list of the graph stays inside one 3-digit group. *)
Definition within_region (g : Dict (list string)) : Prop :=
  forall p ns q, dict_get p g = Some ns -> In q ns -> prefix3 q = prefix3 p.

End NeighborGraphSpec.

(** ** [MobilitySignalIndexEngine.compute_msi] *)

Module MSI.
Import NeighborGraph.

(** A pivoted frame: one column per location key, each column a series
    over the index of time periods. *)
Definition Frame (V : Type) := Dict (list V).

(** The state [compute_msi] reads: the three frames left by
    [compute_temporal_changes], which share their index and columns, and
    the district graph.  The percent changes have no NaN ([fillna(0)]);
    a rolling z-score can be NaN (the standard deviation of a single
    observation). *)
Record Engine := {
  time_periods : list string;
  temporal_pivot : Frame R;
  temporal_changes : Frame R;
  temporal_zscores : Frame (option R);
  district_neighbors : Dict (list string)
}.

Definition locations (e : Engine) : list string :=
  map fst (temporal_changes e).

Definition column {V} (f : Frame V) (loc : string) : list V :=
  dict_get_default loc [] f.

(** [frame.loc[t, loc]] for the period at position [i] of the index. *)
Definition value_at (f : Frame R) (i : nat) (loc : string) : R :=
  nth i (column f loc) 0.
Definition zscore_at (f : Frame (option R)) (i : nat) (loc : string)
  : option R :=
  nth i (column f loc) None.

(** [numpy.sign]. *)
Definition np_sign (x : R) : R :=
  if Py.Rltb x 0 then -1 else if Py.Rltb 0 x then 1 else 0.

(** [numpy.corrcoef(x, y)[0, 1]]: C_xy / sqrt(C_xx * C_yy), where C is
    the covariance matrix normalised by N - 1. *)
Definition np_cov (xs ys : list R) : R :=
  Py.Rsum (map (fun p => (fst p - Py.mean xs) * (snd p - Py.mean ys))
               (combine xs ys))
  / (INR (length xs) - 1).
Definition np_corrcoef (xs ys : list R) : R :=
  np_cov xs ys / sqrt (np_cov xs xs * np_cov ys ys).

(** [s.split('|')]: the pieces between the separators, one more than
    there are separators. *)
Fixpoint split_bar (s : string) : list string :=
  match s with
  | EmptyString => [EmptyString]
  | String c r =>
      if Ascii.eqb c "|" then EmptyString :: split_bar r
      else match split_bar r with
           | piece :: pieces => String c piece :: pieces
           | [] => [String c EmptyString]
           end
  end.

(** [state, district = loc.split('|')]: the unpacking into two names
    raises [ValueError] unless the key has exactly one separator; [None]
    is that error. *)
Definition split_key (loc : string) : option (string * string) :=
  match split_bar loc with
  | [st; di] => Some (st, di)
  | _ => None
  end.

Record MSIRecord := {
  time_period : string;
  state : string;
  district : string;
  geo_key : string;
  msi_score : option R;            (* NaN when [z_magnitude] is *)
  inverse_correlation : R;
  spatial_spread : R;
  z_magnitude : option R;
  activity_change_pct : R;
  neighbor_change_pct : R;
  activity_level : R;
  neighbor_activity : R;
  num_neighbors : nat;
  neighbors_opposite : nat
}.

(** [[n for n in neighbors if n in locations]]. *)
Definition valid_neighbors (e : Engine) (loc : string) : list string :=
  filter (fun n => existsb (String.eqb n) (locations e))
         (dict_get_default loc [] (district_neighbors e)).

(** Positions of [time_periods[t_idx - window_size : t_idx + 1]]. *)
Definition t_window (e : Engine) (window_size t_idx : nat) : list nat :=
  Py.slice (t_idx - window_size) (t_idx + 1)
           (seq 0 (length (time_periods e))).

Definition loc_changes (e : Engine) (window_size t_idx : nat) (loc : string)
  : list R :=
  map (fun i => value_at (temporal_changes e) i loc)
      (t_window e window_size t_idx).

(** [temporal_changes.loc[t_window, valid_neighbors].mean(axis=1)]. *)
Definition neighbor_changes (e : Engine) (window_size t_idx : nat)
           (valid : list string) : list R :=
  map (fun i =>
         Py.mean (map (fun n => value_at (temporal_changes e) i n) valid))
      (t_window e window_size t_idx).

(** Lines 351-355, in exact arithmetic.  The guard of the source tests
    the [float64] value of [np.std], which is 0 for a series of zeros
    but can be positive for another constant series;
    [Float64.inverse_corr_of] is the guard on binary64 numbers. *)
Definition inverse_corr_of (lc nc : list R) : R :=
  if (2 <? length lc)%nat && Py.Rltb 0 (Py.np_std lc)
     && Py.Rltb 0 (Py.np_std nc)
  then - np_corrcoef lc nc
  else 0.

Definition opposite_count_of (e : Engine) (t_idx : nat)
           (valid : list string) (loc_direction : R) : nat :=
  if Py.Reqb loc_direction 0 then 0%nat
  else length
         (filter (fun n =>
                    negb (Py.Reqb
                            (np_sign (value_at (temporal_changes e) t_idx n))
                            loc_direction))
                 valid).

(** Body of the inner loop of [compute_msi], for one location and one
    time index: the record that is appended, given the two names that
    the key splits into. *)
Definition msi_row (e : Engine) (window_size : nat)
           (valid : list string) (loc : string) (t_idx : nat)
           (names : string * string) : MSIRecord :=
  let t := nth t_idx (time_periods e) EmptyString in
  let lc := loc_changes e window_size t_idx loc in
  let nc := neighbor_changes e window_size t_idx valid in
  let inverse_corr := inverse_corr_of lc nc in
  let loc_direction := np_sign (last lc 0) in
  let opposite_count := opposite_count_of e t_idx valid loc_direction in
  let spread :=
    match valid with
    | [] => 0
    | _ => INR opposite_count / INR (length valid)
    end in
  let t_known := existsb (String.eqb t) (time_periods e) in
  let z :=
    if t_known
    then option_map Rabs (zscore_at (temporal_zscores e) t_idx loc)
    else Some 0 in
  let msi :=
    option_map (fun m => inverse_corr * (1 + spread) * m / 3)
               (Py.min_nan z 3) in
  let (st, di) := names in
  {| time_period := t;
     state := st;
     district := di;
     geo_key := loc;
     msi_score := msi;
     inverse_correlation := inverse_corr;
     spatial_spread := spread;
     z_magnitude := z;
     activity_change_pct :=
       if t_known then value_at (temporal_changes e) t_idx loc * 100 else 0;
     neighbor_change_pct :=
       if t_known
       then Py.mean (map (fun n => value_at (temporal_changes e) t_idx n)
                         valid) * 100
       else 0;
     activity_level :=
       if t_known then value_at (temporal_pivot e) t_idx loc else 0;
     neighbor_activity :=
       if t_known
       then Py.mean (map (fun n => value_at (temporal_pivot e) t_idx n) valid)
       else 0;
     num_neighbors := length valid;
     neighbors_opposite := opposite_count |}.

(** One pass through the inner loop: the split of the key can raise,
    and then nothing is appended. *)
Definition msi_record (e : Engine) (window_size : nat)
           (valid : list string) (loc : string) (t_idx : nat)
  : option MSIRecord :=
  option_map (msi_row e window_size valid loc t_idx) (split_key loc).

(** The iterations of a loop run in order and the first error ends the
    call. *)
Fixpoint collect {A} (l : list (option A)) : option (list A) :=
  match l with
  | [] => Some []
  | None :: _ => None
  | Some x :: r => option_map (cons x) (collect r)
  end.

(** The records of one location: none for fewer than 2 valid
    neighbours, else one per time index from [window_size] on. *)
Definition location_records (e : Engine) (window_size : nat) (loc : string)
  : option (list MSIRecord) :=
  let valid := valid_neighbors e loc in
  if (length valid <? 2)%nat then Some []
  else collect (map (msi_record e window_size valid loc)
                    (seq window_size
                         (length (time_periods e) - window_size))).

(** [compute_msi(window_size)], for [window_size >= 0]; [None] is the
    [ValueError] of a key that does not split into two names. *)
Definition compute_msi (e : Engine) (window_size : nat)
  : option (list MSIRecord) :=
  option_map (@concat MSIRecord)
             (collect (map (location_records e window_size) (locations e))).

End MSI.

(** The signal, in the words of the specification. *)

Module MSISpec.
Import MSI.

(** The Pearson correlation coefficient of two series. *)
Definition deviations (xs : list R) : list R :=
  map (fun x => x - Py.mean xs) xs.
Definition dot (xs ys : list R) : R :=
  Py.Rsum (map (fun p => fst p * snd p) (combine xs ys)).
Definition pearson (xs ys : list R) : R :=
  dot (deviations xs) (deviations ys)
  / sqrt (dot (deviations xs) (deviations xs)
          * dot (deviations ys) (deviations ys)).

(** The windows that end at the time index [t]: the location's percent
    changes and the mean percent change of its valid neighbours, over
    the [w + 1] periods [t - w .. t]. *)
Definition change (e : Engine) (i : nat) (loc : string) : R :=
  value_at (temporal_changes e) i loc.
Definition trailing_window (e : Engine) (w t : nat) (loc : string) : list R :=
  map (fun i => change e i loc) (seq (t - w) (w + 1)).
Definition neighbor_mean_window (e : Engine) (w t : nat) (loc : string)
  : list R :=
  map (fun i => Py.mean (map (change e i) (valid_neighbors e loc)))
      (seq (t - w) (w + 1)).

(** The sign of a change: -1, 0 or 1. *)
Definition sign_of (x : R) : Z :=
  match total_order_T x 0 with
  | inleft (left _) => (-1)%Z
  | inleft (right _) => 0%Z
  | inright _ => 1%Z
  end.

(** The fraction of the valid neighbours whose current sign differs from
    the location's, and 0 when the location's current change is zero. *)
Definition spec_spread (e : Engine) (t : nat) (loc : string) : R :=
  match Req_dec_T (change e t loc) 0 with
  | left _ => 0
  | right _ =>
      INR (length
             (filter (fun n =>
                        negb (Z.eqb (sign_of (change e t n))
                                    (sign_of (change e t loc))))
                     (valid_neighbors e loc)))
      / INR (length (valid_neighbors e loc))
  end.

End MSISpec.

(** ** [MobilitySignalIndexEngine.detect_wave_patterns] *)

Module Waves.
Import NeighborGraph MSI.

Record WavePattern := {
  wave_state : string;
  start_time : string;
  peak_time : string;
  duration : nat;
  origin_districts : list string;
  total_affected : nat;
  all_districts : list string;
  spread_sequence : Dict (list string);
  peak_count : nat;
  wave_score : R
}.

(** [msi_results[msi_results['msi_score'] > 0.3]]; NaN is not greater. *)
Definition high_msi (msi_results : list MSIRecord) : list MSIRecord :=
  filter (fun r => match msi_score r with
                   | Some m => Py.Rltb 0.3 m
                   | None => false
                   end)
         msi_results.

(** Sets of district names, as lists without repetition: [set(...)] of
    the districts seen at one period, and the union [a | b]. *)
Definition districts_at (state_data : list MSIRecord) (t : string)
  : list string :=
  Py.unique String.eqb
    (map district
         (filter (fun r => String.eqb (time_period r) t) state_data)).

Definition set_union (a b : list string) : list string :=
  a ++ filter (fun x => negb (existsb (String.eqb x) a)) b.

(** [time_periods[start_idx + 1 : start_idx + min_duration + 2]]: the
    periods over which the spread is tracked. *)
Definition tracked_periods (time_periods : list string)
           (start_idx min_duration : nat) : list string :=
  Py.slice (start_idx + 1) (start_idx + min_duration + 2) time_periods.

(** One turn of the tracking loop, on the pair
    [(affected_districts, cumulative)]. *)
Definition track_step (state_data : list MSIRecord)
           (acc : Dict (list string) * list string) (t : string)
  : Dict (list string) * list string :=
  if existsb (fun r => String.eqb (time_period r) t) state_data then
    let new_districts := districts_at state_data t in
    (dict_set t new_districts (fst acc), set_union (snd acc) new_districts)
  else acc.

Definition track (state_data : list MSIRecord) (time_periods : list string)
           (min_duration start_idx : nat) (start_time : string)
  : Dict (list string) * list string :=
  let initial_districts := districts_at state_data start_time in
  fold_left (track_step state_data)
            (tracked_periods time_periods start_idx min_duration)
            ([(start_time, initial_districts)], initial_districts).

(** [max(counts)] and [numpy.argmax(counts)] (the first maximum). *)
Definition list_max (l : list nat) : nat := fold_right Nat.max 0%nat l.

Fixpoint argmax_from (i best_i best : nat) (l : list nat) : nat :=
  match l with
  | [] => best_i
  | x :: r =>
      if (best <? x)%nat then argmax_from (S i) i x r
      else argmax_from (S i) best_i best r
  end.

Definition argmax (l : list nat) : nat :=
  match l with
  | [] => 0%nat
  | x :: r => argmax_from 1 0 x r
  end.

(** The wave test on the tracked spread. *)
Definition qualifies (min_spread : nat)
           (tracked : Dict (list string) * list string) : bool :=
  let district_counts := map (fun kv => length (snd kv)) (fst tracked) in
  (min_spread <=? length (snd tracked))%nat
  && (hd 0%nat district_counts <? list_max district_counts)%nat.

(** Body of the loop over the candidate start times of one state. *)
Definition wave_of (st : string) (state_data : list MSIRecord)
           (time_periods : list string) (min_duration min_spread : nat)
           (start : nat * string) : list WavePattern :=
  let start_idx := fst start in
  let start_time := snd start in
  let initial_districts := districts_at state_data start_time in
  match initial_districts with
  | [] => []
  | _ =>
      let tracked :=
        track state_data time_periods min_duration start_idx start_time in
      let affected_districts := fst tracked in
      let cumulative := snd tracked in
      let district_counts :=
        map (fun kv => length (snd kv)) affected_districts in
      if qualifies min_spread tracked then
        [ {| wave_state := st;
             start_time := start_time;
             peak_time :=
               nth (argmax district_counts) (map fst affected_districts)
                   EmptyString;
             duration := length affected_districts;
             origin_districts := initial_districts;
             total_affected := length cumulative;
             all_districts := cumulative;
             spread_sequence := affected_districts;
             peak_count := list_max district_counts;
             wave_score :=
               INR (length cumulative * list_max district_counts)
               / INR (length initial_districts + 1) |} ]
      else []
  end.

Definition enumerate {A} (l : list A) : list (nat * A) :=
  combine (seq 0 (length l)) l.

(** The high-MSI rows of one state, sorted by period, and the sorted
    distinct periods of the state. *)
Definition state_data (high : list MSIRecord) (st : string)
  : list MSIRecord :=
  Py.isort (fun a b => String.leb (time_period a) (time_period b))
           (filter (fun r => String.eqb (state r) st) high).

Definition state_periods (sd : list MSIRecord) : list string :=
  Py.isort String.leb (Py.unique String.eqb (map time_period sd)).

(** The waves of one state: one candidate per start time of
    [time_periods[:-min_duration]]. *)
Definition state_waves (high : list MSIRecord)
           (min_duration min_spread : nat) (st : string) : list WavePattern :=
  let sd := state_data high st in
  let time_periods := state_periods sd in
  flat_map (wave_of st sd time_periods min_duration min_spread)
           (enumerate (Py.drop_last min_duration time_periods)).

(** [detect_wave_patterns(min_duration, min_spread)], for non-negative
    arguments; the waves are ranked by descending score. *)
Definition detect_wave_patterns (msi_results : list MSIRecord)
           (min_duration min_spread : nat) : list WavePattern :=
  let high := high_msi msi_results in
  Py.isort (fun a b => Py.Rleb (wave_score b) (wave_score a))
           (flat_map (state_waves high min_duration min_spread)
                     (Py.unique String.eqb (map state high))).

End Waves.

(** The tracking window as the specification words it. *)

Module WavesSpec.
Import Waves.

(** The [n] periods that follow the period at position [start_idx]. *)
Definition subsequent (time_periods : list string) (start_idx n : nat)
  : list string :=
  firstn n (skipn (start_idx + 1) time_periods).

(** Accumulation over [min_duration + 2] subsequent periods. *)
Definition spec_track (state_data : list MSI.MSIRecord)
           (time_periods : list string) (min_duration start_idx : nat)
           (start_time : string) :=
  let initial_districts := districts_at state_data start_time in
  fold_left (track_step state_data)
            (subsequent time_periods start_idx (min_duration + 2))
            ([(start_time, initial_districts)], initial_districts).

End WavesSpec.

(** ** Sample tables *)

Module Samples.
Import Forecaster.

Definition bio (y m d : Z) (p : string) (n : Z) : BioRow :=
  {| date_year := y; date_month := m; date_day := d;
     state := "Kerala"; district := "Idukki"; pincode := p;
     total_bio := n |}.

(** One pincode over four months. *)
Definition four_months : list BioRow :=
  [ bio 2025 3 14 "685501" 40; bio 2025 1 10 "685501" 100;
    bio 2025 2 11 "685501" 100; bio 2025 4 2 "685501" 30;
    bio 2025 4 20 "685501" 10 ].

(** Units with one record, and with two records. *)
Definition one_record : list BioRow := [ bio 2025 1 10 "685501" 5 ].
Definition two_records : list BioRow :=
  [ bio 2025 1 10 "685501" 1; bio 2025 1 11 "685501" 3 ].
Definition sparse_records : list BioRow :=
  [ bio 2025 1 10 "685501" 0; bio 2025 1 11 "685501" 1 ].

End Samples.

Module ScoreSamples.

Definition unit_forecast (load risk : R) : Forecaster.ForecastRow :=
  {| Forecaster.last_month_load := 0; Forecaster.trend := 0;
     Forecaster.forecast_load := load;
     Forecaster.spike_risk := Some risk;
     Forecaster.historical_mean := 0; Forecaster.historical_max := 0 |}.

(** Three pincodes of one district, in increasing order of forecast and
    of spike risk: their percentiles are 1/3, 2/3 and 1 in both columns,
    and the third has the score 0.7 * 1 + 0.3 * 1 = 1. *)
Definition three_units
  : list ((string * string * string) * Forecaster.ForecastRow) :=
  [ (("Kerala", "Idukki", "685501")%string, unit_forecast 10 0.1);
    (("Kerala", "Idukki", "685502")%string, unit_forecast 20 0.2);
    (("Kerala", "Idukki", "685503")%string, unit_forecast 30 0.3) ].

Definition third_unit : LoadScorer.LoadScoreRow :=
  {| LoadScorer.state := "Kerala"; LoadScorer.district := "Idukki";
     LoadScorer.pincode := "685503";
     LoadScorer.forecast_load := 30; LoadScorer.spike_risk := Some 0.3;
     LoadScorer.load_percentile := 1; LoadScorer.load_score := Some 1;
     LoadScorer.spare_capacity := 0;
     LoadScorer.load_category := Some LoadScorer.Critical;
     LoadScorer.is_overloaded := true |}.

Definition first_unit : LoadScorer.LoadScoreRow :=
  {| LoadScorer.state := "Kerala"; LoadScorer.district := "Idukki";
     LoadScorer.pincode := "685501";
     LoadScorer.forecast_load := 10; LoadScorer.spike_risk := Some 0.1;
     LoadScorer.load_percentile := 1 / 3;
     LoadScorer.load_score := Some (1 / 3);
     LoadScorer.spare_capacity := 2 / 3;
     LoadScorer.load_category := Some LoadScorer.Low;
     LoadScorer.is_overloaded := false |}.

Definition second_unit : LoadScorer.LoadScoreRow :=
  {| LoadScorer.state := "Kerala"; LoadScorer.district := "Idukki";
     LoadScorer.pincode := "685502";
     LoadScorer.forecast_load := 20; LoadScorer.spike_risk := Some 0.2;
     LoadScorer.load_percentile := 2 / 3;
     LoadScorer.load_score := Some (2 / 3);
     LoadScorer.spare_capacity := 1 / 3;
     LoadScorer.load_category := Some LoadScorer.Medium;
     LoadScorer.is_overloaded := false |}.

(** The table [calculate_load_scores] makes of [three_units]. *)
Definition scored_units : list LoadScorer.LoadScoreRow :=
  [first_unit; second_unit; third_unit].

(** Five pincodes, the last two alike: they share the average rank 4.5
    of 5 in both columns, so each has the percentiles 0.9 and 0.9 and the
    score 0.9 * 0.7 + 0.9 * 0.3 = 0.9. *)
Definition five_units
  : list ((string * string * string) * Forecaster.ForecastRow) :=
  [ (("Kerala", "Idukki", "685501")%string, unit_forecast 10 0.1);
    (("Kerala", "Idukki", "685502")%string, unit_forecast 20 0.2);
    (("Kerala", "Idukki", "685503")%string, unit_forecast 30 0.3);
    (("Kerala", "Idukki", "685504")%string, unit_forecast 40 0.4);
    (("Kerala", "Idukki", "685505")%string, unit_forecast 40 0.4) ].

Definition tied_unit : LoadScorer.LoadScoreRow :=
  {| LoadScorer.state := "Kerala"; LoadScorer.district := "Idukki";
     LoadScorer.pincode := "685504";
     LoadScorer.forecast_load := 40; LoadScorer.spike_risk := Some 0.4;
     LoadScorer.load_percentile := 0.9; LoadScorer.load_score := Some 0.9;
     LoadScorer.spare_capacity := 0.1;
     LoadScorer.load_category := Some LoadScorer.High;
     LoadScorer.is_overloaded := true |}.

End ScoreSamples.

Module GraphSamples.

(** Two pincodes of region 110 and one of the adjacent region 111. *)
Definition two_regions : list string :=
  ["110001"; "111001"; "110002"]%string.

End GraphSamples.

Module MSISamples.
Import MSI.

(** Three districts of one state over four weeks: two with constant
    totals 100, 100, 100, 100 and one with totals 100, 100, 40, 40. *)
Definition flat_state : Engine :=
  {| time_periods := ["2025-W01"; "2025-W02"; "2025-W03"; "2025-W04"]%string;
     temporal_pivot :=
       [ ("X|A"%string, [100; 100; 100; 100]);
         ("X|B"%string, [100; 100; 100; 100]);
         ("X|C"%string, [100; 100; 40; 40]) ];
     temporal_changes :=
       [ ("X|A"%string, [0; 0; 0; 0]);
         ("X|B"%string, [0; 0; 0; 0]);
         ("X|C"%string, [0; 0; -0.6; 0]) ];
     temporal_zscores :=
       [ ("X|A"%string, [None; Some 0; Some 0; Some 0]);
         ("X|B"%string, [None; Some 0; Some 0; Some 0]);
         ("X|C"%string,
          [None; Some 0; Some (-40 / sqrt 1200); Some (-30 / sqrt 1200)]) ];
     district_neighbors :=
       NeighborGraph.build_district_graph
         [("X", "A"); ("X", "B"); ("X", "C")]%string |}.

End MSISamples.

Module WaveSamples.
Import MSI.

Definition signal (t di : string) (m : R) : MSIRecord :=
  {| time_period := t; state := "X"; district := di;
     geo_key := NeighborGraph.geo_key "X" di;
     msi_score := Some m; inverse_correlation := 0; spatial_spread := 0;
     z_magnitude := Some 0; activity_change_pct := 0;
     neighbor_change_pct := 0; activity_level := 0; neighbor_activity := 0;
     num_neighbors := 2; neighbors_opposite := 0 |}.

(** District A signals for three weeks, then B and C appear in week 4;
    a weak signal of D in week 2 stays below the 0.3 threshold. *)
Definition late_spread : list MSIRecord :=
  [ signal "2025-W01" "A" 0.5; signal "2025-W02" "A" 0.5;
    signal "2025-W02" "D" 0.1; signal "2025-W03" "A" 0.5;
    signal "2025-W04" "B" 0.5; signal "2025-W04" "C" 0.5 ]%string.

Definition late_spread_high : list MSIRecord :=
  [ signal "2025-W01" "A" 0.5; signal "2025-W02" "A" 0.5;
    signal "2025-W03" "A" 0.5;
    signal "2025-W04" "B" 0.5; signal "2025-W04" "C" 0.5 ]%string.

Definition four_weeks : list string :=
  ["2025-W01"; "2025-W02"; "2025-W03"; "2025-W04"]%string.

End WaveSamples.

(** ** Auxiliary definitions for the further properties of Part III *)

Module ScorerAux.
Import LoadScorer.

(** The percentile rank [rank_pct] gives to a value [v] of a column
    whose non-NaN values are [vals]. *)
Definition rank_value (vals : list R) (v : R) : R :=
  (INR (length (filter (fun u => Py.Rltb u v) vals))
   + (INR (length (filter (fun u => Py.Reqb u v) vals)) + 1) / 2)
  / INR (length vals).

(** The scored row of the only unit of [Samples.one_record]. *)
Definition lone_row : LoadScoreRow :=
  hd ScoreSamples.third_unit
     (calculate_load_scores (Forecaster.pincode_forecast Samples.one_record)).

End ScorerAux.

(** ** [BiometricLoadForecaster.compute_historical_stats] *)

Module HistoricalStats.
Import Forecaster.

Definition month_district_key (r : BioRow) : Z * string * string :=
  (year_month r, state r, district r).
Definition month_pincode_key (r : BioRow) : Z * string * string * string :=
  (year_month r, state r, district r, pincode r).

Definition md_eqb := Py.pair_eqb (Py.pair_eqb Z.eqb String.eqb) String.eqb.
Definition md_leb :=
  Py.pair_leb (Py.pair_eqb Z.eqb String.eqb)
              (Py.pair_leb Z.eqb Z.leb String.leb) String.leb.
Definition mp_eqb := Py.pair_eqb md_eqb String.eqb.
Definition mp_leb := Py.pair_leb md_eqb md_leb String.leb.

(** [bio_df.groupby(['year_month', 'state', 'district'])['total_bio']
    .sum().reset_index()]: one row per month and district. *)
Definition district_monthly (bio_df : list BioRow)
  : list ((Z * string * string) * Z) :=
  map (fun kg => (fst kg, Py.int64_sum (map total_bio (snd kg))))
      (Py.groupby md_eqb md_leb month_district_key bio_df).

(** The same by ['year_month', 'state', 'district', 'pincode']. *)
Definition pincode_monthly (bio_df : list BioRow)
  : list ((Z * string * string * string) * Z) :=
  map (fun kg => (fst kg, Py.int64_sum (map total_bio (snd kg))))
      (Py.groupby mp_eqb mp_leb month_pincode_key bio_df).

End HistoricalStats.

Module MoreSamples.
Import Forecaster.

(** A pincode whose load triples from its first month to its second. *)
Definition two_months : list BioRow :=
  [ Samples.bio 2025 1 10 "685501" 100; Samples.bio 2025 2 11 "685501" 300 ].

(** Two pincodes of one district over two months. *)
Definition two_pincodes : list BioRow :=
  [ Samples.bio 2025 1 10 "685501" 100; Samples.bio 2025 1 12 "685502" 50;
    Samples.bio 2025 2 11 "685501" 70; Samples.bio 2025 1 20 "685501" 5 ].

End MoreSamples.

Module GraphAux.
Import NeighborGraph.

(** The groups of [pin_regions]: distinct keys, each group holding
    pincodes with that 3-digit prefix. *)
Definition well_grouped (regions : list (string * list string)) : Prop :=
  NoDup (map fst regions) /\
  forall k pins p, In (k, pins) regions -> In p pins -> prefix3 p = k.

(** A name that contains the separator of the location keys. *)
Fixpoint has_bar (s : string) : bool :=
  match s with
  | EmptyString => false
  | String c r => Ascii.eqb c "|" || has_bar r
  end.

(** The parts of a key before and after its first separator
    ([s.partition('|')] without the separator). *)
Fixpoint first_split (s : string) : string * string :=
  match s with
  | EmptyString => (EmptyString, EmptyString)
  | String c r =>
      if Ascii.eqb c "|" then (EmptyString, r)
      else let (a, b) := first_split r in (String c a, b)
  end.

(** The two loops of the district graph, named: the list stored for
    district [d1], the assignment for one district, and the loop over
    the districts of one state. *)
Definition others (st : string) (districts : list string) (d1 : string)
  : list string :=
  map (geo_key st) (filter (fun d2 => negb (String.eqb d2 d1)) districts).

Definition district_step (st : string) (districts : list string)
           (g : Dict (list string)) (d1 : string) : Dict (list string) :=
  dict_set (geo_key st d1) (others st districts d1) g.

Definition state_step (graph : Dict (list string))
           (sd : string * list string) : Dict (list string) :=
  fold_left (district_step (fst sd) (snd sd)) (snd sd) graph.

(** The (state, district) columns of three districts of one state, and
    two pincodes whose prefix is not a number. *)
Definition one_state : list (string * string) :=
  [("X", "A"); ("X", "B"); ("X", "C")]%string.
Definition text_pincodes : list string := ["ABC123"; "ABC456"]%string.

End GraphAux.

Module MSIAux.
Import MSI.

(** Sums over a list of pairs, for the Cauchy-Schwarz inequality. *)
Definition sum_xx (l : list (R * R)) : R :=
  Py.Rsum (map (fun p => fst p * fst p) l).
Definition sum_yy (l : list (R * R)) : R :=
  Py.Rsum (map (fun p => snd p * snd p) l).
Definition sum_xy (l : list (R * R)) : R :=
  Py.Rsum (map (fun p => fst p * snd p) l).


(** The record of district C in the last week of [MSISamples.flat_state],
    and all the records of that state. *)
Definition flat_record : MSIRecord :=
  msi_row MSISamples.flat_state 3
          (valid_neighbors MSISamples.flat_state "X|C") "X|C" 3
          ("X", "C")%string.

Definition flat_records : list MSIRecord :=
  match compute_msi MSISamples.flat_state 3 with
  | Some rs => rs
  | None => []
  end.

(** A frame column whose name has no separator, among three that do. *)
Definition unkeyed : Engine :=
  {| time_periods := ["2025-W01"; "2025-W02"]%string;
     temporal_pivot := [];
     temporal_changes :=
       [ ("X"%string, [0; 0]); ("X|A"%string, [0; 0]);
         ("X|B"%string, [0; 0]) ];
     temporal_zscores := [];
     district_neighbors := [ ("X"%string, ["X|A"; "X|B"]%string) ] |}.

End MSIAux.

Module WavesAux.
Import MSI Waves.

(** The best-ranked wave of [WaveSamples.late_spread]. *)
Definition no_wave : WavePattern :=
  {| wave_state := EmptyString; start_time := EmptyString;
     peak_time := EmptyString; duration := 0; origin_districts := [];
     total_affected := 0; all_districts := []; spread_sequence := [];
     peak_count := 0; wave_score := 0 |}.

Definition first_wave : WavePattern :=
  hd no_wave (detect_wave_patterns WaveSamples.late_spread 1 3).

End WavesAux.

(** ** [MobilitySignalIndexEngine.compute_temporal_changes] *)

Module TemporalChanges.
Import NeighborGraph MSI.

(** A row of the combined activity table: the time bucket, the state,
    the geographic unit and the activity value. *)
Record ActivityRow := {
  time_bucket : string;
  row_state : string;
  row_geo : string;
  activity : R
}.

Definition agg_key (r : ActivityRow) : string * string * string :=
  (time_bucket r, row_state r, row_geo r).
Definition agg_eqb := Py.pair_eqb (Py.pair_eqb String.eqb String.eqb) String.eqb.
Definition agg_leb :=
  Py.pair_leb (Py.pair_eqb String.eqb String.eqb)
              (Py.pair_leb String.eqb String.leb String.leb) String.leb.

(** [data.groupby([time_col, state_col, geo_col])[value_col].sum()]
    with its added column [geo_key = state + '|' + geo]: rows
    (time, geo_key, summed value). *)
Definition aggregate (data : list ActivityRow)
  : list (string * string * R) :=
  map (fun kg =>
         let '(t, st, geo) := fst kg in
         (t, NeighborGraph.geo_key st geo, Py.Rsum (map activity (snd kg))))
      (Py.groupby agg_eqb agg_leb agg_key data).

Definition cell_eqb (a b : string * string) : bool :=
  String.eqb (fst a) (fst b) && String.eqb (snd a) (snd b).

Fixpoint has_duplicate (l : list (string * string)) : bool :=
  match l with
  | [] => false
  | x :: r => existsb (cell_eqb x) r || has_duplicate r
  end.

(** One cell of the pivot: the value of the row with that time and key,
    and 0 ([fillna(0)]) when there is none. *)
Definition cell (agg : list (string * string * R)) (t k : string) : R :=
  match find (fun r => cell_eqb (fst r) (t, k)) agg with
  | Some r => snd r
  | None => 0
  end.

(** [agg.pivot(index=time_col, columns='geo_key', values=value_col)
    .fillna(0)]; [pivot] raises [ValueError] when two rows fall in the
    same cell, which is [None] here. *)
Definition pivot (agg : list (string * string * R))
  : option (list string * Frame R) :=
  if has_duplicate (map fst agg) then None
  else
    let index := Py.isort String.leb
                   (Py.unique String.eqb (map (fun r => fst (fst r)) agg)) in
    let keys := Py.isort String.leb
                  (Py.unique String.eqb (map (fun r => snd (fst r)) agg)) in
    Some (index, map (fun k => (k, map (fun t => cell agg t k) index)) keys).

(** [pct_change().replace([inf, -inf], nan).fillna(0)] on one column:
    the first entry is NaN and a division by zero gives inf or NaN, all
    of which become 0. *)
Definition pct_change_at (col : list R) (i : nat) : R :=
  match i with
  | O => 0
  | S j =>
      let prev := nth j col 0 in
      if Py.Reqb prev 0 then 0 else nth i col 0 / prev - 1
  end.

Definition pct_change_column (col : list R) : list R :=
  map (pct_change_at col) (seq 0 (length col)).

(** [rolling(window=4, min_periods=1)]: the window that ends at [i]. *)
Definition rolling_window (col : list R) (i : nat) : list R :=
  Py.slice (i + 1 - 4) (i + 1) col.

(** [rolling.std().replace(0, 1)]: NaN for a single observation. *)
Definition rolling_std (col : list R) (i : nat) : option R :=
  option_map (fun s => if Py.Reqb s 0 then 1 else s)
             (Py.pd_std (rolling_window col i)).

(** [(pivot - rolling_mean) / rolling_std]. *)
Definition zscore (col : list R) (i : nat) : option R :=
  option_map (fun s => (nth i col 0 - Py.mean (rolling_window col i)) / s)
             (rolling_std col i).

Definition zscore_column (col : list R) : list (option R) :=
  map (zscore col) (seq 0 (length col)).

Record TemporalFrames := {
  frame_index : list string;
  frame_pivot : Frame R;
  frame_changes : Frame R;
  frame_zscores : Frame (option R)
}.

Definition compute_temporal_changes (data : list ActivityRow)
  : option TemporalFrames :=
  match pivot (aggregate data) with
  | None => None
  | Some (index, pv) =>
      Some {| frame_index := index;
              frame_pivot := pv;
              frame_changes :=
                map (fun kc => (fst kc, pct_change_column (snd kc))) pv;
              frame_zscores :=
                map (fun kc => (fst kc, zscore_column (snd kc))) pv |}
  end.

(** The engine state after [build_neighbor_graph] and
    [compute_temporal_changes]. *)
Definition engine_of (fr : TemporalFrames) (graph : Dict (list string))
  : Engine :=
  {| time_periods := frame_index fr;
     temporal_pivot := frame_pivot fr;
     temporal_changes := frame_changes fr;
     temporal_zscores := frame_zscores fr;
     district_neighbors := graph |}.

(** Three districts over four weeks, two of them flat. *)
Definition week (t di : string) (v : R) : ActivityRow :=
  {| time_bucket := t; row_state := "X"; row_geo := di; activity := v |}.

Definition flat_weeks : list ActivityRow :=
  [ week "2025-W01" "A" 100; week "2025-W02" "A" 100;
    week "2025-W03" "A" 100; week "2025-W04" "A" 100;
    week "2025-W01" "B" 100; week "2025-W02" "B" 100;
    week "2025-W03" "B" 100; week "2025-W04" "B" 100;
    week "2025-W01" "C" 100; week "2025-W02" "C" 100;
    week "2025-W03" "C" 40; week "2025-W04" "C" 40 ]%string.

Definition no_frames : TemporalFrames :=
  {| frame_index := []; frame_pivot := []; frame_changes := [];
     frame_zscores := [] |}.

Definition flat_frames : TemporalFrames :=
  match compute_temporal_changes flat_weeks with
  | Some fr => fr
  | None => no_frames
  end.

Definition flat_engine : Engine :=
  engine_of flat_frames
            (build_district_graph [("X", "A"); ("X", "B"); ("X", "C")]%string).

(** The records of [compute_msi] on it, and that of district C in the
    last week. *)
Definition flat_engine_records : list MSIRecord :=
  match compute_msi flat_engine 3 with
  | Some rs => rs
  | None => []
  end.

Definition flat_engine_record : MSIRecord :=
  msi_row flat_engine 3 (valid_neighbors flat_engine "X|C") "X|C" 3
          ("X", "C")%string.

(** Three districts over four weeks; A moves against B and C. *)
Definition seesaw_weeks : list ActivityRow :=
  [ week "2025-W01" "A" 64; week "2025-W02" "A" 96;
    week "2025-W03" "A" 48; week "2025-W04" "A" 60;
    week "2025-W01" "B" 64; week "2025-W02" "B" 32;
    week "2025-W03" "B" 48; week "2025-W04" "B" 36;
    week "2025-W01" "C" 64; week "2025-W02" "C" 48;
    week "2025-W03" "C" 60; week "2025-W04" "C" 45 ]%string.

Definition seesaw_frames : TemporalFrames :=
  match compute_temporal_changes seesaw_weeks with
  | Some fr => fr
  | None => no_frames
  end.

Definition seesaw : Engine :=
  engine_of seesaw_frames
            (build_district_graph [("X", "A"); ("X", "B"); ("X", "C")]%string).

End TemporalChanges.

(** ** Readings in [float64]

    The computations whose result depends on the rounding of IEEE
    binary64 arithmetic, on binary64 numbers: the weighted score and its
    bins ([calculate_load_scores]) and the guard of the correlation
    ([compute_msi]). *)

Module Float64.
Local Open Scope float_scope.

Definition of_nat (n : nat) : float :=
  PrimFloat.of_uint63 (Uint63.of_Z (Z.of_nat n)).

(** [Series.rank(pct=True)]: the average rank divided by the count. *)
Definition rank_pct (average_rank : float) (count : nat) : float :=
  average_rank / of_nat count.

(** [load_percentile * 0.7 + spike_risk.rank(pct=True) * 0.3]. *)
Definition load_score (load_percentile risk_percentile : float) : float :=
  load_percentile * 0.7 + risk_percentile * 0.3.

(** [pd.cut] with the default [right=True]. *)
Fixpoint cut {L} (bins : list float) (labels : list L) (x : float)
  : option L :=
  match bins, labels with
  | lo :: ((hi :: _) as rest), lab :: labs =>
      if (lo <? x) && (x <=? hi) then Some lab else cut rest labs x
  | _, _ => None
  end.

Definition category_of (s : float) : option LoadScorer.LoadCategory :=
  cut [0; 0.5; 0.75; 0.9; 1.0]
      [LoadScorer.Low; LoadScorer.Medium; LoadScorer.High;
       LoadScorer.Critical] s.

(** [load_score >= 0.9]. *)
Definition overloaded_of (s : float) : bool := 0.9 <=? s.

(** [1 - load_percentile]. *)
Definition spare_capacity (load_percentile : float) : float :=
  1 - load_percentile.

(** numpy's sum of a short array (fewer than 8 numbers are added one
    after the other; for the series of equal numbers used in Part II the
    order of the additions does not change the result), its mean, and
    [np.std]: the square root of the mean of the squared deviations from
    the mean. *)
Definition np_sum (l : list float) : float := fold_left PrimFloat.add l 0.
Definition np_mean (l : list float) : float := np_sum l / of_nat (length l).
Definition np_std (l : list float) : float :=
  PrimFloat.sqrt
    (np_mean (map (fun x => (x - np_mean l) * (x - np_mean l)) l)).

(** [np.corrcoef(x, y)[0, 1]]: the covariance matrix of the centred
    series, normalised by N - 1, divided by both standard deviations and
    clipped to [-1, 1]. *)
Definition np_cov (xs ys : list float) : float :=
  np_sum (map (fun p => (fst p - np_mean xs) * (snd p - np_mean ys))
              (combine xs ys))
  * (1 / (of_nat (length xs) - 1)).
Definition clip (x : float) : float :=
  if x <? -1 then -1 else if 1 <? x then 1 else x.
Definition np_corrcoef (xs ys : list float) : float :=
  clip (np_cov xs ys / PrimFloat.sqrt (np_cov xs xs)
        / PrimFloat.sqrt (np_cov ys ys)).

(** Lines 351-355 of [compute_msi]. *)
Definition inverse_corr_of (lc nc : list float) : float :=
  if (2 <? length lc)%nat && (0 <? np_std lc) && (0 <? np_std nc)
  then - np_corrcoef lc nc
  else 0.


End Float64.

(* ================================================================== *)
(** * Part II.  Properties                                             *)
(* ================================================================== *)

(** ** Facts about the primitives *)

Section PrimitiveFacts.

Lemma Rltb_true x y : x < y -> Py.Rltb x y = true.
Proof. intros H; unfold Py.Rltb; destruct (Rlt_dec x y); [reflexivity | contradiction]. Qed.

Lemma Rltb_false x y : y <= x -> Py.Rltb x y = false.
Proof. intros H; unfold Py.Rltb; destruct (Rlt_dec x y); [lra | reflexivity]. Qed.

Lemma Rleb_true x y : x <= y -> Py.Rleb x y = true.
Proof. intros H; unfold Py.Rleb; destruct (Rle_dec x y); [reflexivity | contradiction]. Qed.

Lemma Rleb_false x y : y < x -> Py.Rleb x y = false.
Proof. intros H; unfold Py.Rleb; destruct (Rle_dec x y); [lra | reflexivity]. Qed.

Lemma Reqb_true x y : x = y -> Py.Reqb x y = true.
Proof. intros H; unfold Py.Reqb; destruct (Req_dec_T x y); [reflexivity | contradiction]. Qed.

Lemma Reqb_false x y : x <> y -> Py.Reqb x y = false.
Proof. intros H; unfold Py.Reqb; destruct (Req_dec_T x y); [contradiction | reflexivity]. Qed.

Lemma Rltb_iff x y : Py.Rltb x y = true <-> x < y.
Proof.
    unfold Py.Rltb; destruct (Rlt_dec x y); split; intros; try easy.
Qed.

Lemma Rleb_iff x y : Py.Rleb x y = true <-> x <= y.
Proof.
    unfold Py.Rleb; destruct (Rle_dec x y); split; intros; try easy.
Qed.

Lemma py_max_Rmax a b : Py.max a b = Rmax a b.
Proof.
    unfold Py.max, Py.Rltb, Rmax.
    destruct (Rlt_dec a b), (Rle_dec a b); lra.
Qed.

Lemma py_min_Rmin a b : Py.min a b = Rmin a b.
Proof.
    unfold Py.min, Py.Rltb, Rmin.
    destruct (Rlt_dec b a), (Rle_dec a b); lra.
Qed.


Lemma firstn_incl {A} n (l : list A) x : In x (firstn n l) -> In x l.
Proof.
  intros H. rewrite <- (firstn_skipn n l). apply in_or_app. left. exact H.
Qed.

Lemma wrap64_id z : Py.is_int64 z -> Py.wrap64 z = z.
Proof.
  unfold Py.is_int64, Py.wrap64. intros H.
  rewrite Z.mod_small; lia.
Qed.

Lemma int64_sum_exact l : Py.is_int64 (Py.Zsum l) -> Py.int64_sum l = Py.Zsum l.
Proof. apply wrap64_id. Qed.

Lemma Zsum_filter_bounds {A} (f : A -> Z) (P : A -> bool) l :
  (forall r, In r l -> (0 <= f r)%Z) ->
  (0 <= Py.Zsum (map f (filter P l)) <= Py.Zsum (map f l))%Z.
Proof.
  induction l as [|x l IH]; intros H; [simpl; lia|].
  assert (0 <= f x)%Z by (apply H; left; reflexivity).
  assert (I : (0 <= Py.Zsum (map f (filter P l)) <= Py.Zsum (map f l))%Z)
    by (apply IH; intros; apply H; right; assumption).
  simpl. destruct (P x); simpl; lia.
Qed.

(** Non-negative counts whose total fits in [int64]: no partial sum
    overflows. *)
Lemma part_sum_in_range {A} (f : A -> Z) (P : A -> bool) l :
  (forall r, In r l -> (0 <= f r)%Z) ->
  (Py.Zsum (map f l) < 2 ^ 63)%Z ->
  Py.is_int64 (Py.Zsum (map f (filter P l))).
Proof.
  intros H T. pose proof (Zsum_filter_bounds f P l H).
  unfold Py.is_int64. lia.
Qed.

End PrimitiveFacts.

(** Evaluation of float comparisons on concrete numbers. *)
Ltac Rcompare :=
  repeat first
    [ rewrite Rltb_true by lra
    | rewrite Rltb_false by lra
    | rewrite Rleb_true by lra
    | rewrite Rleb_false by lra
    | rewrite Reqb_true by lra
    | rewrite Reqb_false by lra ].
Ltac Reval := repeat (progress (Rcompare; simpl)).

(** Equality of two records of floats, field by field. *)
Ltac Rfields :=
  repeat match goal with
  | |- @eq R _ _ => lra
  | |- _ => progress f_equal
  end.

(** ** Facts about [groupby] *)

Section SortFacts.
Context {K : Type}.
Variable leb : K -> K -> bool.

Lemma insert_perm k l : Permutation (k :: l) (Py.insert leb k l).
Proof.
  induction l as [|x r IH]; simpl; [reflexivity|].
  destruct (leb k x); [reflexivity|].
  rewrite perm_swap. constructor. exact IH.
Qed.

Lemma isort_perm l : Permutation l (Py.isort leb l).
Proof.
  induction l as [|x r IH]; simpl; [constructor|].
  rewrite <- insert_perm. constructor. exact IH.
Qed.

End SortFacts.

Section UniqueFacts.
Context {K : Type}.
Variable eqb : K -> K -> bool.
Hypothesis eqb_spec : forall x y, eqb x y = true <-> x = y.

Lemma unique_In l x : In x (Py.unique eqb l) <-> In x l.
Proof.
  induction l as [|y r IH]; simpl; [tauto|].
  rewrite filter_In, IH. split.
  - intros [H | [H _]]; auto.
  - intros [H | H]; auto.
    destruct (eqb x y) eqn:E.
    + left. symmetry. apply eqb_spec. exact E.
    + right. split; auto.
Qed.

Lemma unique_NoDup l : NoDup (Py.unique eqb l).
Proof.
  induction l as [|y r IH]; simpl; constructor.
  - rewrite filter_In. intros [_ H].
    assert (E : eqb y y = true) by (apply eqb_spec; reflexivity).
    rewrite E in H. discriminate.
  - apply NoDup_filter. exact IH.
Qed.

End UniqueFacts.

Section GroupingFacts.
Context {K A : Type}.
Variable eqb : K -> K -> bool.
Variable leb : K -> K -> bool.
Hypothesis eqb_spec : forall x y, eqb x y = true <-> x = y.

Lemma groupby_keys (key : A -> K) df :
    map fst (Py.groupby eqb leb key df)
    = Py.isort leb (Py.unique eqb (map key df)).
Proof.
    unfold Py.groupby. rewrite map_map. simpl. apply map_id.
Qed.

Lemma groupby_In (key : A -> K) df k g :
    In (k, g) (Py.groupby eqb leb key df) ->
    g = filter (fun r => eqb (key r) k) df /\ In k (map key df).
Proof.
    unfold Py.groupby. rewrite in_map_iff.
    intros [k' [E H]]. inversion E; subst. split; [reflexivity|].
    apply (unique_In eqb eqb_spec (map key df)).
    eapply Permutation_in; [symmetry; apply isort_perm | exact H].
Qed.

Lemma groupby_nonempty (key : A -> K) df k g :
    In (k, g) (Py.groupby eqb leb key df) -> g <> [].
Proof.
    intros H. destruct (groupby_In key df k g H) as [-> Hk].
    apply in_map_iff in Hk. destruct Hk as [r [Hr Hin]].
    intros E.
    assert (Hf : In r (filter (fun r0 => eqb (key r0) k) df)).
    { apply filter_In. split; [exact Hin|]. apply eqb_spec. exact Hr. }
    rewrite E in Hf. exact Hf.
Qed.

Lemma groupby_complete (key : A -> K) df r :
    In r df ->
    In (key r, filter (fun r0 => eqb (key r0) (key r)) df)
       (Py.groupby eqb leb key df).
Proof.
    intros H. unfold Py.groupby. apply in_map_iff.
    exists (key r). split; [reflexivity|].
    eapply Permutation_in; [apply isort_perm|].
    apply (unique_In eqb eqb_spec). apply in_map. exact H.
Qed.

End GroupingFacts.


(** ** The forecaster *)

Section ForecasterFacts.
Import Forecaster ForecasterSpec.

Lemma key2_eqb_spec x y : key2_eqb x y = true <-> x = y.
Proof.
  destruct x as [a b], y as [c d]. unfold key2_eqb, Py.pair_eqb. simpl.
  rewrite andb_true_iff, !String.eqb_eq. split.
  - intros [-> ->]. reflexivity.
  - intros E. inversion E. auto.
Qed.

Lemma key3_eqb_spec x y : key3_eqb x y = true <-> x = y.
Proof.
  destruct x as [a b], y as [c d]. unfold key3_eqb, Py.pair_eqb. simpl.
  rewrite andb_true_iff, String.eqb_eq.
  fold (Py.pair_eqb String.eqb String.eqb a c). fold (key2_eqb a c).
  rewrite key2_eqb_spec. split.
  - intros [-> ->]. reflexivity.
  - intros E. inversion E. auto.
Qed.




Lemma monthly_exact group :
  (forall m, Py.is_int64 (month_sum group m)) ->
  monthly group
  = map (month_sum group)
        (Py.isort Z.leb (Py.unique Z.eqb (map year_month group))).
Proof.
  intros H. unfold monthly, Py.groupby. rewrite map_map.
  apply map_ext. intros m. simpl. apply int64_sum_exact. apply H.
Qed.


Lemma month_sums_in_range group :
  (forall r, In r group -> (0 <= total_bio r)%Z) ->
  (Py.Zsum (map total_bio group) < 2 ^ 63)%Z ->
  forall m, Py.is_int64 (month_sum group m).
Proof.
  intros H T m. unfold month_sum. apply part_sum_in_range; assumption.
Qed.

Lemma monthly_length group :
  length (monthly group) = length (distinct_months group).
Proof.
  unfold monthly, Py.groupby, distinct_months. rewrite !length_map.
  rewrite <- (Permutation_length (isort_perm Z.leb _)).
  apply Nat.le_antisymm; apply NoDup_incl_length.
  - apply unique_NoDup, Z.eqb_eq.
  - intros x Hx. apply nodup_In.
    exact (proj1 (unique_In Z.eqb Z.eqb_eq _ x) Hx).
  - apply NoDup_nodup.
  - intros x Hx. apply nodup_In in Hx.
    exact (proj2 (unique_In Z.eqb Z.eqb_eq _ x) Hx).
Qed.


Lemma unit_row_cases bio_df w group row :
  is_unit_row bio_df w group row ->
  group <> [] /\
  ((w = 3%nat /\ row = district_row group) \/
   (w = 2%nat /\ row = pincode_row group)).
Proof.
  intros [[-> [k [Hin ->]]] | [-> [k [Hin ->]]]].
  - unfold district_forecast in Hin. apply in_map_iff in Hin.
    destruct Hin as [[k' g] [E Hg]]. simpl in E. inversion E; subst.
    pose proof (groupby_nonempty _ _ key2_eqb_spec _ _ _ _ Hg) as Hne.
    apply (groupby_In _ _ key2_eqb_spec) in Hg. destruct Hg as [-> _].
    split; [exact Hne | left; auto].
  - unfold pincode_forecast in Hin. apply in_map_iff in Hin.
    destruct Hin as [[k' g] [E Hg]]. simpl in E. inversion E; subst.
    pose proof (groupby_nonempty _ _ key3_eqb_spec _ _ _ _ Hg) as Hne.
    apply (groupby_In _ _ key3_eqb_spec) in Hg. destruct Hg as [-> _].
    split; [exact Hne | right; auto].
Qed.

End ForecasterFacts.

Section ForecasterClaims.
Import Forecaster ForecasterSpec Samples.



Example four_months_monthly : monthly four_months = [100; 100; 40; 40]%Z.
Proof. reflexivity. Qed.

Example four_months_trend : trend (district_row four_months) = - (1 / 4).
Proof.
  unfold district_row, trend. rewrite four_months_monthly.
  unfold trend_of, Py.tail, Py.head, Py.Zmean. simpl.
  assert (E : 240 / (1 + 1 + 1) = 80) by lra. rewrite E.
  unfold Py.max. rewrite Rltb_false by lra. lra.
Qed.

(** A unit with a single month: trend 0 and the forecast is that month. *)
Example one_record_forecast :
  trend (pincode_row one_record) = 0 /\
  forecast_load (pincode_row one_record) = 5.
Proof.
  split; [reflexivity|].
  unfold pincode_row, forecast_load, trend_of. simpl.
  change (last_load (monthly one_record)) with 5%Z. lra.
Qed.

Lemma spike_risk_of_group group :
  (2 <= length group)%nat ->
  Py.min_nan (raw_spike_risk group) 2
  = Some (Rmin (sample_std (daily_counts group)
                / Rmax (Py.mean (daily_counts group)) 1) 2).
Proof.
  intros H. unfold raw_spike_risk, Py.pd_std. fold (daily_counts group).
  assert (E : (length (daily_counts group) <? 2)%nat = false).
  { unfold daily_counts. rewrite length_map. apply Nat.ltb_ge. exact H. }
  rewrite E. simpl. rewrite py_min_Rmin, py_max_Rmax. reflexivity.
Qed.

Lemma capped_ratio_bounds s m : 0 <= s -> 0 <= Rmin (s / Rmax m 1) 2 <= 2.
Proof.
  intros Hs.
  assert (Hm : 0 < Rmax m 1) by (pose proof (Rmax_r m 1); lra).
  assert (Hq : 0 <= s / Rmax m 1).
  { unfold Rdiv. apply Rmult_le_pos; [exact Hs|].
    left. apply Rinv_0_lt_compat. exact Hm. }
  split.
  - apply Rmin_glb; lra.
  - apply Rmin_r.
Qed.

Lemma unit_one_record : is_unit_row one_record 2 one_record (pincode_row one_record).
Proof.
  right. split; [reflexivity|].
  exists ("Kerala", "Idukki", "685501")%string. split; [left|]; reflexivity.
Qed.

Lemma two_records_stats :
  Py.mean (daily_counts two_records) = 2 /\
  Py.sq_dev (daily_counts two_records) = 2.
Proof.
  assert (M : Py.mean (daily_counts two_records) = 2).
  { unfold Py.mean. simpl. lra. }
  split; [exact M|].
  unfold Py.sq_dev. rewrite M. simpl. lra.
Qed.

Lemma sqrt2_gt_1 : 1 < sqrt 2.
Proof.
  rewrite <- sqrt_1 at 1. apply sqrt_lt_1; lra.
Qed.

Lemma two_records_spike : spike_risk (pincode_row two_records) = Some (sqrt 2 / 2)
   /\ spec_spike_risk (daily_counts two_records) = 1 / 2.
Proof.
  destruct two_records_stats as [M S].
  split.
  - change (spike_risk (pincode_row two_records)) with (Py.min_nan (raw_spike_risk two_records) 2).
    rewrite spike_risk_of_group by (simpl; lia).
    unfold sample_std. rewrite M, S.
    replace (length (daily_counts two_records)) with 2%nat by reflexivity.
    replace (2 / (INR 2 - 1)) with 2 by (simpl; lra).
    rewrite Rmax_left by lra.
    rewrite Rmin_left; [reflexivity|].
    assert (sqrt 2 < 2).
    { rewrite <- (sqrt_square 2) at 2 by lra. apply sqrt_lt_1; lra. }
    lra.
  - unfold spec_spike_risk, Py.np_std. rewrite M, S.
    replace (length (daily_counts two_records)) with 2%nat by reflexivity.
    replace (2 / INR 2) with 1 by (simpl; lra).
    rewrite sqrt_1. rewrite Rmax_left by lra. rewrite Rmin_left by lra. reflexivity.
Qed.

Lemma sparse_records_stats :
  Py.mean (daily_counts sparse_records) = 1 / 2 /\
  Py.sq_dev (daily_counts sparse_records) = 1 / 2.
Proof.
  assert (M : Py.mean (daily_counts sparse_records) = 1 / 2).
  { unfold Py.mean. simpl. lra. }
  split; [exact M|].
  unfold Py.sq_dev. rewrite M. simpl. lra.
Qed.

Lemma sparse_records_spike :
  spike_risk (pincode_row sparse_records) = Some (sqrt (1 / 2)) /\
  sample_std (daily_counts sparse_records)
  / Py.mean (daily_counts sparse_records) = 2 * sqrt (1 / 2).
Proof.
  destruct sparse_records_stats as [M S].
  assert (V : sample_std (daily_counts sparse_records) = sqrt (1 / 2)).
  { unfold sample_std. rewrite S.
    replace (length (daily_counts sparse_records)) with 2%nat by reflexivity.
    replace (1 / 2 / (INR 2 - 1)) with (1 / 2) by (simpl; lra). reflexivity. }
  assert (B : sqrt (1 / 2) < 1).
  { rewrite <- sqrt_1 at 2. apply sqrt_lt_1; lra. }
  pose proof (sqrt_pos (1 / 2)) as P.
  split.
  - change (spike_risk (pincode_row sparse_records))
      with (Py.min_nan (raw_spike_risk sparse_records) 2).
    rewrite spike_risk_of_group by (simpl; lia).
    rewrite V, M. rewrite Rmax_right by lra.
    rewrite Rmin_left by lra. f_equal. lra.
  - rewrite V, M. lra.
Qed.

(** C4 (amended).  For every geographic unit with at least two records,
    at both granularities, spike_risk is the sample (ddof = 1) standard
    deviation of the unit's total_bio values divided by max(their mean, 1),
    capped at 2; it is a defined value in [0, 2]. *)
Theorem spike_risk_sample_cv bio_df w group row :
  is_unit_row bio_df w group row ->
  (2 <= length group)%nat ->
  spike_risk row
  = Some (Rmin (sample_std (daily_counts group)
                / Rmax (Py.mean (daily_counts group)) 1) 2) /\
  0 <= Rmin (sample_std (daily_counts group)
             / Rmax (Py.mean (daily_counts group)) 1) 2 <= 2.
Proof.
  intros H Hlen. apply unit_row_cases in H. destruct H as [_ H].
  split.
  - destruct H as [[_ ->] | [_ ->]]; simpl; apply spike_risk_of_group; exact Hlen.
  - apply capped_ratio_bounds. apply sqrt_pos.
Qed.

(** C4, as stated, fails.  A unit with a single record has an undefined
    (NaN) spike risk; for the two records 1 and 3 the code yields
    sqrt 2 / 2 where the population formula of the claim yields 1/2; and
    for the records 0 and 1, whose mean is below 1, the code divides by 1
    and not by the mean. *)
Lemma spike_risk_population_claim_fails :
  (is_unit_row one_record 2 one_record (pincode_row one_record) /\
   spike_risk (pincode_row one_record) = None) /\
  (spike_risk (pincode_row two_records) = Some (sqrt 2 / 2) /\
   spec_spike_risk (daily_counts two_records) = 1 / 2 /\
   sqrt 2 / 2 <> 1 / 2) /\
  (spike_risk (pincode_row sparse_records) = Some (sqrt (1 / 2)) /\
   sample_std (daily_counts sparse_records)
   / Py.mean (daily_counts sparse_records) = 2 * sqrt (1 / 2) /\
   sqrt (1 / 2) <> 2 * sqrt (1 / 2)).
Proof.
  split; [|split].
  - split; [apply unit_one_record | reflexivity].
  - destruct two_records_spike as [A B]. split; [exact A|]. split; [exact B|].
    pose proof sqrt2_gt_1. lra.
  - destruct sparse_records_spike as [A B]. split; [exact A|]. split; [exact B|].
    assert (0 < sqrt (1 / 2)) by (apply sqrt_lt_R0; lra). lra.
Qed.

Lemma spike_risk_sample_cv_witness :
  spike_risk (pincode_row two_records)
  = Some (Rmin (sample_std (daily_counts two_records)
                / Rmax (Py.mean (daily_counts two_records)) 1) 2) /\
  0 <= Rmin (sample_std (daily_counts two_records)
             / Rmax (Py.mean (daily_counts two_records)) 1) 2 <= 2.
Proof.
  apply (spike_risk_sample_cv two_records 2 two_records
           (pincode_row two_records)).
  - right. split; [reflexivity|].
    exists ("Kerala", "Idukki", "685501")%string.
    split; [left|]; reflexivity.
  - simpl. lia.
Defined.

End ForecasterClaims.


(** ** The load scorer *)

Section LoadScorerClaims.
Import LoadScorer LoadScorerSpec ScoreSamples.

Lemma category_of_bins s :
  (category_of (Some s) = Some Low <-> 0 < s <= 0.5) /\
  (category_of (Some s) = Some Medium <-> 0.5 < s <= 0.75) /\
  (category_of (Some s) = Some High <-> 0.75 < s <= 0.9) /\
  (category_of (Some s) = Some Critical <-> 0.9 < s <= 1.0).
Proof.
  unfold category_of, cut, Py.Rltb, Py.Rleb.
  repeat match goal with
  | |- context [Rlt_dec ?a ?b] => destruct (Rlt_dec a b)
  | |- context [Rle_dec ?a ?b] => destruct (Rle_dec a b)
  end; simpl; repeat split; intros; try discriminate; try lra.
Qed.

Lemma scored_row_columns pf row :
  In row (calculate_load_scores pf) ->
  load_category row = category_of (load_score row) /\
  is_overloaded row = overloaded_of (load_score row) /\
  spare_capacity row = 1 - load_percentile row.
Proof.
  unfold calculate_load_scores. rewrite in_map_iff.
  intros [[[[st di] pin] fr] [<- _]]. simpl. auto.
Qed.

Lemma third_unit_scored :
  nth_error (calculate_load_scores three_units) 2 = Some third_unit.
Proof.
  unfold calculate_load_scores, three_units, third_unit. simpl. Reval.
  Rfields.
Qed.

Lemma tied_unit_scored :
  nth_error (calculate_load_scores five_units) 3 = Some tied_unit.
Proof.
  unfold calculate_load_scores, five_units, tied_unit. simpl. Reval.
  Rfields.
Qed.

(** C3 (amended).  For every LoadScoreRow, load_category is assigned to
    load_score by bins that are open on the left and closed on the right
    over the edges 0, 0.5, 0.75, 0.9, 1.0: Low on (0, 0.5], Medium on
    (0.5, 0.75], High on (0.75, 0.9], Critical on (0.9, 1.0]; the row is
    flagged overloaded exactly when load_score >= 0.9.  So a row with
    load_score exactly 0.9 is categorized High and flagged overloaded. *)
Theorem load_category_right_closed pf row s :
  In row (calculate_load_scores pf) ->
  load_score row = Some s ->
  (load_category row = Some Low <-> 0 < s <= 0.5) /\
  (load_category row = Some Medium <-> 0.5 < s <= 0.75) /\
  (load_category row = Some High <-> 0.75 < s <= 0.9) /\
  (load_category row = Some Critical <-> 0.9 < s <= 1.0) /\
  (is_overloaded row = true <-> 0.9 <= s) /\
  (s = 0.9 -> load_category row = Some High /\ is_overloaded row = true).
Proof.
  intros Hin Hs. destruct (scored_row_columns pf row Hin) as [Hc [Ho _]].
  rewrite Hc, Ho, Hs.
  destruct (category_of_bins s) as [B1 [B2 [B3 B4]]].
  assert (O : overloaded_of (Some s) = true <-> 0.9 <= s)
    by apply Rleb_iff.
  split; [exact B1|]. split; [exact B2|]. split; [exact B3|].
  split; [exact B4|]. split; [exact O|].
  intros ->. split; [apply B3 | apply O]; lra.
Qed.

Lemma load_category_right_closed_witness :
  (load_category tied_unit = Some Low <-> 0 < 0.9 <= 0.5) /\
  (load_category tied_unit = Some Medium <-> 0.5 < 0.9 <= 0.75) /\
  (load_category tied_unit = Some High <-> 0.75 < 0.9 <= 0.9) /\
  (load_category tied_unit = Some Critical <-> 0.9 < 0.9 <= 1.0) /\
  (is_overloaded tied_unit = true <-> 0.9 <= 0.9) /\
  (0.9 = 0.9 ->
   load_category tied_unit = Some High /\ is_overloaded tied_unit = true).
Proof.
  apply (load_category_right_closed five_units tied_unit 0.9).
  - apply (nth_error_In _ 3). apply tied_unit_scored.
  - reflexivity.
Defined.

(** C3, as stated, fails: of five scored pincodes the two tied at the
    top have load_score exactly 0.9; right-open bins would make them
    Critical, the code makes them High (and flags them overloaded).  The
    score is 0.9 in float64 as well: 4.5 / 5 is the float 0.9 and
    0.9 * 0.7 + 0.9 * 0.3 evaluates to it. *)
Lemma right_open_bins_claim_fails :
  In tied_unit (calculate_load_scores five_units) /\
  load_score tied_unit = Some 0.9 /\
  spec_category 0.9 = Some Critical /\
  load_category tied_unit = Some High /\
  load_category tied_unit <> spec_category 0.9 /\
  is_overloaded tied_unit = true /\
  Float64.load_score (Float64.rank_pct 4.5 5) (Float64.rank_pct 4.5 5)
  = 0.9%float /\
  Float64.category_of 0.9 = Some High /\
  Float64.overloaded_of 0.9 = true.
Proof.
  assert (S : spec_category 0.9 = Some Critical).
  { unfold spec_category. Reval. reflexivity. }
  split; [apply (nth_error_In _ 3); apply tied_unit_scored|].
  split; [reflexivity|]. split; [exact S|]. split; [reflexivity|].
  split; [rewrite S; discriminate|]. split; [reflexivity|].
  repeat split; vm_compute; reflexivity.
Qed.

End LoadScorerClaims.


(** ** The recommender *)

Section RecommenderClaims.
Import LoadScorer Recommender ScoreSamples.

Lemma three_units_scored : calculate_load_scores three_units = scored_units.
Proof.
  unfold calculate_load_scores, three_units, scored_units, first_unit, second_unit, third_unit.
  simpl. Reval. Rfields.
Qed.

Lemma third_candidates : candidates scored_units 5 third_unit = [first_unit; first_unit; second_unit].
Proof.
  unfold candidates, same_district_pass, adjacent_pass, nlargest, scored_units.
  simpl. Reval. reflexivity.
Qed.

Lemma find_third : find_alternatives scored_units 20 5 = [recommend scored_units 5 third_unit].
Proof.
  unfold find_alternatives, nlargest, scored_units. simpl. reflexivity.
Qed.

Lemma nlargest_incl {A} n (key : A -> option R) df x :
  In x (nlargest n key df) -> In x df.
Proof.
  unfold nlargest. intros H. apply firstn_incl in H.
  eapply Permutation_in; [symmetry; apply isort_perm | exact H].
Qed.

Lemma nlargest_length {A} n (key : A -> option R) df :
  (length (nlargest n key df) <= n)%nat.
Proof. unfold nlargest. apply firstn_le_length. Qed.

Lemma candidates_not_source ls per row c :
  In c (candidates ls per row) -> pincode c <> pincode row.
Proof.
  unfold candidates.
  assert (P1 : In c (same_district_pass ls per row) -> pincode c <> pincode row).
  { unfold same_district_pass. intros H. apply nlargest_incl in H.
    apply filter_In in H. destruct H as [_ H].
    rewrite !andb_true_iff in H. destruct H as [[[_ _] H] _].
    apply negb_true_iff in H. apply String.eqb_neq. exact H. }
  assert (P2 : forall n, In c (adjacent_pass ls n row) -> pincode c <> pincode row).
  { intros n. unfold adjacent_pass. intros H. apply nlargest_incl in H.
    apply filter_In in H. destruct H as [_ H].
    rewrite !andb_true_iff in H. destruct H as [[_ H] _].
    apply negb_true_iff in H. apply String.eqb_neq. exact H. }
  destruct (length (same_district_pass ls per row) <? per)%nat.
  - rewrite in_app_iff. intros [H | H]; [apply P1 | eapply P2]; eassumption.
  - exact P1.
Qed.

(** C9.  For every recommendation produced by
    find_alternatives(top_n_overloaded, alternatives_per_pincode), no
    alternative has the pincode of the source unit, and the list of
    alternatives has at most alternatives_per_pincode entries. *)
Theorem alternatives_exclude_source ls top per rec :
  In rec (find_alternatives ls top per) ->
  (forall alt, In alt (alternatives rec) -> alt_pincode alt <> rec_pincode rec) /\
  (length (alternatives rec) <= per)%nat.
Proof.
  unfold find_alternatives. rewrite in_map_iff.
  intros [row [<- _]]. simpl. split.
  - intros alt H. apply in_map_iff in H. destruct H as [c [<- H]]. simpl.
    unfold Py.head in H. apply firstn_incl in H.
    eapply candidates_not_source. exact H.
  - rewrite length_map. unfold Py.head. apply firstn_le_length.
Qed.

Lemma alternatives_exclude_source_witness :
  (forall alt, In alt (alternatives (recommend scored_units 5 third_unit)) ->
     alt_pincode alt <> rec_pincode (recommend scored_units 5 third_unit)) /\
  (length (alternatives (recommend scored_units 5 third_unit)) <= 5)%nat.
Proof.
  apply (alternatives_exclude_source scored_units 20 5
           (recommend scored_units 5 third_unit)).
  rewrite find_third. left. reflexivity.
Defined.

(** C10.  find_alternatives can return a recommendation whose
    alternatives hold the same pincode twice.  On the scored table of
    three pincodes of one district, Pass 1 finds one candidate (fewer
    than the 5 asked for), Pass 2 finds that same pincode again through
    its 4-digit prefix, both copies are concatenated and both survive the
    final truncation.  The comparisons that select the rows come out the
    same in float64: the third pincode has the score 1 and is overloaded,
    the first has a spare capacity above 0.5 and the second one between
    0.3 and 0.5. *)
Theorem alternatives_can_repeat_a_pincode :
  calculate_load_scores three_units = scored_units /\
  find_alternatives scored_units 20 5
  = [recommend scored_units 5 third_unit] /\
  same_district_pass scored_units 5 third_unit = [first_unit] /\
  adjacent_pass scored_units 4 third_unit = [first_unit; second_unit] /\
  map alt_pincode (alternatives (recommend scored_units 5 third_unit))
  = ["685501"; "685501"; "685502"]%string /\
  ~ NoDup (map alt_pincode
             (alternatives (recommend scored_units 5 third_unit))) /\
  map (fun rank =>
         Float64.overloaded_of
           (Float64.load_score (Float64.rank_pct rank 3)
                               (Float64.rank_pct rank 3)))
      [1; 2; 3]%float
  = [false; false; true] /\
  map (fun rank =>
         PrimFloat.ltb 0.5 (Float64.spare_capacity (Float64.rank_pct rank 3)))
      [1; 2; 3]%float
  = [true; false; false] /\
  map (fun rank =>
         PrimFloat.ltb 0.3 (Float64.spare_capacity (Float64.rank_pct rank 3)))
      [1; 2; 3]%float
  = [true; true; false].
Proof.
  assert (E : map alt_pincode
                (alternatives (recommend scored_units 5 third_unit))
              = ["685501"; "685501"; "685502"]%string).
  { cbn [recommend alternatives]. rewrite third_candidates. reflexivity. }
  split; [apply three_units_scored|]. split; [apply find_third|].
  split; [|split; [|split; [exact E|split]]].
  - unfold same_district_pass, nlargest, scored_units. simpl. Reval.
    reflexivity.
  - unfold adjacent_pass, nlargest, scored_units. simpl. Reval.
    reflexivity.
  - rewrite E. intros H. inversion H as [|x l Hnot _]; subst.
    apply Hnot. left. reflexivity.
  - repeat split; vm_compute; reflexivity.
Qed.

Lemma simulate_totals pct recs acc :
  (forall r, In r recs -> alternatives r <> []) ->
  let t := fold_left (simulate_step pct) recs acc in
  total_original_peak t - total_original_peak acc
  = Py.Rsum (map rec_forecast_load recs) /\
  total_new_peak t - total_new_peak acc
  = Py.Rsum (map rec_forecast_load recs) * (1 - pct / 100).
Proof.
  revert acc. induction recs as [|r rs IH]; intros acc H; simpl.
  - split; lra.
  - assert (Hr : alternatives r <> []) by (apply H; left; reflexivity).
    assert (Hrs : forall r0, In r0 rs -> alternatives r0 <> [])
      by (intros; apply H; right; assumption).
    destruct (IH (simulate_step pct acc r) Hrs) as [A B].
    unfold simulate_step in A, B |- *.
    destruct (alternatives r) as [|a l]; [contradiction|].
    simpl in A, B. split; lra.
Qed.

Lemma reduction_is_percentage recs pct :
  (forall r, In r recs -> alternatives r <> []) ->
  peak_reduction_pct (simulate_one recs pct)
  = if Py.Rltb 0 (Py.Rsum (map rec_forecast_load recs)) then pct else 0.
Proof.
  intros H. unfold simulate_one. cbn [peak_reduction_pct].
  destruct (simulate_totals pct recs
              {| total_original_peak := 0; total_new_peak := 0;
                 total_redirected := 0 |} H) as [A B].
  cbv zeta in A, B. simpl in A, B.
  rewrite Rminus_0_r in A, B. rewrite A, B.
  unfold Py.Rltb. destruct (Rlt_dec 0 _) as [P | P]; [|reflexivity].
  field. lra.
Qed.

(** C7.  For a fixed list of recommendations with non-negative forecast
    loads, each with at least one alternative, peak_reduction_pct is
    monotonically non-decreasing in redirect_percentage: of two scenarios
    of simulate_load_balancing, the one with the smaller percentage has
    the smaller or equal reduction. *)
Theorem peak_reduction_monotone recs pcts s1 s2 :
  (forall r, In r recs -> 0 <= rec_forecast_load r /\ alternatives r <> []) ->
  In s1 (simulate_load_balancing recs pcts) ->
  In s2 (simulate_load_balancing recs pcts) ->
  redirect_percentage s1 <= redirect_percentage s2 ->
  peak_reduction_pct s1 <= peak_reduction_pct s2.
Proof.
  intros H H1 H2.
  unfold simulate_load_balancing in H1, H2.
  apply in_map_iff in H1. destruct H1 as [p1 [<- _]].
  apply in_map_iff in H2. destruct H2 as [p2 [<- _]].
  assert (Ha : forall r, In r recs -> alternatives r <> [])
    by (intros r Hr; apply H; exact Hr).
  rewrite !reduction_is_percentage by exact Ha.
  cbn [redirect_percentage simulate_one]. intros Hp.
  destruct (Py.Rltb 0 _); lra.
Qed.

Lemma peak_reduction_monotone_witness :
  peak_reduction_pct
    (simulate_one [recommend scored_units 5 third_unit] 10)
  <= peak_reduction_pct
       (simulate_one [recommend scored_units 5 third_unit] 20).
Proof.
  apply (peak_reduction_monotone
           [recommend scored_units 5 third_unit] [10; 20]).
  - intros r [<- | []]. split.
    + simpl. lra.
    + cbn [recommend alternatives]. rewrite third_candidates. discriminate.
  - left. reflexivity.
  - right. left. reflexivity.
  - simpl. lra.
Defined.

Example third_unit_reduction :
  peak_reduction_pct
    (simulate_one [recommend scored_units 5 third_unit] 20) = 20.
Proof.
  rewrite reduction_is_percentage.
  - simpl. Reval. reflexivity.
  - intros r [<- | []]. cbn [recommend alternatives].
    rewrite third_candidates. discriminate.
Qed.

End RecommenderClaims.


(** ** The neighbour graph *)

Section NeighborGraphClaims.
Import NeighborGraph NeighborGraphSpec GraphSamples.

Lemma dict_get_set {V} k k' (v : V) d :
  dict_get k (dict_set k' v d) = if String.eqb k' k then Some v else dict_get k d.
Proof.
  induction d as [|[k0 v0] r IH]; simpl.
  - reflexivity.
  - destruct (String.eqb_spec k0 k') as [-> | N0]; simpl.
    + destruct (String.eqb k' k); reflexivity.
    + rewrite IH. destruct (String.eqb_spec k0 k) as [-> | N1]; [|reflexivity].
      destruct (String.eqb_spec k' k) as [-> | N2]; [contradiction | reflexivity].
Qed.

Lemma adjacent_region_incl pincodes pin adj q :
  adjacent_region pincodes pin = Some adj -> In q adj -> In q pincodes.
Proof.
  revert adj. induction pincodes as [|p rest IH]; simpl; intros adj H Hq.
  - inversion H; subst. destruct Hq.
  - destruct (String.eqb p pin).
    + right. eapply IH; eassumption.
    + destruct (py_int (prefix3 p)); [|discriminate].
      destruct (py_int (prefix3 pin)); [|discriminate].
      destruct (adjacent_region rest pin) as [r|]; [|discriminate].
      inversion H; subst.
      destruct (Z.abs (z - z0) <=? 1)%Z.
      * destruct Hq as [-> | Hq]; [left; reflexivity | right; eapply IH; eauto].
      * right. eapply IH; eauto.
Qed.

Lemma region_loop_within pincodes region todo g g' :
  (forall p, In p pincodes -> prefix3 p = region) ->
  incl todo pincodes ->
  within_region g ->
  region_loop pincodes todo g = Some g' ->
  within_region g'.
Proof.
  intros Hreg. revert g. induction todo as [|pin rest IH]; simpl; intros g Hin Hg H.
  - inversion H; subst. exact Hg.
  - destruct (adjacent_region pincodes pin) as [adj|] eqn:Ea; [|discriminate].
    eapply IH; [| |exact H].
    + intros x Hx. apply Hin. right. exact Hx.
    + intros p ns q Hget Hq. rewrite dict_get_set in Hget.
      destruct (String.eqb pin p) eqn:E.
      * apply String.eqb_eq in E. subst p. inversion Hget; subst.
        apply (proj1 (unique_In String.eqb String.eqb_eq _ _)) in Hq.
        rewrite (Hreg pin) by (apply Hin; left; reflexivity).
        apply Hreg. apply in_app_or in Hq. destruct Hq as [Hq | Hq].
        -- unfold same_region in Hq. apply filter_In in Hq. tauto.
        -- eapply adjacent_region_incl; eassumption.
      * eapply Hg; eassumption.
Qed.

Lemma regions_loop_within regions g g' :
  (forall k pins p, In (k, pins) regions -> In p pins -> prefix3 p = k) ->
  within_region g ->
  regions_loop regions g = Some g' ->
  within_region g'.
Proof.
  revert g. induction regions as [|[k pins] rest IH]; simpl; intros g Hreg Hg H.
  - inversion H; subst. exact Hg.
  - destruct (region_loop _ _ g) as [g1|] eqn:E; [|discriminate].
    eapply IH; [| |exact H].
    + intros k' pins' p Hin. eapply Hreg. right. exact Hin.
    + eapply (region_loop_within _ k); [| |exact Hg|exact E].
      * intros p Hp. apply (proj1 (unique_In String.eqb String.eqb_eq _ _)) in Hp.
        eapply Hreg; [left; reflexivity | exact Hp].
      * apply incl_refl.
Qed.

Lemma pincode_graph_within_region data g :
  build_pincode_graph data = Some g -> within_region g.
Proof.
  unfold build_pincode_graph. apply regions_loop_within.
  - intros k pins p Hin Hp. unfold pin_regions in Hin.
    apply (groupby_In String.eqb String.leb String.eqb_eq) in Hin.
    destruct Hin as [-> _]. apply filter_In in Hp. destruct Hp as [_ Hp].
    apply String.eqb_eq. exact Hp.
  - intros p ns q H. discriminate.
Qed.

(** C5, at a failing input.  The data holds the pincodes 110001, 111001
    and 110002.  The claim makes 111001 a neighbour of 110001, their
    3-digit prefixes differing by exactly 1; the code compares a pincode
    only with the pincodes of its own 3-digit group, so the graph links
    110001 with 110002 alone and leaves 111001 without neighbours. *)
Theorem adjacent_prefix_pincodes_not_linked :
  build_pincode_graph two_regions
  = Some [("110001", ["110002"]); ("110002", ["110001"]); ("111001", [])]%string /\
  spec_neighbor "110001" "111001" /\
  spec_neighbor "111001" "110001".
Proof.
  split; [reflexivity|]. split.
  - split; [discriminate|]. right. exists 110%Z, 111%Z. repeat split; reflexivity || lia.
  - split; [discriminate|]. right. exists 111%Z, 110%Z. repeat split; reflexivity || lia.
Qed.

End NeighborGraphClaims.


(** ** The Mobility Signal Index *)

Section MSIClaims.
Import NeighborGraph MSI MSISpec MSISamples TemporalChanges.










Lemma combine_map2 {A B C D} (f : A -> C) (g : B -> D) xs ys :
  combine (map f xs) (map g ys)
  = map (fun p => (f (fst p), g (snd p))) (combine xs ys).
Proof.
  revert ys. induction xs as [|x xs IH]; intros [|y ys]; simpl; try reflexivity.
  f_equal. apply IH.
Qed.

Lemma np_cov_dot xs ys :
  np_cov xs ys = dot (deviations xs) (deviations ys) / (INR (length xs) - 1).
Proof.
  unfold np_cov, dot, deviations. rewrite combine_map2, map_map. reflexivity.
Qed.

Lemma combine_diag {A} (l : list A) : combine l l = map (fun x => (x, x)) l.
Proof. induction l; simpl; [reflexivity | f_equal; assumption]. Qed.

Lemma sq_dev_dot xs : Py.sq_dev xs = dot (deviations xs) (deviations xs).
Proof.
  unfold Py.sq_dev, dot, deviations. rewrite combine_diag, !map_map. reflexivity.
Qed.

Lemma sqrt_pos_arg x : 0 < sqrt x -> 0 < x.
Proof.
  intros H. destruct (Rlt_dec 0 x) as [P | N]; [exact P|].
  rewrite sqrt_neg_0 in H by lra. lra.
Qed.

Lemma np_std_pos_dot xs :
  0 < Py.np_std xs -> 0 < dot (deviations xs) (deviations xs).
Proof.
  unfold Py.np_std. intros H. apply sqrt_pos_arg in H.
  rewrite <- sq_dev_dot.
  destruct (length xs) as [|n] eqn:E.
  - simpl in H. unfold Rdiv in H. rewrite Rinv_0, Rmult_0_r in H. lra.
  - assert (P : 0 < INR (S n)) by (apply lt_0_INR; lia).
    unfold Rdiv in H.
    assert (Q : 0 < / INR (S n)) by (apply Rinv_0_lt_compat; exact P).
    nra.
Qed.

Lemma scaled_ratio a b c k :
  0 < a -> 0 < b -> 0 < k ->
  (c / k) / sqrt ((a / k) * (b / k)) = c / sqrt (a * b).
Proof.
  intros Ha Hb Hk.
  replace ((a / k) * (b / k)) with ((a * b) / (k * k)) by (field; lra).
  rewrite sqrt_div_alt by nra.
  rewrite sqrt_square by lra.
  assert (0 < sqrt (a * b)) by (apply sqrt_lt_R0; nra).
  field. split; lra.
Qed.

Lemma np_corrcoef_pearson xs ys :
  (2 <= length xs)%nat -> length ys = length xs ->
  0 < Py.np_std xs -> 0 < Py.np_std ys ->
  np_corrcoef xs ys = pearson xs ys.
Proof.
  intros Hn Hlen Hx Hy. unfold np_corrcoef, pearson.
  rewrite !np_cov_dot. rewrite Hlen.
  apply scaled_ratio.
  - apply np_std_pos_dot; exact Hx.
  - apply np_std_pos_dot; exact Hy.
  - assert (2 <= INR (length xs)) by (apply (le_INR 2); exact Hn). lra.
Qed.

Lemma inverse_corr_cases lc nc :
  length nc = length lc ->
  ((2 < length lc)%nat /\ 0 < Py.np_std lc /\ 0 < Py.np_std nc ->
   inverse_corr_of lc nc = - pearson lc nc) /\
  ((length lc < 3)%nat \/ Py.np_std lc = 0 \/ Py.np_std nc = 0 ->
   inverse_corr_of lc nc = 0).
Proof.
  intros Hlen. unfold inverse_corr_of. split.
  - intros [Hn [Hx Hy]].
    assert (E : (2 <? length lc)%nat = true) by (apply Nat.ltb_lt; exact Hn).
    rewrite E, !Rltb_true by assumption. simpl.
    rewrite np_corrcoef_pearson; auto. lia.
  - intros [Hn | [Hx | Hy]].
    + assert (E : (2 <? length lc)%nat = false) by (apply Nat.ltb_ge; lia).
      rewrite E. reflexivity.
    + rewrite (Rltb_false 0 (Py.np_std lc)) by lra.
      rewrite andb_false_r. reflexivity.
    + rewrite (Rltb_false 0 (Py.np_std nc)) by lra.
      rewrite andb_false_r. reflexivity.
Qed.



Lemma collect_Some {A} (l : list (option A)) xs :
  collect l = Some xs <-> l = map Some xs.
Proof.
  revert xs. induction l as [|[x|] l IH]; intros xs; simpl.
  - split.
    + intros H. injection H as <-. reflexivity.
    + intros H. destruct xs; [reflexivity | discriminate].
  - destruct (collect l) as [ys|] eqn:E; simpl.
    + split.
      * intros H. injection H as <-. simpl. f_equal. apply IH. reflexivity.
      * intros H. destruct xs as [|y ys']; [discriminate|].
        simpl in H. injection H as -> H. apply IH in H.
        injection H as ->. reflexivity.
    + split; [discriminate|].
      intros H. destruct xs as [|y ys']; [discriminate|].
      simpl in H. injection H as _ H. apply IH in H. discriminate.
  - split; [discriminate|]. intros H. destruct xs; discriminate.
Qed.

Lemma collect_None {A} (l : list (option A)) :
  collect l = None <-> In None l.
Proof.
  induction l as [|[x|] l IH]; simpl.
  - split; [discriminate | tauto].
  - destruct (collect l); simpl.
    + split; [discriminate|].
      intros [H | H]; [discriminate|]. apply IH in H. discriminate.
    + split; [intros _; right; apply IH; reflexivity | reflexivity].
  - split; auto.
Qed.

Lemma location_records_Some e w loc xs :
  location_records e w loc = Some xs ->
  forall r, In r xs ->
    (2 <= length (valid_neighbors e loc))%nat /\
    exists t, (w <= t < length (time_periods e))%nat /\
              msi_record e w (valid_neighbors e loc) loc t = Some r.
Proof.
  unfold location_records.
  destruct (length (valid_neighbors e loc) <? 2)%nat eqn:E.
  - intros H. injection H as <-. intros r [].
  - intros H r Hr. apply Nat.ltb_ge in E. split; [exact E|].
    apply collect_Some in H.
    assert (I : In (Some r) (map Some xs)) by (apply in_map; exact Hr).
    rewrite <- H in I. apply in_map_iff in I. destruct I as [t [Ht Hs]].
    apply in_seq in Hs. exists t. split; [lia | exact Ht].
Qed.

Lemma location_records_In e w loc xs t :
  location_records e w loc = Some xs ->
  (2 <= length (valid_neighbors e loc))%nat ->
  (w <= t < length (time_periods e))%nat ->
  exists r, msi_record e w (valid_neighbors e loc) loc t = Some r /\ In r xs.
Proof.
  unfold location_records. intros H Hv Ht.
  assert (E : (length (valid_neighbors e loc) <? 2)%nat = false)
    by (apply Nat.ltb_ge; exact Hv).
  rewrite E in H. apply collect_Some in H.
  assert (I : In (msi_record e w (valid_neighbors e loc) loc t) (map Some xs)).
  { rewrite <- H. apply in_map. apply in_seq. lia. }
  apply in_map_iff in I. destruct I as [r [Hr Hin]].
  exists r. split; [symmetry; exact Hr | exact Hin].
Qed.

Lemma compute_msi_Some e w rs :
  compute_msi e w = Some rs ->
  exists xss,
    map (location_records e w) (locations e) = map Some xss /\
    rs = concat xss.
Proof.
  unfold compute_msi.
  destruct (collect (map (location_records e w) (locations e)))
    as [xss|] eqn:E; simpl; [|discriminate].
  intros H. injection H as <-. exists xss.
  split; [apply collect_Some; exact E | reflexivity].
Qed.

(** Every record of [compute_msi] is the row of a location with at
    least 2 valid neighbours, whose key splits into two names, at a time
    index from the window size on. *)
Lemma compute_msi_records e w rs r :
  compute_msi e w = Some rs -> In r rs ->
  exists loc t names,
    In loc (locations e) /\ (2 <= length (valid_neighbors e loc))%nat /\
    (w <= t < length (time_periods e))%nat /\
    split_key loc = Some names /\
    r = msi_row e w (valid_neighbors e loc) loc t names.
Proof.
  intros H Hr. apply compute_msi_Some in H. destruct H as [xss [M ->]].
  apply in_concat in Hr. destruct Hr as [xs [Hxs Hr]].
  assert (I : In (Some xs) (map (location_records e w) (locations e)))
    by (rewrite M; apply in_map; exact Hxs).
  apply in_map_iff in I. destruct I as [loc [Hl Hloc]].
  destruct (location_records_Some e w loc xs Hl r Hr) as [Hv [t [Ht Hrec]]].
  unfold msi_record in Hrec.
  destruct (split_key loc) as [names|] eqn:S; [|discriminate].
  simpl in Hrec. injection Hrec as <-.
  exists loc, t, names. repeat split; try assumption; lia.
Qed.

(** And every such row is among the records when the call returns. *)
Lemma msi_record_in e w rs loc t :
  compute_msi e w = Some rs ->
  In loc (locations e) ->
  (2 <= length (valid_neighbors e loc))%nat ->
  (w <= t < length (time_periods e))%nat ->
  exists names,
    split_key loc = Some names /\
    In (msi_row e w (valid_neighbors e loc) loc t names) rs.
Proof.
  intros H Hloc Hv Ht. apply compute_msi_Some in H.
  destruct H as [xss [M ->]].
  assert (I : In (location_records e w loc) (map Some xss))
    by (rewrite <- M; apply in_map; exact Hloc).
  apply in_map_iff in I. destruct I as [xs [Hxs Hin]]. symmetry in Hxs.
  destruct (location_records_In e w loc xs t Hxs Hv Ht) as [r [Hr Hrin]].
  unfold msi_record in Hr.
  destruct (split_key loc) as [names|]; [|discriminate].
  simpl in Hr. injection Hr as <-.
  exists names. split; [reflexivity|].
  apply in_concat. exists xs. split; assumption.
Qed.

(** [compute_msi] raises exactly when the key of a location that gets
    to the inner loop does not split into two names. *)
Lemma compute_msi_raises e w :
  compute_msi e w = None <->
  exists loc,
    In loc (locations e) /\ (2 <= length (valid_neighbors e loc))%nat /\
    (w < length (time_periods e))%nat /\ split_key loc = None.
Proof.
  unfold compute_msi. split.
  - destruct (collect (map (location_records e w) (locations e))) eqn:E;
      simpl; [discriminate|]. intros _.
    apply collect_None in E. apply in_map_iff in E.
    destruct E as [loc [Hl Hloc]]. unfold location_records in Hl.
    destruct (length (valid_neighbors e loc) <? 2)%nat eqn:V; [discriminate|].
    apply Nat.ltb_ge in V. apply collect_None in Hl.
    apply in_map_iff in Hl. destruct Hl as [t [Ht Hs]].
    apply in_seq in Hs. unfold msi_record in Ht.
    destruct (split_key loc) eqn:S; [discriminate|].
    exists loc. repeat split; try assumption; lia.
  - intros [loc [Hloc [Hv [Hw S]]]].
    assert (N : collect (map (location_records e w) (locations e)) = None).
    { apply collect_None. apply in_map_iff. exists loc.
      split; [|exact Hloc]. unfold location_records.
      assert (E : (length (valid_neighbors e loc) <? 2)%nat = false)
        by (apply Nat.ltb_ge; exact Hv).
      rewrite E. apply collect_None. apply in_map_iff. exists w. split.
      - unfold msi_record. rewrite S. reflexivity.
      - apply in_seq. lia. }
    rewrite N. reflexivity.
Qed.


Lemma msi_record_fields e w valid loc t names :
  let r := msi_row e w valid loc t names in
  geo_key r = loc /\
  time_period r = nth t (time_periods e) EmptyString /\
  inverse_correlation r
  = inverse_corr_of (loc_changes e w t loc) (neighbor_changes e w t valid) /\
  spatial_spread r
  = match valid with
    | [] => 0
    | _ => INR (opposite_count_of e t valid (np_sign (last (loc_changes e w t loc) 0)))
           / INR (length valid)
    end /\
  z_magnitude r
  = (if existsb (String.eqb (nth t (time_periods e) EmptyString)) (time_periods e)
     then option_map Rabs (zscore_at (temporal_zscores e) t loc)
     else Some 0) /\
  msi_score r
  = option_map (fun z => inverse_correlation r * (1 + spatial_spread r) * Py.min z 3 / 3)
               (z_magnitude r).
Proof.
  unfold msi_row. destruct names as [st di]. simpl.
  repeat split; try reflexivity.
  destruct (if existsb _ _ then _ else _); reflexivity.
Qed.









Lemma seesaw_windows :
  trailing_window seesaw 3 3 "X|A" = [0; 0.5; -0.5; 0.25] /\
  neighbor_mean_window seesaw 3 3 "X|A" = [0; -0.375; 0.375; -0.25].
Proof.
  unfold trailing_window, neighbor_mean_window, Py.mean, change, value_at.
  simpl. unfold pct_change_at. simpl. unfold cell. simpl. Reval.
  split; Rfields.
Qed.

(** In the last week of [seesaw], district A rises while both its
    neighbours fall: the two windows are not constant, their correlation
    is negative, and every neighbour moves against A. *)
Example seesaw_record :
  0 < Py.np_std (trailing_window seesaw 3 3 "X|A") /\
  0 < Py.np_std (neighbor_mean_window seesaw 3 3 "X|A") /\
  pearson (trailing_window seesaw 3 3 "X|A")
          (neighbor_mean_window seesaw 3 3 "X|A") < 0 /\
  spec_spread seesaw 3 "X|A" = 1.
Proof.
  destruct seesaw_windows as [A B]. rewrite A, B.
  assert (S1 : 0 < Py.np_std [0; 0.5; -0.5; 0.25]).
  { unfold Py.np_std. apply sqrt_lt_R0.
    unfold Py.sq_dev, Py.mean. simpl. nra. }
  assert (S2 : 0 < Py.np_std [0; -0.375; 0.375; -0.25]).
  { unfold Py.np_std. apply sqrt_lt_R0.
    unfold Py.sq_dev, Py.mean. simpl. nra. }
  split; [exact S1|]. split; [exact S2|]. split.
  - unfold pearson.
    assert (D : dot (deviations [0; 0.5; -0.5; 0.25])
                    (deviations [0; -0.375; 0.375; -0.25]) < 0).
    { unfold dot, deviations, Py.mean. simpl. lra. }
    assert (P : 0 < sqrt (dot (deviations [0; 0.5; -0.5; 0.25])
                              (deviations [0; 0.5; -0.5; 0.25])
                          * dot (deviations [0; -0.375; 0.375; -0.25])
                                (deviations [0; -0.375; 0.375; -0.25]))).
    { apply sqrt_lt_R0.
      apply Rmult_lt_0_compat; apply np_std_pos_dot; assumption. }
    apply Rinv_0_lt_compat in P. unfold Rdiv. nra.
  - unfold spec_spread, change, value_at. simpl.
    unfold pct_change_at. simpl. unfold cell. simpl. Reval.
    destruct (Req_dec_T _ _) as [E | E]; [exfalso; lra|].
    unfold sign_of.
    repeat match goal with
    | |- context [total_order_T ?a ?b] =>
        destruct (total_order_T a b) as [[?|?]|?]; try (exfalso; lra)
    end.
    simpl. lra.
Qed.


End MSIClaims.


(** ** Wave detection *)

Section WaveClaims.
Import NeighborGraph MSI Waves WavesSpec WaveSamples.

Lemma late_spread_filtered : high_msi late_spread = late_spread_high.
Proof. unfold high_msi, late_spread. simpl. Reval. reflexivity. Qed.


Lemma late_spread_periods :
  state_periods (state_data late_spread_high "X") = four_weeks.
Proof. reflexivity. Qed.

Lemma tracked_periods_subsequent tps start_idx md :
  tracked_periods tps start_idx md = subsequent tps start_idx (md + 1).
Proof.
  unfold tracked_periods, subsequent, Py.slice. f_equal. lia.
Qed.

Lemma enumerate_In {A} (l : list A) i x :
  In (i, x) (enumerate l) <-> nth_error l i = Some x.
Proof.
  unfold enumerate.
  assert (G : forall s, In (i, x) (combine (seq s (length l)) l)
                        <-> (s <= i)%nat /\ nth_error l (i - s) = Some x).
  { induction l as [|a l IH]; intros s; simpl.
    - split; [tauto|]. intros [_ H]. destruct (i - s)%nat; discriminate.
    - rewrite IH. split.
      + intros [E | [L H]].
        * inversion E; subst. split; [lia|]. rewrite Nat.sub_diag. reflexivity.
        * split; [lia|]. replace (i - s)%nat with (S (i - S s)) by lia. exact H.
      + intros [L H]. destruct (Nat.eq_dec s i) as [-> | N].
        * rewrite Nat.sub_diag in H. simpl in H. inversion H. left. reflexivity.
        * right. split; [lia|].
          replace (i - s)%nat with (S (i - S s)) in H by lia. exact H. }
  rewrite G, Nat.sub_0_r. split; [tauto | intros; split; [lia | assumption]].
Qed.

Lemma candidate_start_bound {A} (l : list A) md i x :
  In (i, x) (enumerate (Py.drop_last md l)) ->
  (0 < md)%nat /\ (i + md < length l)%nat.
Proof.
  intros H. apply enumerate_In in H.
  assert (L : (i < length (Py.drop_last md l))%nat).
  { apply nth_error_Some. rewrite H. discriminate. }
  destruct md as [|md]; simpl in L; [lia|].
  rewrite length_firstn in L. lia.
Qed.

Lemma wave_of_qualifies st sd tps md ms start :
  wave_of st sd tps md ms start <> [] <->
  districts_at sd (snd start) <> [] /\
  qualifies ms (track sd tps md (fst start) (snd start)) = true.
Proof.
  unfold wave_of.
  destruct (districts_at sd (snd start)) as [|d ds] eqn:E.
  - split; [intros H; contradiction | intros [H _]; contradiction].
  - rewrite <- E.
    destruct (qualifies ms (track sd tps md (fst start) (snd start))).
    + split; [intros _; split; [rewrite E; discriminate | reflexivity]
             | intros _; discriminate].
    + split; [intros H; contradiction | intros [_ H]; discriminate].
Qed.

Lemma state_waves_detected rs md ms st w :
  In st (Py.unique String.eqb (map state (high_msi rs))) ->
  In w (state_waves (high_msi rs) md ms st) ->
  In w (detect_wave_patterns rs md ms).
Proof.
  intros Hst Hw. unfold detect_wave_patterns.
  eapply Permutation_in; [apply isort_perm|].
  apply in_flat_map. exists st. split; assumption.
Qed.

(** C6 (amended).  In detect_wave_patterns, for every state and every
    candidate start time, the high-MSI districts are accumulated over the
    periods that follow the start period at positions start_idx + 1 to
    start_idx + min_duration + 1 of the state's sorted periods: at most
    min_duration + 1 of them and at least min_duration; the wave test
    (total affected >= min_spread and peak per-period count strictly
    greater than the start-period count) is applied to that
    accumulation, and every wave that passes is reported. *)
Theorem wave_tracking_window rs md ms st start_idx start_time :
  let sd := state_data (high_msi rs) st in
  let tps := state_periods sd in
  In st (Py.unique String.eqb (map state (high_msi rs))) ->
  In (start_idx, start_time) (enumerate (Py.drop_last md tps)) ->
  tracked_periods tps start_idx md = subsequent tps start_idx (md + 1) /\
  (md <= length (tracked_periods tps start_idx md) <= md + 1)%nat /\
  track sd tps md start_idx start_time
  = fold_left (track_step sd) (subsequent tps start_idx (md + 1))
      ([(start_time, districts_at sd start_time)],
       districts_at sd start_time) /\
  (forall w, In w (wave_of st sd tps md ms (start_idx, start_time)) ->
             In w (detect_wave_patterns rs md ms)) /\
  (wave_of st sd tps md ms (start_idx, start_time) <> [] <->
   districts_at sd start_time <> [] /\
   (ms <= length (snd (track sd tps md start_idx start_time)))%nat /\
   (hd 0%nat (map (fun kv => length (snd kv))
                  (fst (track sd tps md start_idx start_time)))
    < list_max (map (fun kv => length (snd kv))
                    (fst (track sd tps md start_idx start_time))))%nat).
Proof.
  intros sd tps Hst Hin.
  pose proof (candidate_start_bound _ _ _ _ Hin) as [Hmd Hlen].
  split; [apply tracked_periods_subsequent|].
  split.
  { rewrite tracked_periods_subsequent. unfold subsequent.
    rewrite length_firstn, length_skipn. lia. }
  split.
  { unfold track. rewrite tracked_periods_subsequent. reflexivity. }
  split.
  { intros w Hw. apply (state_waves_detected rs md ms st); [exact Hst|].
    unfold state_waves. apply in_flat_map.
    exists (start_idx, start_time). split; [exact Hin | exact Hw]. }
  rewrite wave_of_qualifies. simpl fst. simpl snd.
  unfold qualifies. rewrite andb_true_iff, Nat.leb_le, Nat.ltb_lt.
  reflexivity.
Qed.

Lemma wave_tracking_window_witness :
  let sd := state_data (high_msi late_spread) "X" in
  let tps := state_periods sd in
  tracked_periods tps 1 1 = subsequent tps 1 (1 + 1) /\
  (1 <= length (tracked_periods tps 1 1) <= 1 + 1)%nat /\
  track sd tps 1 1 "2025-W02"
  = fold_left (track_step sd) (subsequent tps 1 (1 + 1))
      ([("2025-W02"%string, districts_at sd "2025-W02")],
       districts_at sd "2025-W02") /\
  (forall w, In w (wave_of "X" sd tps 1 3 (1%nat, "2025-W02"%string)) ->
             In w (detect_wave_patterns late_spread 1 3)) /\
  (wave_of "X" sd tps 1 3 (1%nat, "2025-W02"%string) <> [] <->
   districts_at sd "2025-W02" <> [] /\
   (3 <= length (snd (track sd tps 1 1 "2025-W02")))%nat /\
   (hd 0%nat (map (fun kv => length (snd kv))
                  (fst (track sd tps 1 1 "2025-W02")))
    < list_max (map (fun kv => length (snd kv))
                    (fst (track sd tps 1 1 "2025-W02"))))%nat).
Proof.
  apply (wave_tracking_window late_spread 1 3 "X" 1 "2025-W02").
  - rewrite late_spread_filtered. simpl. auto.
  - rewrite late_spread_filtered. simpl. auto.
Defined.

Lemma late_spread_waves :
  map start_time (detect_wave_patterns late_spread 1 3)
  = ["2025-W02"; "2025-W03"]%string.
Proof.
  unfold detect_wave_patterns. rewrite late_spread_filtered.
  unfold late_spread_high. simpl. Reval. reflexivity.
Qed.

(** C6, as stated, fails.  With min_duration = 1 and min_spread = 3,
    district A signals in weeks 1 to 3 and districts B and C appear in
    week 4.  From the start week 1 there are min_duration + 2 = 3
    subsequent weeks, and accumulating over them would pass the wave
    test; the code tracks weeks 2 and 3 only, the test fails and no wave
    starts in week 1. *)
Lemma two_more_periods_claim_fails :
  let sd := state_data (high_msi late_spread) "X" in
  let tps := state_periods sd in
  tps = four_weeks /\
  In (0%nat, "2025-W01"%string) (enumerate (Py.drop_last 1 tps)) /\
  subsequent tps 0 (1 + 2) = ["2025-W02"; "2025-W03"; "2025-W04"]%string /\
  tracked_periods tps 0 1 = ["2025-W02"; "2025-W03"]%string /\
  qualifies 3 (spec_track sd tps 1 0 "2025-W01") = true /\
  qualifies 3 (track sd tps 1 0 "2025-W01") = false /\
  wave_of "X" sd tps 1 3 (0%nat, "2025-W01"%string) = [] /\
  ~ In "2025-W01"%string (map start_time (detect_wave_patterns late_spread 1 3)).
Proof.
  cbv zeta. rewrite late_spread_filtered.
  repeat split; try reflexivity.
  - simpl. auto.
  - rewrite late_spread_waves.
    simpl. intros [H | [H | []]]; discriminate.
Qed.

End WaveClaims.


(* ================================================================== *)
(** * Part III.  Further properties of the code                        *)
(* ================================================================== *)

(** ** Sorting *)

Section SortedFacts.
Context {A : Type}.
Variable leb : A -> A -> bool.
Hypothesis leb_total : forall a b, leb a b = true \/ leb b a = true.

Lemma insert_locally_sorted x l :
  Sorted (fun a b => leb a b = true) l ->
  Sorted (fun a b => leb a b = true) (Py.insert leb x l).
Proof.
  induction 1 as [|y r Hs IH Hd]; simpl.
  - repeat constructor.
  - destruct (leb x y) eqn:E.
    + repeat constructor; auto.
    + constructor; [exact IH|].
      destruct r as [|z r']; simpl.
      * constructor. destruct (leb_total x y) as [C | C]; congruence.
      * destruct (leb x z); constructor.
        -- destruct (leb_total x y) as [C | C]; congruence.
        -- inversion Hd; assumption.
Qed.

Lemma isort_locally_sorted l :
  Sorted (fun a b => leb a b = true) (Py.isort leb l).
Proof.
  induction l; simpl; [constructor | apply insert_locally_sorted; assumption].
Qed.

End SortedFacts.

Lemma firstn_sorted {A} (R : A -> A -> Prop) n l :
  Sorted R l -> Sorted R (firstn n l).
Proof.
  revert l. induction n as [|n IH]; intros l H; simpl; [constructor|].
  destruct H as [|x l Hs Hd]; [constructor|].
  constructor; [apply IH; exact Hs|].
  destruct Hd as [|y l' Hxy]; [destruct n; constructor|].
  destruct n; simpl; constructor. exact Hxy.
Qed.

Lemma map_sorted {A B} (f : A -> B) (R : B -> B -> Prop) l :
  Sorted (fun a b => R (f a) (f b)) l -> Sorted R (map f l).
Proof.
  induction 1 as [|x l Hs IH Hd]; simpl; constructor; [exact IH|].
  destruct Hd; simpl; constructor; assumption.
Qed.

Lemma key_geb_total a b :
  Recommender.key_geb a b = true \/ Recommender.key_geb b a = true.
Proof.
  destruct a as [x|], b as [y|]; simpl; auto.
  destruct (Rle_dec y x) as [H | H].
  - left. apply Rleb_true. exact H.
  - right. apply Rleb_true. lra.
Qed.

(** ** Simulation of the redirection *)

Section SimulationFacts.
Import LoadScorer Recommender ScoreSamples.

Lemma simulate_invariant pct recs acc :
  let t := fold_left (simulate_step pct) recs acc in
  total_original_peak t - total_original_peak acc
  = Py.Rsum (map rec_forecast_load recs) /\
  (total_new_peak t - total_new_peak acc)
  + (total_redirected t - total_redirected acc)
  = Py.Rsum (map rec_forecast_load recs) /\
  total_redirected t - total_redirected acc
  = pct / 100
    * Py.Rsum (map rec_forecast_load
                   (filter (fun r => match alternatives r with
                                     | [] => false | _ => true end) recs)).
Proof.
  revert acc. induction recs as [|r rs IH]; intros acc; simpl.
  - repeat split; lra.
  - destruct (IH (simulate_step pct acc r)) as [A [B C]].
    unfold simulate_step in A, B, C |- *.
    destruct (alternatives r) as [|a l]; simpl in A, B, C |- *;
      repeat split; lra.
Qed.

Lemma Rsum_nonneg l : (forall x, In x l -> 0 <= x) -> 0 <= Py.Rsum l.
Proof.
  induction l as [|x l IH]; intros H; simpl; [lra|].
  assert (0 <= x) by (apply H; left; reflexivity).
  assert (0 <= Py.Rsum l) by (apply IH; intros; apply H; right; assumption).
  unfold Py.Rsum in *. lra.
Qed.

Lemma Rsum_filter_le (f : Recommendation -> R) p l :
  (forall r, In r l -> 0 <= f r) ->
  Py.Rsum (map f (filter p l)) <= Py.Rsum (map f l).
Proof.
  induction l as [|x l IH]; intros H; simpl; [lra|].
  assert (0 <= f x) by (apply H; left; reflexivity).
  assert (Py.Rsum (map f (filter p l)) <= Py.Rsum (map f l))
    by (apply IH; intros; apply H; right; assumption).
  destruct (p x); simpl; unfold Py.Rsum in *; lra.
Qed.

(** X2.  For non-negative forecast loads and a redirect percentage
    between 0 and 100, a scenario never raises the peak: the new
    aggregate peak lies between 0 and the original one, and
    peak_reduction_pct lies between 0 and 100, whether or not the
    recommendations have alternatives. *)
Theorem simulation_never_raises_peak recs pcts s :
  (forall r, In r recs -> 0 <= rec_forecast_load r) ->
  In s (simulate_load_balancing recs pcts) ->
  0 <= redirect_percentage s <= 100 ->
  0 <= new_peak_load s <= original_peak_load s /\
  0 <= peak_reduction_pct s <= 100.
Proof.
  intros Hpos Hin. unfold simulate_load_balancing in Hin.
  apply in_map_iff in Hin. destruct Hin as [pct [<- _]].
  unfold simulate_one.
  cbn [redirect_percentage peak_reduction_pct new_peak_load original_peak_load].
  intros Hp.
  destruct (simulate_invariant pct recs
              {| total_original_peak := 0; total_new_peak := 0;
                 total_redirected := 0 |}) as [A [B C]].
  cbv zeta in A, B, C. simpl in A, B, C.
  set (t := fold_left (simulate_step pct) recs _) in *.
  set (alts := filter _ recs) in *.
  assert (L : Py.Rsum (map rec_forecast_load alts)
              <= Py.Rsum (map rec_forecast_load recs))
    by (apply Rsum_filter_le; exact Hpos).
  assert (N : 0 <= Py.Rsum (map rec_forecast_load alts)).
  { apply Rsum_nonneg. intros x Hx. apply in_map_iff in Hx.
    destruct Hx as [r [<- Hr]]. apply Hpos.
    unfold alts in Hr. apply filter_In in Hr. tauto. }
  rewrite Rminus_0_r in A, B, C.
  set (S := Py.Rsum (map rec_forecast_load recs)) in *.
  set (T := Py.Rsum (map rec_forecast_load alts)) in *.
  assert (Rd : 0 <= total_redirected t <= S).
  { rewrite C. clearbody S T. split; nra. }
  split; [rewrite A; lra|].
  unfold Py.Rltb. destruct (Rlt_dec 0 (total_original_peak t)) as [P | P]; [|lra].
  replace (total_original_peak t - total_new_peak t)
    with (pct / 100 * T) by lra.
  rewrite A in *.
  assert (Q : 0 < / S) by (apply Rinv_0_lt_compat; exact P).
  replace (pct / 100 * T / S * 100) with (pct * (T * / S)) by (field; lra).
  assert (0 <= T * / S <= 1).
  { split; [apply Rmult_le_pos; lra|].
    apply (Rmult_le_reg_r S); [exact P|].
    rewrite Rmult_assoc, Rinv_l by lra. lra. }
  split; nra.
Qed.

Lemma simulation_never_raises_peak_witness :
  0 <= new_peak_load (simulate_one [recommend scored_units 5 third_unit] 10)
    <= original_peak_load
         (simulate_one [recommend scored_units 5 third_unit] 10) /\
  0 <= peak_reduction_pct
         (simulate_one [recommend scored_units 5 third_unit] 10)
    <= 100.
Proof.
  apply (simulation_never_raises_peak
           [recommend scored_units 5 third_unit] [10; 20]).
  - intros r [<- | []]. simpl. lra.
  - left. reflexivity.
  - simpl. lra.
Defined.

(** X3.  A scenario with redirect percentage 0, or one in which no
    recommendation has an alternative, redirects nothing: the new peak
    equals the original peak and the reduction is 0. *)
Theorem nothing_redirected recs pcts s :
  In s (simulate_load_balancing recs pcts) ->
  redirect_percentage s = 0 \/ (forall r, In r recs -> alternatives r = []) ->
  scenario_redirected s = 0 /\
  new_peak_load s = original_peak_load s /\
  peak_reduction_pct s = 0.
Proof.
  intros Hin. unfold simulate_load_balancing in Hin.
  apply in_map_iff in Hin. destruct Hin as [pct [<- _]].
  unfold simulate_one.
  cbn [redirect_percentage peak_reduction_pct scenario_redirected
       new_peak_load original_peak_load].
  intros Hc.
  destruct (simulate_invariant pct recs
              {| total_original_peak := 0; total_new_peak := 0;
                 total_redirected := 0 |}) as [A [B C]].
  cbv zeta in A, B, C. simpl in A, B, C.
  set (t := fold_left (simulate_step pct) recs _) in *.
  assert (Z : total_redirected t = 0).
  { destruct Hc as [-> | Hc].
    - lra.
    - assert (E : filter (fun r => match alternatives r with
                                   | [] => false | _ => true end) recs = []).
      { clear -Hc. induction recs as [|r rs IH]; simpl; [reflexivity|].
        rewrite (Hc r) by (left; reflexivity). apply IH.
        intros; apply Hc; right; assumption. }
      rewrite E in C. simpl in C. lra. }
  split; [exact Z|]. split; [lra|].
  destruct (Py.Rltb 0 (total_original_peak t)); [|reflexivity].
  replace (total_original_peak t - total_new_peak t) with 0 by lra.
  unfold Rdiv. rewrite !Rmult_0_l. reflexivity.
Qed.

Lemma nothing_redirected_witness :
  scenario_redirected
    (simulate_one [recommend scored_units 5 third_unit] 0) = 0 /\
  new_peak_load (simulate_one [recommend scored_units 5 third_unit] 0)
  = original_peak_load
      (simulate_one [recommend scored_units 5 third_unit] 0) /\
  peak_reduction_pct
    (simulate_one [recommend scored_units 5 third_unit] 0) = 0.
Proof.
  apply (nothing_redirected [recommend scored_units 5 third_unit] [0]).
  - left. reflexivity.
  - left. reflexivity.
Defined.

End SimulationFacts.

(** ** The search for alternatives *)

Section AlternativesFacts.
Import LoadScorer Recommender ScoreSamples.

Lemma overloaded_sources ls top row :
  In row (nlargest top load_score (filter is_overloaded ls)) ->
  In row ls /\ is_overloaded row = true.
Proof.
  intros H. apply nlargest_incl in H. apply filter_In in H. exact H.
Qed.

(** X4.  find_alternatives returns at most top_n_overloaded
    recommendations; each one reports the pincode, district, state,
    load_score and forecast_load of a row of the table that is flagged
    overloaded, and its num_alternatives is the length of its list of
    alternatives. *)
Theorem recommendations_come_from_overloaded ls top per rec :
  In rec (find_alternatives ls top per) ->
  (length (find_alternatives ls top per) <= top)%nat /\
  num_alternatives rec = length (alternatives rec) /\
  exists row,
    In row ls /\ is_overloaded row = true /\
    rec_pincode rec = pincode row /\ rec_district rec = district row /\
    rec_state rec = state row /\ rec_load_score rec = load_score row /\
    rec_forecast_load rec = forecast_load row.
Proof.
  unfold find_alternatives. intros H. split.
  - rewrite length_map. unfold nlargest. apply firstn_le_length.
  - apply in_map_iff in H. destruct H as [row [<- H]].
    split; [reflexivity|]. exists row.
    apply overloaded_sources in H. destruct H as [H1 H2].
    repeat split; assumption.
Qed.

Lemma recommendations_come_from_overloaded_witness :
  (length (find_alternatives scored_units 20 5) <= 20)%nat /\
  num_alternatives (recommend scored_units 5 third_unit)
  = length (alternatives (recommend scored_units 5 third_unit)) /\
  exists row,
    In row scored_units /\ is_overloaded row = true /\
    rec_pincode (recommend scored_units 5 third_unit) = pincode row /\
    rec_district (recommend scored_units 5 third_unit) = district row /\
    rec_state (recommend scored_units 5 third_unit) = state row /\
    rec_load_score (recommend scored_units 5 third_unit) = load_score row /\
    rec_forecast_load (recommend scored_units 5 third_unit)
    = forecast_load row.
Proof.
  apply (recommendations_come_from_overloaded scored_units 20 5
           (recommend scored_units 5 third_unit)).
  rewrite find_third. left. reflexivity.
Defined.

(** X5.  The recommendations of find_alternatives are listed by
    descending load_score: each one has a load_score at least that of the
    next. *)
Theorem recommendations_ranked ls top per :
  Sorted (fun a b => key_geb (rec_load_score a) (rec_load_score b) = true)
         (find_alternatives ls top per).
Proof.
  unfold find_alternatives, nlargest.
  apply map_sorted with (R := fun a b => key_geb (rec_load_score a) (rec_load_score b) = true).
  simpl. apply firstn_sorted.
  apply (isort_locally_sorted (fun a b => key_geb (load_score a) (load_score b))).
  intros a b. apply key_geb_total.
Qed.

Lemma same_district_pass_peer ls per row c :
  In c (same_district_pass ls per row) ->
  In c ls /\ district c = district row /\ state c = state row /\
  pincode c <> pincode row /\ 0.5 < spare_capacity c.
Proof.
  unfold same_district_pass. intros H. apply nlargest_incl in H.
  apply filter_In in H. destruct H as [Hin H]. split; [exact Hin|].
  rewrite !andb_true_iff in H. destruct H as [[[H1 H2] H3] H4].
  apply String.eqb_eq in H1, H2. apply negb_true_iff in H3.
  apply String.eqb_neq in H3. apply Rltb_iff in H4.
  repeat split; assumption.
Qed.

Lemma adjacent_pass_peer ls n row c :
  In c (adjacent_pass ls n row) ->
  In c ls /\ prefix4 (pincode c) = prefix4 (pincode row) /\
  pincode c <> pincode row /\ 0.3 < spare_capacity c.
Proof.
  unfold adjacent_pass. intros H. apply nlargest_incl in H.
  apply filter_In in H. destruct H as [Hin H]. split; [exact Hin|].
  rewrite !andb_true_iff in H. destruct H as [[H1 H2] H3].
  apply String.eqb_eq in H1. apply negb_true_iff in H2.
  apply String.eqb_neq in H2. apply Rltb_iff in H3.
  repeat split; assumption.
Qed.

(** X6.  Every alternative of a recommendation copies a row of the
    table with more than 30% spare capacity; that row is either in the
    source's district and state with more than 50% spare capacity, or
    shares the first four digits of the source's pincode. *)
Theorem alternatives_are_spare_peers ls top per rec alt :
  In rec (find_alternatives ls top per) ->
  In alt (alternatives rec) ->
  exists c,
    In c ls /\
    alt_pincode alt = pincode c /\ alt_district alt = district c /\
    alt_spare_capacity alt = spare_capacity c /\
    current_load alt = forecast_load c /\
    0.3 < alt_spare_capacity alt /\
    ((district c = rec_district rec /\ state c = rec_state rec /\
      0.5 < spare_capacity c)
     \/ prefix4 (pincode c) = prefix4 (rec_pincode rec)).
Proof.
  unfold find_alternatives. rewrite in_map_iff.
  intros [row [<- _]]. cbn [recommend alternatives rec_district rec_state
                            rec_pincode].
  intros H. apply in_map_iff in H. destruct H as [c [<- H]].
  unfold Py.head in H. apply firstn_incl in H.
  exists c. unfold candidates in H. simpl.
  assert (G : In c (same_district_pass ls per row)
              \/ exists n, In c (adjacent_pass ls n row)).
  { destruct (length (same_district_pass ls per row) <? per)%nat.
    - apply in_app_or in H. destruct H as [H | H]; [left | right; eexists];
        exact H.
    - left. exact H. }
  destruct G as [G | [n G]].
  - apply same_district_pass_peer in G.
    destruct G as [G1 [G2 [G3 [G4 G5]]]].
    repeat split; try reflexivity; try assumption; try lra.
    left. repeat split; assumption.
  - apply adjacent_pass_peer in G. destruct G as [G1 [G2 [G3 G4]]].
    repeat split; try reflexivity; try assumption.
    right. exact G2.
Qed.

Lemma alternatives_are_spare_peers_witness :
  exists c,
    In c scored_units /\
    alt_pincode (alternative_of first_unit) = pincode c /\
    alt_district (alternative_of first_unit) = district c /\
    alt_spare_capacity (alternative_of first_unit) = spare_capacity c /\
    current_load (alternative_of first_unit) = forecast_load c /\
    0.3 < alt_spare_capacity (alternative_of first_unit) /\
    ((district c = rec_district (recommend scored_units 5 third_unit) /\
      state c = rec_state (recommend scored_units 5 third_unit) /\
      0.5 < spare_capacity c)
     \/ prefix4 (pincode c)
        = prefix4 (rec_pincode (recommend scored_units 5 third_unit))).
Proof.
  apply (alternatives_are_spare_peers scored_units 20 5
           (recommend scored_units 5 third_unit)).
  - rewrite find_third. left. reflexivity.
  - cbn [recommend alternatives]. rewrite third_candidates.
    left. reflexivity.
Defined.

Lemma isort_length {A} (leb : A -> A -> bool) l :
  length (Py.isort leb l) = length l.
Proof. symmetry. apply Permutation_length. apply isort_perm. Qed.

(** X7.  When the table holds at least alternatives_per_pincode rows of
    the source's district and state, other than the source, with more
    than 50% spare capacity, the second pass is not run: the
    recommendation has exactly alternatives_per_pincode alternatives and
    all of them are such rows. *)
Theorem full_first_pass_skips_prefix_pass ls top per rec :
  In rec (find_alternatives ls top per) ->
  (per <= length (filter (fun r =>
               String.eqb (district r) (rec_district rec)
               && String.eqb (state r) (rec_state rec)
               && negb (String.eqb (pincode r) (rec_pincode rec))
               && Py.Rltb 0.5 (spare_capacity r)) ls))%nat ->
  length (alternatives rec) = per /\
  forall alt, In alt (alternatives rec) ->
    exists c, In c ls /\ alt = alternative_of c /\
              district c = rec_district rec /\ state c = rec_state rec /\
              pincode c <> rec_pincode rec /\ 0.5 < spare_capacity c.
Proof.
  unfold find_alternatives. rewrite in_map_iff.
  intros [row [<- _]]. cbn [recommend alternatives rec_district rec_state
                            rec_pincode].
  intros H.
  assert (L : length (same_district_pass ls per row) = per).
  { unfold same_district_pass, nlargest.
    rewrite length_firstn, isort_length. lia. }
  assert (E : candidates ls per row = same_district_pass ls per row).
  { unfold candidates. rewrite L, Nat.ltb_irrefl. reflexivity. }
  rewrite E. split.
  - rewrite length_map. unfold Py.head. rewrite length_firstn. lia.
  - intros alt Ha. apply in_map_iff in Ha. destruct Ha as [c [<- Hc]].
    unfold Py.head in Hc. apply firstn_incl in Hc.
    apply same_district_pass_peer in Hc. exists c. tauto.
Qed.

Lemma first_unit_is_peer :
  filter (fun r =>
            String.eqb (district r) (district third_unit)
            && String.eqb (state r) (state third_unit)
            && negb (String.eqb (pincode r) (pincode third_unit))
            && Py.Rltb 0.5 (spare_capacity r)) scored_units
  = [first_unit].
Proof. unfold scored_units. simpl. Reval. reflexivity. Qed.

Lemma find_third_single :
  find_alternatives scored_units 20 1 = [recommend scored_units 1 third_unit].
Proof. unfold find_alternatives, nlargest, scored_units. simpl. reflexivity. Qed.

Lemma full_first_pass_skips_prefix_pass_witness :
  length (alternatives (recommend scored_units 1 third_unit)) = 1%nat /\
  forall alt, In alt (alternatives (recommend scored_units 1 third_unit)) ->
    exists c, In c scored_units /\ alt = alternative_of c /\
              district c = rec_district (recommend scored_units 1 third_unit) /\
              state c = rec_state (recommend scored_units 1 third_unit) /\
              pincode c <> rec_pincode (recommend scored_units 1 third_unit) /\
              0.5 < spare_capacity c.
Proof.
  apply (full_first_pass_skips_prefix_pass scored_units 20 1
           (recommend scored_units 1 third_unit)).
  - rewrite find_third_single. left. reflexivity.
  - cbn [recommend rec_district rec_state rec_pincode].
    rewrite first_unit_is_peer. simpl. lia.
Defined.

End AlternativesFacts.

(** ** Percentile scores *)

Section ScorerFacts.
Import LoadScorer ScoreSamples ScorerAux.

Lemma count_split {A} (p q r : A -> bool) l :
  (forall x, p x = true -> r x = true) ->
  (forall x, q x = true -> r x = true) ->
  (forall x, p x = true -> q x = false) ->
  (length (filter p l) + length (filter q l) <= length (filter r l))%nat.
Proof.
  intros Hp Hq Hd. induction l as [|x l IH]; simpl; [lia|].
  destruct (p x) eqn:P, (q x) eqn:Q, (r x) eqn:R0; simpl; try lia.
  - rewrite (Hd x P) in Q. discriminate.
  - rewrite (Hd x P) in Q. discriminate.
  - rewrite (Hp x P) in R0. discriminate.
  - rewrite (Hq x Q) in R0. discriminate.
Qed.

Lemma filter_length_le {A} (p : A -> bool) l :
  (length (filter p l) <= length l)%nat.
Proof. induction l as [|x l IH]; simpl; [lia|]. destruct (p x); simpl; lia. Qed.

Lemma Reqb_iff x y : Py.Reqb x y = true <-> x = y.
Proof. unfold Py.Reqb. destruct (Req_dec_T x y); split; intros; easy. Qed.

Lemma count_same_pos v vals :
  In v vals -> (1 <= length (filter (fun u => Py.Reqb u v) vals))%nat.
Proof.
  induction vals as [|x l IH]; simpl; [tauto|].
  intros [-> | H].
  - rewrite Reqb_true by reflexivity. simpl. lia.
  - destruct (Py.Reqb x v); simpl; [lia | apply IH; exact H].
Qed.

Lemma present_In col v : In (Some v) col <-> In v (present col).
Proof.
  unfold present. rewrite in_flat_map. split.
  - intros H. exists (Some v). split; [exact H | left; reflexivity].
  - intros [[u|] [H1 H2]]; simpl in H2; [|tauto].
    destruct H2 as [-> | []]. exact H1.
Qed.

Lemma rank_pct_value col v : rank_pct col (Some v) = Some (rank_value (present col) v).
Proof. reflexivity. Qed.

Lemma rank_value_bounds vals v :
  In v vals -> 0 < rank_value vals v <= 1.
Proof.
  intros Hin. unfold rank_value.
  set (less := length (filter (fun u => Py.Rltb u v) vals)).
  set (same := length (filter (fun u => Py.Reqb u v) vals)).
  assert (S1 : (1 <= same)%nat) by (apply count_same_pos; exact Hin).
  assert (S2 : (less + same <= length vals)%nat).
  { unfold less, same.
    etransitivity; [| apply (filter_length_le (fun _ => true))].
    apply count_split; try reflexivity.
    intros x Hx. apply Rltb_iff in Hx. apply Reqb_false. lra. }
  apply le_INR in S1, S2. rewrite plus_INR in S2. simpl in S1.
  assert (N : 0 <= INR less) by apply pos_INR.
  assert (P : 0 < INR (length vals)) by lra.
  split.
  - apply Rdiv_lt_0_compat; lra.
  - apply (Rmult_le_reg_r (INR (length vals))); [exact P|].
    unfold Rdiv. rewrite Rmult_assoc, Rinv_l by lra. lra.
Qed.

Lemma rank_value_monotone vals a b :
  In a vals -> In b vals -> a <= b -> rank_value vals a <= rank_value vals b.
Proof.
  intros Ha Hb Hab. destruct (Req_dec_T a b) as [-> | Hne]; [lra|].
  assert (Hlt : a < b) by lra.
  unfold rank_value.
  set (la := length (filter (fun u => Py.Rltb u a) vals)).
  set (sa := length (filter (fun u => Py.Reqb u a) vals)).
  set (lb := length (filter (fun u => Py.Rltb u b) vals)).
  set (sb := length (filter (fun u => Py.Reqb u b) vals)).
  assert (S1 : (1 <= sa)%nat) by (apply count_same_pos; exact Ha).
  assert (S2 : (la + sa <= lb)%nat).
  { unfold la, sa, lb. apply count_split.
    - intros x Hx. apply Rltb_iff in Hx. apply Rltb_true. lra.
    - intros x Hx. apply Reqb_iff in Hx. apply Rltb_true. lra.
    - intros x Hx. apply Rltb_iff in Hx. apply Reqb_false. lra. }
  apply le_INR in S1, S2. rewrite plus_INR in S2. simpl in S1.
  assert (N : 0 <= INR sb) by apply pos_INR.
  assert (P : 0 < INR (length vals)).
  { destruct vals; [destruct Ha|]. apply lt_0_INR. simpl. lia. }
  apply (Rmult_le_reg_r (INR (length vals))); [exact P|].
  unfold Rdiv. rewrite !Rmult_assoc, !Rinv_l by lra. lra.
Qed.

Lemma scored_row_origin pf row :
  In row (calculate_load_scores pf) ->
  exists kr,
    In kr pf /\
    row = score_row (map (fun kr => Some (Forecaster.forecast_load (snd kr))) pf)
                    (map (fun kr => Forecaster.spike_risk (snd kr)) pf) kr.
Proof.
  unfold calculate_load_scores. rewrite in_map_iff.
  intros [kr [<- H]]. exists kr. split; [exact H | reflexivity].
Qed.

Lemma load_in_column
      (pf : list ((string * string * string) * Forecaster.ForecastRow)) kr :
  In kr pf ->
  In (Forecaster.forecast_load (snd kr))
     (present (map (fun kr => Some (Forecaster.forecast_load (snd kr))) pf)).
Proof.
  intros H. apply present_In. apply in_map_iff. exists kr. auto.
Qed.

Lemma score_row_columns loads risks kr :
  let row := score_row loads risks kr in
  forecast_load row = Forecaster.forecast_load (snd kr) /\
  spike_risk row = Forecaster.spike_risk (snd kr) /\
  load_percentile row
  = rank_value (present loads) (Forecaster.forecast_load (snd kr)) /\
  load_score row
  = option_map (fun rk => load_percentile row * 0.7 + rk * 0.3)
               (rank_pct risks (Forecaster.spike_risk (snd kr))) /\
  spare_capacity row = 1 - load_percentile row /\
  load_category row = category_of (load_score row) /\
  is_overloaded row = overloaded_of (load_score row) /\
  (state row, district row, pincode row) = fst kr.
Proof.
  destruct kr as [[[st di] pin] fr]. simpl. repeat split; reflexivity.
Qed.

(** X8.  For every row of calculate_load_scores, load_percentile lies
    in (0, 1] and spare_capacity in [0, 1); when load_score is defined it
    lies in (0, 1], so the bins of pd.cut cover it and load_category is
    never NaN for such a row. *)
Theorem scores_are_percentiles pf row :
  In row (calculate_load_scores pf) ->
  0 < load_percentile row <= 1 /\
  0 <= spare_capacity row < 1 /\
  forall s, load_score row = Some s ->
            0 < s <= 1 /\ load_category row <> None.
Proof.
  intros H. apply scored_row_origin in H. destruct H as [kr [Hin ->]].
  destruct (score_row_columns
              (map (fun kr => Some (Forecaster.forecast_load (snd kr))) pf)
              (map (fun kr => Forecaster.spike_risk (snd kr)) pf) kr)
    as [_ [C2 [C3 [C4 [C5 [C6 _]]]]]].
  cbv zeta in *.
  pose proof (rank_value_bounds _ _ (load_in_column pf kr Hin)) as B.
  rewrite <- C3 in B.
  split; [exact B|]. split; [rewrite C5; lra|].
  intros s Hs. rewrite C4 in Hs.
  destruct (Forecaster.spike_risk (snd kr)) as [v|] eqn:V; [|discriminate].
  rewrite rank_pct_value in Hs. simpl in Hs. injection Hs as Hs'.
  assert (R1 : 0 < rank_value
                     (present (map (fun kr => Forecaster.spike_risk (snd kr)) pf)) v <= 1).
  { apply rank_value_bounds. apply present_In. apply in_map_iff.
    exists kr. split; [exact V | exact Hin]. }
  assert (S : 0 < s <= 1) by (rewrite <- Hs'; lra).
  split; [exact S|].
  rewrite C6, C4, rank_pct_value. cbn [option_map]. rewrite Hs'.
  destruct (category_of_bins s) as [B1 [B2 [B3 B4]]].
  destruct (Rle_dec s 0.5); [rewrite (proj2 B1) by lra; discriminate|].
  destruct (Rle_dec s 0.75); [rewrite (proj2 B2) by lra; discriminate|].
  destruct (Rle_dec s 0.9); [rewrite (proj2 B3) by lra; discriminate|].
  rewrite (proj2 B4) by lra; discriminate.
Qed.

Lemma scores_are_percentiles_witness :
  0 < load_percentile third_unit <= 1 /\
  0 <= spare_capacity third_unit < 1 /\
  forall s, load_score third_unit = Some s ->
            0 < s <= 1 /\ load_category third_unit <> None.
Proof.
  apply (scores_are_percentiles three_units third_unit).
  apply (nth_error_In _ 2). apply third_unit_scored.
Defined.

(** X9.  The percentile is monotone in the forecast: of two rows of
    calculate_load_scores, the one with the larger forecast_load has the
    larger or equal load_percentile and the smaller or equal
    spare_capacity. *)
Theorem larger_forecast_larger_percentile pf a b :
  In a (calculate_load_scores pf) ->
  In b (calculate_load_scores pf) ->
  forecast_load a <= forecast_load b ->
  load_percentile a <= load_percentile b /\
  spare_capacity b <= spare_capacity a.
Proof.
  intros Ha Hb.
  apply scored_row_origin in Ha. destruct Ha as [ka [Hia ->]].
  apply scored_row_origin in Hb. destruct Hb as [kb [Hib ->]].
  destruct (score_row_columns
              (map (fun kr => Some (Forecaster.forecast_load (snd kr))) pf)
              (map (fun kr => Forecaster.spike_risk (snd kr)) pf) ka)
    as [A1 [_ [A3 [_ [A5 _]]]]].
  destruct (score_row_columns
              (map (fun kr => Some (Forecaster.forecast_load (snd kr))) pf)
              (map (fun kr => Forecaster.spike_risk (snd kr)) pf) kb)
    as [B1 [_ [B3 [_ [B5 _]]]]].
  cbv zeta in *. rewrite A1, B1, A3, B3, A5, B5, A3, B3. intros Hle.
  pose proof (rank_value_monotone _ _ _ (load_in_column pf ka Hia)
                (load_in_column pf kb Hib) Hle).
  split; lra.
Qed.

Lemma larger_forecast_larger_percentile_witness :
  load_percentile first_unit <= load_percentile third_unit /\
  spare_capacity third_unit <= spare_capacity first_unit.
Proof.
  apply (larger_forecast_larger_percentile three_units first_unit third_unit).
  - rewrite three_units_scored. left. reflexivity.
  - rewrite three_units_scored. right. right. left. reflexivity.
  - simpl. lra.
Defined.

Lemma nan_risk_never_overloaded pf row :
  In row (calculate_load_scores pf) ->
  spike_risk row = None ->
  load_score row = None /\ load_category row = None /\
  is_overloaded row = false.
Proof.
  intros H. apply scored_row_origin in H. destruct H as [kr [Hin ->]].
  destruct (score_row_columns
              (map (fun kr => Some (Forecaster.forecast_load (snd kr))) pf)
              (map (fun kr => Forecaster.spike_risk (snd kr)) pf) kr)
    as [_ [C2 [_ [C4 [_ [C6 [C7 _]]]]]]].
  cbv zeta in *. rewrite C2. intros V.
  assert (S : load_score (score_row
              (map (fun kr => Some (Forecaster.forecast_load (snd kr))) pf)
              (map (fun kr => Forecaster.spike_risk (snd kr)) pf) kr) = None).
  { rewrite C4, V. reflexivity. }
  rewrite C6, C7, S. auto.
Qed.

Lemma single_record_spike group :
  length group = 1%nat ->
  Forecaster.spike_risk (Forecaster.pincode_row group) = None.
Proof.
  destruct group as [|r [|r' l]]; simpl; intros H; try discriminate.
  reflexivity.
Qed.

(** X10.  A pincode with a single record in the data is never flagged
    overloaded and gets no load category, whatever its forecast load: its
    spike risk is NaN, so its load_score is NaN. *)
Theorem single_record_pincode_never_overloaded bio_df row :
  In row (calculate_load_scores (Forecaster.pincode_forecast bio_df)) ->
  length (filter (fun r => Forecaster.key3_eqb (Forecaster.pincode_key r)
                             (state row, district row, pincode row))
                 bio_df) = 1%nat ->
  spike_risk row = None /\ load_score row = None /\
  load_category row = None /\ is_overloaded row = false.
Proof.
  intros Hin Hone.
  assert (V : spike_risk row = None).
  { pose proof Hin as H0. apply scored_row_origin in H0.
    destruct H0 as [kr [Hkr E]].
    destruct (score_row_columns
                (map (fun kr => Some (Forecaster.forecast_load (snd kr)))
                     (Forecaster.pincode_forecast bio_df))
                (map (fun kr => Forecaster.spike_risk (snd kr))
                     (Forecaster.pincode_forecast bio_df)) kr)
      as [_ [C2 [_ [_ [_ [_ [_ C8]]]]]]].
    cbv zeta in C2, C8. rewrite <- E in C2, C8. rewrite C2.
    unfold Forecaster.pincode_forecast in Hkr. apply in_map_iff in Hkr.
    destruct Hkr as [[k g] [Ek Hg]]. simpl in Ek. subst kr. simpl in C8 |- *.
    apply (groupby_In _ _ key3_eqb_spec) in Hg. destruct Hg as [-> _].
    apply single_record_spike. rewrite <- C8. exact Hone. }
  split; [exact V|]. apply (nan_risk_never_overloaded _ _ Hin V).
Qed.

Lemma single_record_pincode_never_overloaded_witness :
  spike_risk lone_row = None /\ load_score lone_row = None /\
  load_category lone_row = None /\ is_overloaded lone_row = false.
Proof.
  apply (single_record_pincode_never_overloaded Samples.one_record lone_row).
  - left. reflexivity.
  - reflexivity.
Defined.

End ScorerFacts.

(** ** Grouped sums *)

Section GroupSums.
Context {K A : Type}.
Variable eqb : K -> K -> bool.
Hypothesis eqb_spec : forall x y, eqb x y = true <-> x = y.
Variable key : A -> K.
Variable f : A -> Z.

Lemma Zsum_perm l l' : Permutation l l' -> Py.Zsum l = Py.Zsum l'.
Proof.
  induction 1; simpl; try lia.
Qed.

Lemma indicator_sum (P : K -> bool) k0 v ks :
  NoDup ks -> In k0 ks ->
  Py.Zsum (map (fun k => if eqb k0 k then v else 0%Z) (filter P ks))
  = if P k0 then v else 0%Z.
Proof.
  induction ks as [|k ks IH]; intros Hnd Hin; [destruct Hin|].
  inversion Hnd as [|? ? Hnot Hnd']; subst.
  assert (Z0 : forall l, ~ In k0 l ->
               Py.Zsum (map (fun k => if eqb k0 k then v else 0%Z) (filter P l)) = 0%Z).
  { induction l as [|x l IHl]; intros Hx; simpl; [reflexivity|].
    assert (E : eqb k0 x = false).
    { destruct (eqb k0 x) eqn:E; [|reflexivity].
      apply eqb_spec in E. subst x. exfalso. apply Hx. left. reflexivity. }
    destruct (P x); simpl; rewrite ?E, IHl; auto; intros C; apply Hx; right; exact C. }
  simpl. destruct Hin as [-> | Hin].
  - assert (E : eqb k0 k0 = true) by (apply eqb_spec; reflexivity).
    destruct (P k0); simpl; rewrite ?E, Z0 by exact Hnot; lia.
  - assert (E : eqb k0 k = false).
    { destruct (eqb k0 k) eqn:E; [|reflexivity].
      apply eqb_spec in E. subst k. contradiction. }
    destruct (P k); simpl; rewrite ?E, IH by assumption; reflexivity.
Qed.

Lemma Zsum_map_add {B} (g h : B -> Z) l :
  Py.Zsum (map (fun x => (g x + h x)%Z) l)
  = (Py.Zsum (map g l) + Py.Zsum (map h l))%Z.
Proof. induction l; simpl; lia. Qed.

Lemma grouped_sums (P : K -> bool) ks df :
  NoDup ks -> (forall r, In r df -> In (key r) ks) ->
  Py.Zsum (map (fun k => Py.Zsum (map f (filter (fun r => eqb (key r) k) df)))
               (filter P ks))
  = Py.Zsum (map f (filter (fun r => P (key r)) df)).
Proof.
  intros Hnd. induction df as [|r df IH]; intros Hin.
  - simpl. induction (filter P ks); simpl; [reflexivity | assumption].
  - assert (E : map (fun k => Py.Zsum (map f (filter (fun r0 => eqb (key r0) k) (r :: df))))
                    (filter P ks)
                = map (fun k => ((if eqb (key r) k then f r else 0)
                                  + Py.Zsum (map f (filter (fun r0 => eqb (key r0) k) df)))%Z)
                      (filter P ks)).
    { apply map_ext. intros k. simpl. destruct (eqb (key r) k); simpl; lia. }
    rewrite E, Zsum_map_add, IH by (intros; apply Hin; right; assumption).
    rewrite indicator_sum by (auto; apply Hin; left; reflexivity).
    simpl. destruct (P (key r)); simpl; lia.
Qed.

Lemma groupby_conserves (leb : K -> K -> bool) df :
  Py.Zsum (map (fun kg => Py.Zsum (map f (snd kg))) (Py.groupby eqb leb key df))
  = Py.Zsum (map f df).
Proof.
  unfold Py.groupby. rewrite map_map. simpl.
  rewrite <- (Zsum_perm _ _ (Permutation_map _ (isort_perm leb (Py.unique eqb (map key df))))).
  pose proof (grouped_sums (fun _ => true) (Py.unique eqb (map key df)) df
                (unique_NoDup eqb eqb_spec _)) as G.
  assert (F1 : forall l : list K, filter (fun _ => true) l = l)
    by (induction l; simpl; congruence).
  assert (F2 : forall l : list A, filter (fun _ => true) l = l)
    by (induction l; simpl; congruence).
  rewrite F1, F2 in G. apply G.
  intros r Hr. apply (unique_In eqb eqb_spec). apply in_map. exact Hr.
Qed.

End GroupSums.

Lemma filter_map_pair {K V} (P : K -> bool) (g : K -> V) ks :
  filter (fun e => P (fst e)) (map (fun k => (k, g k)) ks)
  = map (fun k => (k, g k)) (filter P ks).
Proof.
  induction ks as [|k ks IH]; simpl; [reflexivity|].
  destruct (P k); simpl; rewrite IH; reflexivity.
Qed.

Lemma filter_perm {A} (P : A -> bool) l l' :
  Permutation l l' -> Permutation (filter P l) (filter P l').
Proof.
  induction 1; simpl.
  - constructor.
  - destruct (P x); [constructor|]; assumption.
  - destruct (P x), (P y); try constructor; reflexivity.
  - etransitivity; eassumption.
Qed.

(** ** The forecaster and the monthly tables *)

Section ForecasterMoreFacts.
Import Forecaster ForecasterSpec Samples HistoricalStats MoreSamples.

(** X11.  When no monthly sum of a unit leaves the int64 range, its
    monthly sums add up to the sum of total_bio over all its records:
    grouping by month loses and duplicates nothing. *)
Theorem monthly_sums_conserve_total group :
  (forall m, Py.is_int64 (month_sum group m)) ->
  Py.Zsum (monthly group) = Py.Zsum (map total_bio group).
Proof.
  intros NoOverflow. rewrite monthly_exact by exact NoOverflow.
  pose proof (groupby_conserves Z.eqb Z.eqb_eq year_month total_bio Z.leb group) as G.
  unfold Py.groupby in G. rewrite map_map in G. exact G.
Qed.

Lemma four_months_counts :
  (forall r, In r four_months -> (0 <= total_bio r)%Z) /\
  (Py.Zsum (map total_bio four_months) < 2 ^ 63)%Z.
Proof.
  split.
  - intros r H. simpl in H.
    repeat (destruct H as [<- | H]; [simpl; lia|]). destruct H.
  - vm_compute. reflexivity.
Qed.

Lemma monthly_sums_conserve_total_witness :
  Py.Zsum (monthly four_months) = Py.Zsum (map total_bio four_months).
Proof.
  apply (monthly_sums_conserve_total four_months).
  apply month_sums_in_range; apply four_months_counts.
Defined.

Lemma md_eqb_spec x y : md_eqb x y = true <-> x = y.
Proof.
  destruct x as [[a b] c], y as [[a' b'] c'].
  unfold md_eqb, Py.pair_eqb. simpl.
  rewrite !andb_true_iff, Z.eqb_eq, !String.eqb_eq. split.
  - intros [[-> ->] ->]. reflexivity.
  - intros E. inversion E. auto.
Qed.

Lemma mp_eqb_spec x y : mp_eqb x y = true <-> x = y.
Proof.
  destruct x as [a b], y as [a' b'].
  unfold mp_eqb, Py.pair_eqb. simpl.
  rewrite andb_true_iff, String.eqb_eq.
  change (Py.pair_eqb (Py.pair_eqb Z.eqb String.eqb) String.eqb a a')
    with (md_eqb a a').
  rewrite md_eqb_spec. split.
  - intros [-> ->]. reflexivity.
  - intros E. inversion E. auto.
Qed.

Lemma district_monthly_exact bio_df :
  (forall r, In r bio_df -> (0 <= total_bio r)%Z) ->
  (Py.Zsum (map total_bio bio_df) < 2 ^ 63)%Z ->
  district_monthly bio_df
  = map (fun kg => (fst kg, Py.Zsum (map total_bio (snd kg))))
        (Py.groupby md_eqb md_leb month_district_key bio_df).
Proof.
  intros H T. unfold district_monthly, Py.groupby. rewrite !map_map.
  apply map_ext. intros k. simpl. f_equal.
  apply int64_sum_exact. apply part_sum_in_range; assumption.
Qed.

Lemma pincode_monthly_exact bio_df :
  (forall r, In r bio_df -> (0 <= total_bio r)%Z) ->
  (Py.Zsum (map total_bio bio_df) < 2 ^ 63)%Z ->
  pincode_monthly bio_df
  = map (fun kg => (fst kg, Py.Zsum (map total_bio (snd kg))))
        (Py.groupby mp_eqb mp_leb month_pincode_key bio_df).
Proof.
  intros H T. unfold pincode_monthly, Py.groupby. rewrite !map_map.
  apply map_ext. intros k. simpl. f_equal.
  apply int64_sum_exact. apply part_sum_in_range; assumption.
Qed.

(** X12.  In compute_historical_stats, for non-negative counts whose
    total fits in int64, the total of a district in a month (a row of
    district_monthly) is the sum of the totals of that district's
    pincodes in that month (the rows of pincode_monthly with the same
    month, state and district). *)
Theorem district_month_rolls_up bio_df k total :
  (forall r, In r bio_df -> (0 <= total_bio r)%Z) ->
  (Py.Zsum (map total_bio bio_df) < 2 ^ 63)%Z ->
  In (k, total) (district_monthly bio_df) ->
  total
  = Py.Zsum (map snd (filter (fun e => md_eqb (fst (fst e)) k)
                             (pincode_monthly bio_df))).
Proof.
  intros Hpos Hfit H.
  rewrite district_monthly_exact in H by assumption.
  rewrite pincode_monthly_exact by assumption.
  apply in_map_iff in H.
  destruct H as [[k' g] [E Hg]]. simpl in E. inversion E; subst k' total.
  apply (groupby_In _ _ md_eqb_spec) in Hg. destruct Hg as [-> _].
  unfold Py.groupby. rewrite map_map. simpl.
  rewrite (filter_map_pair (fun k4 => md_eqb (fst k4) k)
             (fun k4 => Py.Zsum (map total_bio
                (filter (fun r => mp_eqb (month_pincode_key r) k4) bio_df)))).
  rewrite map_map. simpl.
  rewrite (Zsum_perm _ _
             (Permutation_map _
                (filter_perm (fun k4 => md_eqb (fst k4) k) _ _
                   (Permutation_sym (isort_perm mp_leb _))))).
  rewrite (grouped_sums mp_eqb mp_eqb_spec month_pincode_key total_bio
             (fun k4 => md_eqb (fst k4) k)).
  - reflexivity.
  - apply unique_NoDup. apply mp_eqb_spec.
  - intros r Hr. apply (unique_In mp_eqb mp_eqb_spec). apply in_map. exact Hr.
Qed.

Lemma district_month_rolls_up_witness :
  155%Z
  = Py.Zsum (map snd (filter (fun e => md_eqb (fst (fst e))
                                         (660%Z, "Kerala"%string,
                                          "Idukki"%string))
                             (pincode_monthly two_pincodes))).
Proof.
  apply (district_month_rolls_up two_pincodes
           (660%Z, "Kerala"%string, "Idukki"%string) 155%Z).
  - intros r H. simpl in H.
    repeat (destruct H as [<- | H]; [simpl; lia|]). destruct H.
  - vm_compute. reflexivity.
  - left. reflexivity.
Defined.

(** X13.  For non-negative counts whose total fits in int64, both
    monthly tables of compute_historical_stats carry the whole volume:
    the totals of district_monthly, and those of pincode_monthly, add up
    to the sum of total_bio over all records. *)
Theorem monthly_tables_conserve_total bio_df :
  (forall r, In r bio_df -> (0 <= total_bio r)%Z) ->
  (Py.Zsum (map total_bio bio_df) < 2 ^ 63)%Z ->
  Py.Zsum (map snd (district_monthly bio_df)) = Py.Zsum (map total_bio bio_df) /\
  Py.Zsum (map snd (pincode_monthly bio_df)) = Py.Zsum (map total_bio bio_df).
Proof.
  intros Hpos Hfit.
  rewrite district_monthly_exact, pincode_monthly_exact by assumption.
  rewrite !map_map. simpl. split.
  - apply (groupby_conserves md_eqb md_eqb_spec).
  - apply (groupby_conserves mp_eqb mp_eqb_spec).
Qed.

Lemma monthly_tables_conserve_total_witness :
  Py.Zsum (map snd (district_monthly two_pincodes))
  = Py.Zsum (map total_bio two_pincodes) /\
  Py.Zsum (map snd (pincode_monthly two_pincodes))
  = Py.Zsum (map total_bio two_pincodes).
Proof.
  apply (monthly_tables_conserve_total two_pincodes).
  - intros r H. simpl in H.
    repeat (destruct H as [<- | H]; [simpl; lia|]). destruct H.
  - vm_compute. reflexivity.
Defined.

(** X14.  forecast_next_month yields exactly one row per geographic
    unit: the keys of the district forecast are the distinct
    (state, district) pairs of the data, without repetition, and the keys
    of the pincode forecast are the distinct (state, district, pincode)
    triples. *)
Theorem one_forecast_row_per_unit bio_df :
  (NoDup (map fst (district_forecast bio_df)) /\
   forall k, In k (map fst (district_forecast bio_df))
             <-> exists r, In r bio_df /\ district_key r = k) /\
  (NoDup (map fst (pincode_forecast bio_df)) /\
   forall k, In k (map fst (pincode_forecast bio_df))
             <-> exists r, In r bio_df /\ pincode_key r = k).
Proof.
  unfold district_forecast, pincode_forecast. rewrite !map_map. simpl.
  change (map (fun x : string * string * list BioRow => fst x))
    with (map (@fst (string * string) (list BioRow))).
  change (map (fun x : string * string * string * list BioRow => fst x))
    with (map (@fst (string * string * string) (list BioRow))).
  rewrite !groupby_keys. split; split.
  - eapply Permutation_NoDup; [apply isort_perm|].
    apply unique_NoDup, key2_eqb_spec.
  - intros k. split.
    + intros H. apply (Permutation_in _ (Permutation_sym (isort_perm _ _))) in H.
      apply (proj1 (unique_In key2_eqb key2_eqb_spec _ _)) in H.
      apply in_map_iff in H. destruct H as [r [E Hr]]. exists r. auto.
    + intros [r [Hr E]]. apply (Permutation_in _ (isort_perm _ _)).
      apply (proj2 (unique_In key2_eqb key2_eqb_spec _ _)).
      apply in_map_iff. exists r. auto.
  - eapply Permutation_NoDup; [apply isort_perm|].
    apply unique_NoDup, key3_eqb_spec.
  - intros k. split.
    + intros H. apply (Permutation_in _ (Permutation_sym (isort_perm _ _))) in H.
      apply (proj1 (unique_In key3_eqb key3_eqb_spec _ _)) in H.
      apply in_map_iff in H. destruct H as [r [E Hr]]. exists r. auto.
    + intros [r [Hr E]]. apply (Permutation_in _ (isort_perm _ _)).
      apply (proj2 (unique_In key3_eqb key3_eqb_spec _ _)).
      apply in_map_iff. exists r. auto.
Qed.

Lemma tail_all {A} (l : list A) : Py.tail (length l) l = l.
Proof. unfold Py.tail. rewrite Nat.sub_diag. reflexivity. Qed.

Lemma trend_of_exact w m : length m = w -> trend_of w m = 0.
Proof.
  intros <-. unfold trend_of. rewrite Nat.leb_refl. cbv zeta.
  rewrite tail_all. unfold Py.head. rewrite firstn_all.
  unfold Rdiv at 1. rewrite Rminus_diag. apply Rmult_0_l.
Qed.

(** X15.  A unit with exactly as many distinct months as the comparison
    window (3 for a district, 2 for a pincode) has trend 0, its first and
    last windows being the same months, and its forecast is its last
    month's load unchanged. *)
Theorem exact_window_has_no_trend bio_df w group row :
  is_unit_row bio_df w group row ->
  length (distinct_months group) = w ->
  trend row = 0 /\ forecast_load row = IZR (last_month_load row).
Proof.
  intros H. apply unit_row_cases in H. destruct H as [_ H].
  rewrite <- monthly_length. intros L.
  destruct H as [[-> ->] | [-> ->]]; simpl; rewrite trend_of_exact by exact L;
    split; try reflexivity; lra.
Qed.

Lemma exact_window_has_no_trend_witness :
  trend (pincode_row two_months) = 0 /\
  forecast_load (pincode_row two_months)
  = IZR (last_month_load (pincode_row two_months)).
Proof.
  apply (exact_window_has_no_trend two_months 2 two_months
           (pincode_row two_months)).
  - right. split; [reflexivity|].
    exists ("Kerala", "Idukki", "685501")%string.
    split; [left|]; reflexivity.
  - reflexivity.
Defined.

Example two_months_last_load :
  last_month_load (pincode_row two_months) = 300%Z.
Proof. reflexivity. Qed.

Lemma Zsum_nonneg l : (forall x, In x l -> (0 <= x)%Z) -> (0 <= Py.Zsum l)%Z.
Proof.
  induction l as [|x l IH]; intros H; simpl; [lia|].
  assert (0 <= x)%Z by (apply H; left; reflexivity).
  assert (0 <= Py.Zsum l)%Z by (apply IH; intros; apply H; right; assumption).
  lia.
Qed.

Lemma monthly_nonneg group :
  (forall r, In r group -> (0 <= total_bio r)%Z) ->
  (Py.Zsum (map total_bio group) < 2 ^ 63)%Z ->
  forall x, In x (monthly group) -> (0 <= x)%Z.
Proof.
  intros H T x Hx.
  rewrite monthly_exact in Hx by (apply month_sums_in_range; assumption).
  apply in_map_iff in Hx. destruct Hx as [m [<- _]].
  unfold month_sum. apply Zsum_filter_bounds. exact H.
Qed.

Lemma Zmean_nonneg l : (forall x, In x l -> (0 <= x)%Z) -> 0 <= Py.Zmean l.
Proof.
  intros H. unfold Py.Zmean.
  assert (0 <= IZR (Py.Zsum l)) by (apply IZR_le, Zsum_nonneg; exact H).
  destruct l as [|x l].
  - simpl. unfold Rdiv. rewrite Rinv_0. lra.
  - apply Rmult_le_pos; [assumption|]. left. apply Rinv_0_lt_compat.
    apply lt_0_INR. simpl. lia.
Qed.

Lemma skipn_incl {A} n (l : list A) x : In x (skipn n l) -> In x l.
Proof.
  intros H. rewrite <- (firstn_skipn n l). apply in_or_app. right. exact H.
Qed.

Lemma trend_of_lower_bound w m :
  (forall x, In x m -> (0 <= x)%Z) -> -1 <= trend_of w m.
Proof.
  intros H. unfold trend_of. destruct (w <=? length m)%nat; [|lra].
  cbv zeta.
  assert (R1 : 0 <= Py.Zmean (Py.tail w m)).
  { apply Zmean_nonneg. intros x Hx. apply H. unfold Py.tail in Hx.
    eapply skipn_incl. exact Hx. }
  assert (E1 : 0 <= Py.Zmean (Py.head w m)).
  { apply Zmean_nonneg. intros x Hx. apply H. unfold Py.head in Hx.
    eapply firstn_incl. exact Hx. }
  rewrite py_max_Rmax.
  set (e := Py.Zmean (Py.head w m)) in *.
  set (r := Py.Zmean (Py.tail w m)) in *.
  assert (M1 : 1 <= Rmax e 1) by apply Rmax_r.
  assert (M2 : e <= Rmax e 1) by apply Rmax_l.
  assert (P : 0 < Rmax e 1) by lra.
  apply (Rmult_le_reg_r (Rmax e 1)); [exact P|].
  unfold Rdiv. rewrite Rmult_assoc, Rinv_l by lra. lra.
Qed.

Lemma last_In {A} (l : list A) d : l <> [] -> In (last l d) l.
Proof.
  induction l as [|x l IH]; intros H; [contradiction|].
  destruct l as [|y l]; [left; reflexivity|].
  right. apply IH. discriminate.
Qed.

Lemma last_nonneg m : (forall x, In x m -> (0 <= x)%Z) -> (0 <= last m 0)%Z.
Proof.
  intros H. destruct m as [|x m]; [simpl; lia|].
  apply H. apply last_In. discriminate.
Qed.

(** X16.  For a unit whose records all have a non-negative total_bio,
    with a total that fits in int64, the trend is at least -1 and the
    forecast is at least 0.7 times the last month's load, hence never
    negative. *)
Theorem forecast_stays_non_negative bio_df w group row :
  is_unit_row bio_df w group row ->
  (forall r, In r group -> (0 <= total_bio r)%Z) ->
  (Py.Zsum (map total_bio group) < 2 ^ 63)%Z ->
  -1 <= trend row /\
  0 <= 0.7 * IZR (last_month_load row) <= forecast_load row.
Proof.
  intros H Hpos Hfit. apply unit_row_cases in H. destruct H as [_ H].
  pose proof (monthly_nonneg group Hpos Hfit) as M.
  pose proof (last_nonneg _ M) as L. apply IZR_le in L.
  destruct H as [[-> ->] | [-> ->]]; simpl.
  - pose proof (trend_of_lower_bound 3 _ M) as T.
    unfold last_load. split; [exact T|]. split; nra.
  - pose proof (trend_of_lower_bound 2 _ M) as T.
    unfold last_load. split; [exact T|]. split; nra.
Qed.

Lemma forecast_stays_non_negative_witness :
  -1 <= trend (district_row four_months) /\
  0 <= 0.7 * IZR (last_month_load (district_row four_months))
    <= forecast_load (district_row four_months).
Proof.
  apply (forecast_stays_non_negative four_months 3 four_months
           (district_row four_months)).
  - left. split; [reflexivity|].
    exists ("Kerala", "Idukki")%string. split; [left|]; reflexivity.
  - apply four_months_counts.
  - apply four_months_counts.
Defined.

End ForecasterMoreFacts.

(** ** The neighbour graphs *)

Section GraphMoreFacts.
Import MSI NeighborGraph NeighborGraphSpec GraphSamples GraphAux.

Lemma adjacent_region_spec pincodes pin adj :
  adjacent_region pincodes pin = Some adj ->
  (forall q, In q pincodes -> prefix3 q = prefix3 pin) ->
  forall q, In q adj <-> In q pincodes /\ q <> pin.
Proof.
  revert adj. induction pincodes as [|p rest IH]; simpl; intros adj H Hreg q.
  - inversion H; subst. simpl. tauto.
  - assert (Hreg' : forall q, In q rest -> prefix3 q = prefix3 pin)
      by (intros; apply Hreg; right; assumption).
    destruct (String.eqb_spec p pin) as [-> | Hne].
    + rewrite (IH adj H Hreg' q). split.
      * intros [H1 H2]. split; [right|]; assumption.
      * intros [[H1 | H1] H2]; [congruence | split; assumption].
    + rewrite (Hreg p) in H by (left; reflexivity).
      destruct (py_int (prefix3 pin)) as [a|]; [|discriminate].
      destruct (adjacent_region rest pin) as [r|]; [|discriminate].
      rewrite Z.sub_diag in H. simpl in H. inversion H; subst adj.
      simpl. rewrite (IH r eq_refl Hreg' q). split.
      * intros [<- | [H1 H2]]; [split; [left; reflexivity | exact Hne]
                               | split; [right|]; assumption].
      * intros [[H1 | H1] H2]; [left; exact H1 | right; split; assumption].
Qed.

Lemma adjacent_region_none pincodes pin :
  (forall q, In q pincodes -> prefix3 q = prefix3 pin) ->
  (adjacent_region pincodes pin = None
   <-> py_int (prefix3 pin) = None /\ exists q, In q pincodes /\ q <> pin).
Proof.
  induction pincodes as [|p rest IH]; simpl; intros Hreg.
  - split; [discriminate | intros [_ [q [[] _]]]].
  - assert (Hreg' : forall q, In q rest -> prefix3 q = prefix3 pin)
      by (intros; apply Hreg; right; assumption).
    specialize (IH Hreg').
    destruct (String.eqb_spec p pin) as [-> | Hne].
    + rewrite IH. split.
      * intros [H [q [H1 H2]]]. split; [exact H|]. exists q. auto.
      * intros [H [q [[H1 | H1] H2]]]; [congruence|].
        split; [exact H|]. exists q. auto.
    + rewrite (Hreg p) by (left; reflexivity).
      destruct (py_int (prefix3 pin)) as [a|] eqn:E.
      * destruct (adjacent_region rest pin) as [r|].
        -- split; [discriminate | intros [C _]; discriminate].
        -- split; [intros _ | reflexivity].
           destruct (proj1 IH eq_refl) as [C _]. discriminate.
      * split; [intros _ | reflexivity].
        split; [reflexivity|]. exists p. split; [left; reflexivity | exact Hne].
Qed.

Lemma region_loop_get pincodes todo g g' :
  region_loop pincodes todo g = Some g' ->
  forall p,
    (In p todo ->
     exists adj, adjacent_region pincodes p = Some adj /\
                 dict_get p g'
                 = Some (Py.unique String.eqb (same_region pincodes p ++ adj)))
    /\ (~ In p todo -> dict_get p g' = dict_get p g).
Proof.
  revert g. induction todo as [|pin rest IH]; simpl; intros g H p.
  - inversion H; subst. split; [tauto | reflexivity].
  - destruct (adjacent_region pincodes pin) as [adj|] eqn:Ea; [|discriminate].
    destruct (IH _ H p) as [I1 I2]. split.
    + intros Hin. destruct (in_dec string_dec p rest) as [Hr | Hr].
      * apply I1. exact Hr.
      * destruct Hin as [-> | Hin]; [|contradiction].
        exists adj. split; [exact Ea|].
        rewrite (I2 Hr), dict_get_set, String.eqb_refl. reflexivity.
    + intros Hn. rewrite I2 by tauto. rewrite dict_get_set.
      destruct (String.eqb_spec pin p) as [-> | _]; [|reflexivity].
      exfalso. apply Hn. left. reflexivity.
Qed.

Lemma region_loop_none pincodes todo g :
  region_loop pincodes todo g = None
  <-> exists pin, In pin todo /\ adjacent_region pincodes pin = None.
Proof.
  revert g. induction todo as [|pin rest IH]; simpl; intros g.
  - split; [discriminate | intros [pin [[] _]]].
  - destruct (adjacent_region pincodes pin) as [adj|] eqn:Ea.
    + rewrite IH. split.
      * intros [q [H1 H2]]. exists q. auto.
      * intros [q [[<- | H1] H2]]; [congruence | exists q; auto].
    + split; [intros _; exists pin; auto | reflexivity].
Qed.

Lemma well_grouped_tail r regions :
  well_grouped (r :: regions) -> well_grouped regions.
Proof.
  intros [H1 H2]. split.
  - inversion H1; assumption.
  - intros k pins p H. apply (H2 k pins p). right. exact H.
Qed.

Lemma regions_loop_get regions g g' :
  well_grouped regions ->
  regions_loop regions g = Some g' ->
  forall p,
    (forall k pins, In (k, pins) regions -> In p pins ->
       exists adj,
         adjacent_region (Py.unique String.eqb pins) p = Some adj /\
         dict_get p g'
         = Some (Py.unique String.eqb
                   (same_region (Py.unique String.eqb pins) p ++ adj)))
    /\ ((forall k pins, In (k, pins) regions -> ~ In p pins) ->
        dict_get p g' = dict_get p g).
Proof.
  revert g. induction regions as [|[k0 pins0] rest IH]; simpl; intros g Hwg H p.
  - inversion H; subst. split; [tauto | reflexivity].
  - destruct (region_loop _ _ g) as [g1|] eqn:E; [|discriminate].
    pose proof (well_grouped_tail _ _ Hwg) as Hwg'.
    destruct (IH g1 Hwg' H p) as [I1 I2].
    destruct (region_loop_get _ _ _ _ E p) as [L1 L2]. split.
    + intros k pins [Ek | Hin] Hp.
      * inversion Ek; subst k pins.
        assert (Hout : forall k pins, In (k, pins) rest -> ~ In p pins).
        { intros k pins Hkp Hp'. destruct Hwg as [Hnd Hpre].
          assert (Hk0 : prefix3 p = k0) by (apply (Hpre k0 pins0); [left|]; auto).
          assert (Hk : prefix3 p = k) by (apply (Hpre k pins); [right|]; auto).
          assert (Ek0 : k = k0) by congruence.
          apply NoDup_cons_iff in Hnd. destruct Hnd as [Hnot _]. apply Hnot.
          apply in_map_iff. exists (k, pins). split; [exact Ek0 | exact Hkp]. }
        rewrite (I2 Hout). apply L1.
        apply (unique_In String.eqb String.eqb_eq). exact Hp.
      * apply (I1 k pins Hin Hp).
    + intros Hn. rewrite I2 by (intros k pins Hkp; apply (Hn k pins); right; exact Hkp).
      apply L2. intros C. apply (proj1 (unique_In String.eqb String.eqb_eq _ _)) in C.
      apply (Hn k0 pins0); [left; reflexivity | exact C].
Qed.

Lemma pin_regions_well_grouped data : well_grouped (pin_regions data).
Proof.
  unfold pin_regions. split.
  - rewrite groupby_keys. eapply Permutation_NoDup; [apply isort_perm|].
    apply unique_NoDup, String.eqb_eq.
  - intros k pins p H Hp.
    apply (groupby_In _ _ String.eqb_eq) in H. destruct H as [-> _].
    apply filter_In in Hp. destruct Hp as [_ Hp]. apply String.eqb_eq. exact Hp.
Qed.

Lemma pin_regions_cover data p :
  In p data <-> exists k pins, In (k, pins) (pin_regions data) /\ In p pins.
Proof.
  unfold pin_regions. split.
  - intros H. exists (prefix3 p), (filter (fun r => String.eqb (prefix3 r) (prefix3 p)) data).
    split.
    + apply (groupby_complete String.eqb String.leb String.eqb_eq prefix3 data p H).
    + apply filter_In. split; [exact H | apply String.eqb_refl].
  - intros [k [pins [H Hp]]].
    apply (groupby_In _ _ String.eqb_eq) in H. destruct H as [-> _].
    apply filter_In in Hp. tauto.
Qed.

Lemma pincode_graph_spec data g :
  build_pincode_graph data = Some g ->
  forall p,
    (In p data <-> exists ns, dict_get p g = Some ns) /\
    (forall ns, dict_get p g = Some ns ->
       forall q, In q ns <-> In q data /\ q <> p /\ prefix3 q = prefix3 p).
Proof.
  unfold build_pincode_graph. intros H p.
  destruct (regions_loop_get _ _ _ (pin_regions_well_grouped data) H p)
    as [G1 G2].
  destruct (in_dec string_dec p data) as [Hin | Hout].
  - destruct (proj1 (pin_regions_cover data p) Hin) as [k [pins [Hr Hp]]].
    destruct (G1 k pins Hr Hp) as [adj [Ea Eg]].
    split; [split; [intros _; eexists; exact Eg | intros _; exact Hin]|].
    intros ns Hns q. rewrite Eg in Hns. inversion Hns; subst ns.
    pose proof Hr as Hr'. unfold pin_regions in Hr'.
    apply (groupby_In _ _ String.eqb_eq) in Hr'. destruct Hr' as [Epins _].
    assert (Hk : prefix3 p = k).
    { rewrite Epins in Hp. apply filter_In in Hp. destruct Hp as [_ Hp].
      apply String.eqb_eq. exact Hp. }
    assert (Hmem : forall q, In q (Py.unique String.eqb pins)
                             <-> In q data /\ prefix3 q = prefix3 p).
    { intros q'. rewrite (unique_In String.eqb String.eqb_eq).
      rewrite Epins, filter_In, String.eqb_eq, Hk. tauto. }
    rewrite (unique_In String.eqb String.eqb_eq), in_app_iff.
    rewrite (adjacent_region_spec _ _ _ Ea)
      by (intros q' Hq'; apply Hmem in Hq'; tauto).
    unfold same_region. rewrite filter_In, !Hmem. split.
    + intros [[[H1 H2] H3] | [[H1 H2] H3]]; repeat split; try assumption.
      rewrite andb_true_iff, negb_true_iff in H3. destruct H3 as [H3 _].
      apply String.eqb_neq. exact H3.
    + intros [H1 [H2 H3]]. right. tauto.
  - assert (E : dict_get p g = None).
    { rewrite G2; [reflexivity|]. intros k pins Hr Hp. apply Hout.
      apply pin_regions_cover. exists k, pins. auto. }
    split.
    + split; [contradiction | intros [ns Hns]; congruence].
    + intros ns Hns. congruence.
Qed.

(** X17.  When build_neighbor_graph(level='pincode') completes, the
    graph has an entry exactly for the pincodes of the data, and the
    neighbours of a pincode are exactly the other pincodes of the data
    with the same 3-digit prefix. *)
Theorem pincode_neighbours_share_prefix data g p :
  build_pincode_graph data = Some g ->
  (In p data <-> exists ns, dict_get p g = Some ns) /\
  (forall ns, dict_get p g = Some ns ->
     forall q, In q ns <-> In q data /\ q <> p /\ prefix3 q = prefix3 p).
Proof. intros H. apply (pincode_graph_spec data g H p). Qed.

Lemma two_regions_graph :
  build_pincode_graph two_regions
  = Some [("110001", ["110002"]); ("110002", ["110001"]); ("111001", [])]%string.
Proof. reflexivity. Qed.

Lemma pincode_neighbours_share_prefix_witness :
  (In "110001"%string two_regions
   <-> exists ns,
         dict_get "110001"
           [("110001", ["110002"]); ("110002", ["110001"]);
            ("111001", [])]%string = Some ns) /\
  (forall ns,
     dict_get "110001"
       [("110001", ["110002"]); ("110002", ["110001"]);
        ("111001", [])]%string = Some ns ->
     forall q, In q ns <-> In q two_regions /\ q <> "110001"%string /\
                           prefix3 q = prefix3 "110001").
Proof.
  apply (pincode_neighbours_share_prefix two_regions). apply two_regions_graph.
Defined.

(** X18.  The pincode graph is irreflexive and symmetric: a pincode is
    never its own neighbour, and if q is a neighbour of p then q has an
    entry of its own and p is a neighbour of q. *)
Theorem pincode_graph_symmetric data g p q ns :
  build_pincode_graph data = Some g ->
  dict_get p g = Some ns -> In q ns ->
  q <> p /\ exists ns', dict_get q g = Some ns' /\ In p ns'.
Proof.
  intros H Hns Hq.
  destruct (pincode_graph_spec data g H p) as [P1 P2].
  destruct (pincode_graph_spec data g H q) as [Q1 Q2].
  apply (P2 ns Hns) in Hq. destruct Hq as [Hd [Hne Hpre]].
  split; [exact Hne|].
  destruct (proj1 Q1 Hd) as [ns' Hns']. exists ns'. split; [exact Hns'|].
  apply (Q2 ns' Hns'). split; [|split]; auto.
  apply P1. eexists. exact Hns.
Qed.

Lemma pincode_graph_symmetric_witness :
  "110002"%string <> "110001"%string /\
  exists ns',
    dict_get "110002"
      [("110001", ["110002"]); ("110002", ["110001"]);
       ("111001", [])]%string = Some ns' /\
    In "110001"%string ns'.
Proof.
  apply (pincode_graph_symmetric two_regions _ "110001" "110002" ["110002"]%string).
  - apply two_regions_graph.
  - reflexivity.
  - left. reflexivity.
Defined.

Lemma regions_loop_none regions g :
  regions_loop regions g = None
  <-> exists k pins pin,
        In (k, pins) regions /\ In pin (Py.unique String.eqb pins) /\
        adjacent_region (Py.unique String.eqb pins) pin = None.
Proof.
  revert g. induction regions as [|[k0 pins0] rest IH]; simpl; intros g.
  - split; [discriminate | intros [k [pins [pin [[] _]]]]].
  - destruct (region_loop _ _ g) as [g1|] eqn:E.
    + rewrite IH. split.
      * intros [k [pins [pin [H1 H2]]]]. exists k, pins, pin. auto.
      * intros [k [pins [pin [[Ek | H1] [H2 H3]]]]].
        -- inversion Ek; subst.
           assert (C : region_loop (Py.unique String.eqb pins)
                                   (Py.unique String.eqb pins) g = None)
             by (apply region_loop_none; exists pin; auto).
           congruence.
        -- exists k, pins, pin. auto.
    + split; [intros _ | reflexivity].
      apply region_loop_none in E. destruct E as [pin [H1 H2]].
      exists k0, pins0, pin. auto.
Qed.

(** X19.  build_neighbor_graph(level='pincode') raises (int() fails)
    exactly when the data holds two different pincodes with the same
    3-character prefix and int() rejects that prefix; a pincode that is
    alone in its group is never parsed.  int() accepts an optional sign,
    blanks around the number and single underscores between digits. *)
Theorem pincode_graph_raises_on_text_prefix data :
  build_pincode_graph data = None
  <-> exists p q, In p data /\ In q data /\ q <> p /\
                  prefix3 q = prefix3 p /\ py_int (prefix3 p) = None.
Proof.
  unfold build_pincode_graph. rewrite regions_loop_none. split.
  - intros [k [pins [pin [Hr [Hp Ha]]]]].
    pose proof Hr as Hr'. unfold pin_regions in Hr'.
    apply (groupby_In _ _ String.eqb_eq) in Hr'. destruct Hr' as [Epins _].
    assert (Hmem : forall q, In q (Py.unique String.eqb pins)
                             <-> In q data /\ prefix3 q = k).
    { intros q'. rewrite (unique_In String.eqb String.eqb_eq).
      rewrite Epins, filter_In, String.eqb_eq. tauto. }
    pose proof (proj1 (Hmem pin) Hp) as [Hd Hk].
    apply adjacent_region_none in Ha.
    + destruct Ha as [Hint [q [Hq Hne]]]. apply Hmem in Hq.
      exists pin, q. repeat split; try tauto. destruct Hq; congruence.
    + intros q Hq. apply Hmem in Hq. destruct Hq; congruence.
  - intros [p [q [Hp [Hq [Hne [Hpre Hint]]]]]].
    exists (prefix3 p), (filter (fun r => String.eqb (prefix3 r) (prefix3 p)) data), p.
    assert (Hmem : forall x, In x (Py.unique String.eqb
                       (filter (fun r => String.eqb (prefix3 r) (prefix3 p)) data))
                             <-> In x data /\ prefix3 x = prefix3 p).
    { intros x. rewrite (unique_In String.eqb String.eqb_eq).
      rewrite filter_In, String.eqb_eq. tauto. }
    split; [|split].
    + apply (groupby_complete String.eqb String.leb String.eqb_eq prefix3 data p Hp).
    + apply Hmem. auto.
    + apply adjacent_region_none.
      * intros x Hx. apply Hmem in Hx. tauto.
      * split; [exact Hint|]. exists q. split; [apply Hmem; auto | exact Hne].
Qed.

Example text_pincodes_raise :
  build_pincode_graph text_pincodes = None /\
  build_pincode_graph ["ABC123"]%string = Some [("ABC123"%string, [])].
Proof. split; reflexivity. Qed.

Example signed_prefix_is_parsed :
  py_int "-12" = Some (-12)%Z /\
  py_int " 12" = Some 12%Z /\
  py_int "1_2" = Some 12%Z /\
  py_int "+07" = Some 7%Z /\
  py_int "1 2" = None /\
  py_int "_12" = None /\
  py_int "- 1" = None /\
  build_pincode_graph ["-12001"; "-12002"]%string
  = Some [("-12001", ["-12002"]); ("-12002", ["-12001"])]%string.
Proof. repeat split; reflexivity. Qed.

Lemma first_split_geo_key st d :
  has_bar st = false -> first_split (geo_key st d) = (st, d).
Proof.
  induction st as [|c r IH]; intros H.
  - reflexivity.
  - simpl in H. apply orb_false_iff in H. destruct H as [H1 H2].
    change (geo_key (String c r) d) with (String c (geo_key r d)).
    cbn [first_split]. rewrite H1, (IH H2). reflexivity.
Qed.

Lemma geo_key_injective st d st' d' :
  has_bar st = false -> has_bar st' = false ->
  geo_key st d = geo_key st' d' -> st = st' /\ d = d'.
Proof.
  intros H H' E. apply (f_equal first_split) in E.
  rewrite !first_split_geo_key in E by assumption. inversion E. auto.
Qed.

Lemma split_bar_no_bar d : has_bar d = false -> split_bar d = [d].
Proof.
  induction d as [|c r IH]; intros H; [reflexivity|].
  simpl in H. apply orb_false_iff in H. destruct H as [H1 H2].
  cbn [split_bar]. rewrite H1, (IH H2). reflexivity.
Qed.

Lemma split_bar_geo_key st d :
  has_bar st = false -> split_bar (geo_key st d) = st :: split_bar d.
Proof.
  induction st as [|c r IH]; intros H.
  - reflexivity.
  - simpl in H. apply orb_false_iff in H. destruct H as [H1 H2].
    change (geo_key (String c r) d) with (String c (geo_key r d)).
    cbn [split_bar]. rewrite H1, (IH H2). reflexivity.
Qed.

Lemma split_geo_key st d :
  has_bar st = false -> has_bar d = false ->
  split_key (geo_key st d) = Some (st, d).
Proof.
  intros Hs Hd. unfold split_key.
  rewrite split_bar_geo_key, split_bar_no_bar by assumption. reflexivity.
Qed.

Lemma geo_key_same_state st d d' :
  geo_key st d = geo_key st d' -> d = d'.
Proof.
  unfold geo_key. induction st as [|c r IH]; simpl; intros E.
  - inversion E. reflexivity.
  - inversion E. auto.
Qed.

Lemma inner_get st districts todo g :
  let g' := fold_left (district_step st districts) todo g in
  (forall d, In d todo ->
     dict_get (geo_key st d) g' = Some (others st districts d)) /\
  (forall key, (forall d, In d todo -> key <> geo_key st d) ->
     dict_get key g' = dict_get key g).
Proof.
  revert g. induction todo as [|d1 rest IH]; intros g; simpl.
  - split; [tauto | reflexivity].
  - destruct (IH (district_step st districts g d1)) as [I1 I2]. split.
    + intros d Hd. destruct (in_dec string_dec d rest) as [Hr | Hr].
      * apply I1. exact Hr.
      * destruct Hd as [-> | Hd]; [|contradiction].
        rewrite I2.
        -- unfold district_step. rewrite dict_get_set, String.eqb_refl. reflexivity.
        -- intros d' Hd' E. apply geo_key_same_state in E. subst d'. contradiction.
    + intros key Hk. rewrite I2 by (intros d Hd; apply Hk; right; exact Hd).
      unfold district_step. rewrite dict_get_set.
      destruct (String.eqb_spec (geo_key st d1) key) as [E | _]; [|reflexivity].
      exfalso. apply (Hk d1); [left; reflexivity | symmetry; exact E].
Qed.

Lemma build_district_graph_fold data :
  build_district_graph data = fold_left state_step (state_districts data) [].
Proof.
  unfold build_district_graph.
  assert (E : forall l g,
    fold_left (fun graph sd => let '(st, districts) := sd in
                 fold_left (fun g0 d1 =>
                   dict_set (geo_key st d1)
                     (map (geo_key st)
                        (filter (fun d2 => negb (String.eqb d2 d1)) districts)) g0)
                   districts graph) l g
    = fold_left state_step l g).
  { induction l as [|[st ds] l IH]; intros g; simpl; [reflexivity|]. apply IH. }
  apply E.
Qed.

Lemma outer_get regions g :
  NoDup (map fst regions) ->
  (forall st ds, In (st, ds) regions -> has_bar st = false) ->
  let g' := fold_left state_step regions g in
  (forall st ds d, In (st, ds) regions -> In d ds ->
     dict_get (geo_key st d) g' = Some (others st ds d)) /\
  (forall key, (forall st ds d, In (st, ds) regions -> In d ds ->
                  key <> geo_key st d) ->
     dict_get key g' = dict_get key g).
Proof.
  revert g. induction regions as [|[st0 ds0] rest IH]; intros g Hnd Hbar; simpl.
  - split; [tauto | reflexivity].
  - apply NoDup_cons_iff in Hnd. destruct Hnd as [Hnot Hnd].
    assert (Hbar' : forall st ds, In (st, ds) rest -> has_bar st = false)
      by (intros st ds H; apply (Hbar st ds); right; exact H).
    destruct (IH (state_step g (st0, ds0)) Hnd Hbar') as [I1 I2].
    destruct (inner_get st0 ds0 ds0 g) as [L1 L2]. split.
    + intros st ds d [E | Hin] Hd.
      * inversion E; subst st ds. rewrite I2.
        -- apply L1. exact Hd.
        -- intros st ds d' Hr Hd' C.
           apply geo_key_injective in C;
             [| apply (Hbar st0 ds0); left; reflexivity | apply (Hbar' st ds Hr)].
           destruct C as [<- _]. apply Hnot. apply in_map_iff.
           exists (st0, ds). auto.
      * apply (I1 st ds d Hin Hd).
    + intros key Hk.
      rewrite I2 by (intros st ds d Hr Hd; apply (Hk st ds d); [right|]; assumption).
      apply L2. intros d Hd. apply (Hk st0 ds0 d); [left; reflexivity | exact Hd].
Qed.

Lemma state_districts_spec data st ds :
  In (st, ds) (state_districts data) ->
  forall d, In d ds <-> In (st, d) data.
Proof.
  unfold state_districts. intros H d. apply in_map_iff in H.
  destruct H as [[k g] [E Hg]]. simpl in E. inversion E; subst k ds.
  apply (groupby_In _ _ String.eqb_eq) in Hg. destruct Hg as [-> _].
  rewrite (unique_In String.eqb String.eqb_eq), in_map_iff. split.
  - intros [[s d'] [Ed Hf]]. simpl in Ed. subst d'.
    apply filter_In in Hf. destruct Hf as [Hf Es]. simpl in Es.
    apply String.eqb_eq in Es. subst s. exact Hf.
  - intros Hd. exists (st, d). split; [reflexivity|].
    apply filter_In. split; [exact Hd | apply String.eqb_refl].
Qed.

Lemma state_districts_keys data :
  NoDup (map fst (state_districts data)) /\
  forall st, In st (map fst (state_districts data)) <-> In st (map fst data).
Proof.
  unfold state_districts. rewrite map_map. simpl.
  change (map (fun x : string * list (string * string) => fst x))
    with (map (@fst string (list (string * string)))).
  rewrite groupby_keys. split.
  - eapply Permutation_NoDup; [apply isort_perm|].
    apply unique_NoDup, String.eqb_eq.
  - intros st. rewrite <- (unique_In String.eqb String.eqb_eq (map fst data) st).
    split; apply Permutation_in; [symmetry|]; apply isort_perm.
Qed.

(** X20.  When no state name contains the separator '|', the district
    graph is complete within each state: the entry of state|district
    lists exactly the keys of the other districts of that state. *)
Theorem district_graph_complete_within_state data st d :
  (forall s x, In (s, x) data -> has_bar s = false) ->
  In (st, d) data ->
  exists ns,
    dict_get (geo_key st d) (build_district_graph data) = Some ns /\
    forall n, In n ns <->
              exists d2, n = geo_key st d2 /\ In (st, d2) data /\ d2 <> d.
Proof.
  intros Hbar Hin. rewrite build_district_graph_fold.
  destruct (state_districts_keys data) as [Hnd Hkeys].
  assert (Hst : In st (map fst (state_districts data))).
  { apply Hkeys. apply in_map_iff. exists (st, d). auto. }
  apply in_map_iff in Hst. destruct Hst as [[st' ds] [E Hr]].
  simpl in E. subst st'.
  assert (Hbar' : forall s l, In (s, l) (state_districts data) -> has_bar s = false).
  { intros s l H.
    assert (Hs : In s (map fst data)).
    { apply Hkeys. apply in_map_iff. exists (s, l). auto. }
    apply in_map_iff in Hs. destruct Hs as [[s' x] [Es Hx]]. simpl in Es. subst s'.
    apply (Hbar s x Hx). }
  destruct (outer_get (state_districts data) [] Hnd Hbar') as [G1 _].
  pose proof (state_districts_spec data st ds Hr) as Hds.
  exists (others st ds d). split.
  - apply (G1 st ds d Hr). apply Hds. exact Hin.
  - intros n. unfold others. rewrite in_map_iff. split.
    + intros [d2 [<- H2]]. apply filter_In in H2. destruct H2 as [H2 H3].
      exists d2. split; [reflexivity|]. split; [apply Hds; exact H2|].
      apply negb_true_iff in H3. apply String.eqb_neq. exact H3.
    + intros [d2 [-> [H2 H3]]]. exists d2. split; [reflexivity|].
      apply filter_In. split; [apply Hds; exact H2|].
      apply negb_true_iff. apply String.eqb_neq. exact H3.
Qed.

Lemma district_graph_complete_within_state_witness :
  exists ns,
    dict_get (geo_key "X" "C") (build_district_graph one_state) = Some ns /\
    forall n, In n ns <->
              exists d2, n = geo_key "X" d2 /\
                         In ("X"%string, d2) one_state /\ d2 <> "C"%string.
Proof.
  apply (district_graph_complete_within_state one_state "X" "C").
  - intros s x H. simpl in H.
    repeat (destruct H as [H | H]; [inversion H; reflexivity|]). destruct H.
  - right. right. left. reflexivity.
Defined.

(** X21.  The location key round-trips: for a state and a district whose
    names do not contain '|', the split of the key state|district does
    not raise, and the record compute_msi builds for that key carries
    that state and that district. *)
Theorem msi_record_names e w valid st di t :
  has_bar st = false -> has_bar di = false ->
  exists r,
    msi_record e w valid (geo_key st di) t = Some r /\
    MSI.geo_key r = geo_key st di /\
    state r = st /\
    district r = di.
Proof.
  intros Hs Hd. unfold msi_record. rewrite (split_geo_key st di Hs Hd).
  eexists. split; [reflexivity|]. unfold msi_row.
  repeat split; reflexivity.
Qed.

Lemma msi_record_names_witness :
  exists r,
    msi_record MSISamples.flat_state 3 [] (geo_key "X" "C") 3 = Some r /\
    MSI.geo_key r = geo_key "X" "C" /\
    state r = "X"%string /\
    district r = "C"%string.
Proof.
  apply (msi_record_names MSISamples.flat_state 3 [] "X" "C" 3); reflexivity.
Defined.

End GraphMoreFacts.

(** ** Bounds on the Mobility Signal Index *)

Section MSIMoreFacts.
Import NeighborGraph MSI MSISpec MSISamples MSIAux.

Lemma cauchy_schwarz_pairs l :
  0 <= sum_xx l /\ 0 <= sum_yy l /\
  sum_xy l * sum_xy l <= sum_xx l * sum_yy l.
Proof.
  unfold sum_xx, sum_yy, sum_xy.
  induction l as [|[x y] l [IA [IB IC]]]; simpl; [lra|].
  unfold Py.Rsum in *.
  set (A := fold_right Rplus 0 (map (fun p => fst p * fst p) l)) in *.
  set (B := fold_right Rplus 0 (map (fun p => snd p * snd p) l)) in *.
  set (C := fold_right Rplus 0 (map (fun p => fst p * snd p) l)) in *.
  clearbody A B C.
  assert (Hx : 0 <= x * x) by nra. assert (Hy : 0 <= y * y) by nra.
  split; [lra|]. split; [lra|].
  set (a := A * (y * y)). set (b := B * (x * x)). set (c := C * (x * y)).
  assert (Va : 0 <= a) by (apply Rmult_le_pos; assumption).
  assert (Vb : 0 <= b) by (apply Rmult_le_pos; assumption).
  assert (P : c * c <= a * b).
  { replace (c * c) with (C * C * ((x * x) * (y * y))) by (unfold c; ring).
    replace (a * b) with (A * B * ((x * x) * (y * y))) by (unfold a, b; ring).
    apply Rmult_le_compat_r; [apply Rmult_le_pos; assumption | exact IC]. }
  assert (W : 2 * c <= a + b).
  { destruct (Rle_dec (2 * c) (a + b)) as [K | K]; [exact K|].
    exfalso. pose proof (Rle_0_sqr (a - b)) as Q. unfold Rsqr in Q. nra. }
  apply Rle_trans with (x * x * (y * y) + (a + b) + A * B);
    [| right; unfold a, b; ring].
  replace ((x * y + C) * (x * y + C))
    with (x * x * (y * y) + 2 * c + C * C) by (unfold c; ring).
  lra.
Qed.

Lemma dot_as_pairs xs ys :
  length ys = length xs ->
  dot xs ys = sum_xy (combine xs ys) /\
  dot xs xs = sum_xx (combine xs ys) /\
  dot ys ys = sum_yy (combine xs ys).
Proof.
  intros H. split; [reflexivity|].
  unfold dot, sum_xx, sum_yy, Py.Rsum.
  revert ys H. induction xs as [|x xs IH]; intros [|y ys] H; simpl in *;
    try discriminate; [split; reflexivity|].
  injection H as H. destruct (IH ys H) as [I2 I3].
  split; f_equal; assumption.
Qed.

Lemma pearson_bounded xs ys :
  length ys = length xs ->
  0 < dot (deviations xs) (deviations xs) ->
  0 < dot (deviations ys) (deviations ys) ->
  -1 <= pearson xs ys <= 1.
Proof.
  intros Hlen Ha Hb. unfold pearson.
  assert (L : length (deviations ys) = length (deviations xs))
    by (unfold deviations; rewrite !length_map; exact Hlen).
  destruct (dot_as_pairs _ _ L) as [D1 [D2 D3]].
  destruct (cauchy_schwarz_pairs (combine (deviations xs) (deviations ys)))
    as [_ [_ CS]].
  rewrite <- D1, <- D2, <- D3 in CS.
  set (A := dot (deviations xs) (deviations xs)) in *.
  set (B := dot (deviations ys) (deviations ys)) in *.
  set (C := dot (deviations xs) (deviations ys)) in *.
  assert (S : 0 < sqrt (A * B)) by (apply sqrt_lt_R0; nra).
  assert (SS : sqrt (A * B) * sqrt (A * B) = A * B) by (apply sqrt_sqrt; nra).
  assert (K : - sqrt (A * B) <= C <= sqrt (A * B)) by (split; nra).
  split.
  - apply (Rmult_le_reg_r (sqrt (A * B))); [exact S|].
    unfold Rdiv. rewrite Rmult_assoc, Rinv_l by lra. lra.
  - apply (Rmult_le_reg_r (sqrt (A * B))); [exact S|].
    unfold Rdiv. rewrite Rmult_assoc, Rinv_l by lra. lra.
Qed.

Lemma inverse_corr_bounded lc nc :
  length nc = length lc -> -1 <= inverse_corr_of lc nc <= 1.
Proof.
  intros Hlen.
  destruct (inverse_corr_cases lc nc Hlen) as [Good Bad].
  destruct (lt_dec 2 (length lc)) as [Hn | Hn]; [|rewrite Bad by lia; lra].
  destruct (Rlt_dec 0 (Py.np_std lc)) as [Hx | Hx].
  - destruct (Rlt_dec 0 (Py.np_std nc)) as [Hy | Hy].
    + rewrite Good by auto.
      pose proof (pearson_bounded lc nc Hlen (np_std_pos_dot _ Hx)
                    (np_std_pos_dot _ Hy)). lra.
    + rewrite Bad; [lra|]. right. right.
      pose proof (sqrt_pos (Py.sq_dev nc / INR (length nc))).
      unfold Py.np_std in *. lra.
  - rewrite Bad; [lra|]. right. left.
    pose proof (sqrt_pos (Py.sq_dev lc / INR (length lc))).
    unfold Py.np_std in *. lra.
Qed.

Lemma opposite_count_le e t valid dir :
  (opposite_count_of e t valid dir <= length valid)%nat.
Proof.
  unfold opposite_count_of. destruct (Py.Reqb dir 0); [lia|].
  apply filter_length_le.
Qed.

Lemma msi_record_counts e w valid loc t names :
  num_neighbors (msi_row e w valid loc t names) = length valid /\
  neighbors_opposite (msi_row e w valid loc t names)
  = opposite_count_of e t valid (np_sign (last (loc_changes e w t loc) 0)).
Proof.
  unfold msi_row. destruct names. simpl. split; reflexivity.
Qed.

(** X22.  Every record of compute_msi has at least 2 neighbours, at
    most that many opposite neighbours, a spatial_spread equal to their
    ratio and hence in [0, 1], an inverse_correlation in [-1, 1] (the
    Cauchy-Schwarz inequality), a non-negative z_magnitude, and
    therefore an msi_score in [-2, 2]. *)
Theorem msi_records_are_bounded e w rs r :
  compute_msi e w = Some rs ->
  In r rs ->
  (2 <= num_neighbors r)%nat /\
  (neighbors_opposite r <= num_neighbors r)%nat /\
  spatial_spread r = INR (neighbors_opposite r) / INR (num_neighbors r) /\
  0 <= spatial_spread r <= 1 /\
  -1 <= inverse_correlation r <= 1 /\
  (forall z, z_magnitude r = Some z -> 0 <= z) /\
  (forall m, msi_score r = Some m -> -2 <= m <= 2).
Proof.
  intros Hrs H.
  destruct (compute_msi_records e w rs r Hrs H)
    as [loc [t [names [Hloc [Hv [Ht [_ ->]]]]]]].
  set (valid := valid_neighbors e loc) in *.
  destruct (msi_record_fields e w valid loc t names)
    as [F1 [F2 [F3 [F4 [F5 F6]]]]].
  destruct (msi_record_counts e w valid loc t names) as [N1 N2].
  cbv zeta in *.
  set (r := msi_row e w valid loc t names) in *.
  assert (Hle : (neighbors_opposite r <= num_neighbors r)%nat).
  { rewrite N1, N2. apply opposite_count_le. }
  assert (P : 0 < INR (num_neighbors r)) by (apply lt_0_INR; lia).
  assert (S : spatial_spread r = INR (neighbors_opposite r) / INR (num_neighbors r)).
  { rewrite F4, N1, N2. destruct valid; [simpl in Hv; lia | reflexivity]. }
  assert (SB : 0 <= spatial_spread r <= 1).
  { rewrite S. pose proof (pos_INR (neighbors_opposite r)) as O.
    apply le_INR in Hle. split.
    - apply Rmult_le_pos; [exact O|]. left. apply Rinv_0_lt_compat. exact P.
    - apply (Rmult_le_reg_r (INR (num_neighbors r))); [exact P|].
      unfold Rdiv. rewrite Rmult_assoc, Rinv_l by lra. lra. }
  assert (IB : -1 <= inverse_correlation r <= 1).
  { rewrite F3. apply inverse_corr_bounded.
    unfold neighbor_changes, loc_changes. rewrite !length_map. reflexivity. }
  assert (ZB : forall z, z_magnitude r = Some z -> 0 <= z).
  { intros z Hz. rewrite F5 in Hz.
    destruct (existsb _ _).
    - destruct (zscore_at _ _ _); simpl in Hz; [|discriminate].
      injection Hz as <-. apply Rabs_pos.
    - injection Hz as <-. lra. }
  split; [rewrite N1; exact Hv|]. split; [exact Hle|]. split; [exact S|].
  split; [exact SB|]. split; [exact IB|]. split; [exact ZB|].
  intros m Hm. rewrite F6 in Hm.
  destruct (z_magnitude r) as [z|] eqn:Z; simpl in Hm; [|discriminate].
  injection Hm as <-. pose proof (ZB z eq_refl) as Hz.
  rewrite py_min_Rmin.
  assert (M : 0 <= Rmin z 3 <= 3).
  { split; [apply Rmin_glb; lra | apply Rmin_r]. }
  set (i := inverse_correlation r) in *. set (s := spatial_spread r) in *.
  set (q := Rmin z 3) in *.
  assert (A1 : -2 <= i * (1 + s) <= 2) by (split; nra).
  split; nra.
Qed.

Lemma flat_record_in : In flat_record flat_records.
Proof.
  assert (C : compute_msi flat_state 3 = Some flat_records) by reflexivity.
  destruct (msi_record_in flat_state 3 flat_records "X|C" 3 C)
    as [names [S I]]; [simpl; auto | simpl; lia | simpl; lia |].
  cbv in S. injection S as <-. exact I.
Qed.

Lemma msi_records_are_bounded_witness :
  (2 <= num_neighbors flat_record)%nat /\
  (neighbors_opposite flat_record <= num_neighbors flat_record)%nat /\
  spatial_spread flat_record
  = INR (neighbors_opposite flat_record) / INR (num_neighbors flat_record) /\
  0 <= spatial_spread flat_record <= 1 /\
  -1 <= inverse_correlation flat_record <= 1 /\
  (forall z, z_magnitude flat_record = Some z -> 0 <= z) /\
  (forall m, msi_score flat_record = Some m -> -2 <= m <= 2).
Proof.
  apply (msi_records_are_bounded flat_state 3 flat_records flat_record).
  - reflexivity.
  - apply flat_record_in.
Defined.

Lemma location_records_length e w loc xs :
  location_records e w loc = Some xs ->
  length xs
  = if (length (valid_neighbors e loc) <? 2)%nat then 0%nat
    else (length (time_periods e) - w)%nat.
Proof.
  unfold location_records.
  destruct (length (valid_neighbors e loc) <? 2)%nat; intros H.
  - injection H as <-. reflexivity.
  - apply collect_Some in H. apply (f_equal (@length _)) in H.
    rewrite !length_map, length_seq in H. lia.
Qed.

Lemma records_length e w locs xss :
  map (location_records e w) locs = map Some xss ->
  length (concat xss)
  = (length (filter (fun loc =>
                       negb (length (valid_neighbors e loc) <? 2)%nat) locs)
     * (length (time_periods e) - w))%nat.
Proof.
  revert xss. induction locs as [|loc l IH]; intros [|xs xss] H;
    try discriminate; [reflexivity|].
  simpl in H. injection H as H1 H2.
  cbn [concat]. rewrite length_app, (IH _ H2).
  apply location_records_length in H1. rewrite H1. cbn [filter].
  destruct (length (valid_neighbors e loc) <? 2)%nat; simpl; lia.
Qed.

(** X23.  When compute_msi returns, it has emitted one record per
    location with at least two valid neighbours and per time index from
    window_size on: their number is the product of the two counts.  It
    raises (ValueError) exactly when such a location, with at least one
    time index to process, has a key that does not split at '|' into
    exactly two names; and it returns no record, whatever the keys, when
    window_size is at least the number of periods. *)
Theorem msi_record_count e w :
  (forall rs, compute_msi e w = Some rs ->
     length rs
     = (length (filter (fun loc =>
                          negb (length (valid_neighbors e loc) <? 2)%nat)
                       (locations e))
        * (length (time_periods e) - w))%nat) /\
  (compute_msi e w = None <->
   exists loc,
     In loc (locations e) /\ (2 <= length (valid_neighbors e loc))%nat /\
     (w < length (time_periods e))%nat /\ split_key loc = None) /\
  ((length (time_periods e) <= w)%nat -> compute_msi e w = Some []).
Proof.
  assert (L : forall rs, compute_msi e w = Some rs ->
     length rs
     = (length (filter (fun loc =>
                          negb (length (valid_neighbors e loc) <? 2)%nat)
                       (locations e))
        * (length (time_periods e) - w))%nat).
  { intros rs H. apply compute_msi_Some in H. destruct H as [xss [M ->]].
    apply records_length. exact M. }
  split; [exact L|]. split; [apply compute_msi_raises|].
  intros H. destruct (compute_msi e w) as [rs|] eqn:E.
  - f_equal. apply length_zero_iff_nil. rewrite (L rs eq_refl).
    replace (length (time_periods e) - w)%nat with 0%nat by lia. lia.
  - apply compute_msi_raises in E. destruct E as [loc [_ [_ [Hw _]]]]. lia.
Qed.

Lemma msi_record_count_witness :
  (forall rs, compute_msi unkeyed 0 = Some rs ->
     length rs
     = (length (filter (fun loc =>
                          negb (length (valid_neighbors unkeyed loc) <? 2)%nat)
                       (locations unkeyed))
        * (length (time_periods unkeyed) - 0))%nat) /\
  (compute_msi unkeyed 0 = None <->
   exists loc,
     In loc (locations unkeyed) /\
     (2 <= length (valid_neighbors unkeyed loc))%nat /\
     (0 < length (time_periods unkeyed))%nat /\ split_key loc = None) /\
  ((length (time_periods unkeyed) <= 0)%nat -> compute_msi unkeyed 0 = Some []).
Proof. apply (msi_record_count unkeyed 0). Defined.

Example unkeyed_raises :
  compute_msi unkeyed 0 = None /\ compute_msi unkeyed 2 = Some [] /\
  length flat_records = 3%nat.
Proof. repeat split; reflexivity. Qed.





End MSIMoreFacts.

(** ** Waves *)

Section WaveMoreFacts.
Import NeighborGraph MSI Waves WavesSpec WaveSamples WavesAux.

Lemma flat_map_nil {A B} (f : A -> list B) l :
  (forall x, In x l -> f x = []) -> flat_map f l = [].
Proof.
  induction l as [|x l IH]; intros H; simpl; [reflexivity|].
  rewrite (H x) by (left; reflexivity). apply IH.
  intros y Hy. apply H. right. exact Hy.
Qed.

(** X25.  detect_wave_patterns(min_duration=0) finds no wave, whatever
    the records: the candidate start times are time_periods[:-0], which
    is the empty slice. *)
Theorem zero_duration_finds_no_wave rs ms :
  detect_wave_patterns rs 0 ms = [].
Proof.
  unfold detect_wave_patterns.
  rewrite flat_map_nil; [reflexivity|].
  intros st _. unfold state_waves. reflexivity.
Qed.

Lemma detected_wave_origin rs md ms w :
  In w (detect_wave_patterns rs md ms) ->
  exists st start_idx start_time,
    In st (Py.unique String.eqb (map state (high_msi rs))) /\
    In (start_idx, start_time)
       (enumerate (Py.drop_last md
                     (state_periods (state_data (high_msi rs) st)))) /\
    In w (wave_of st (state_data (high_msi rs) st)
                  (state_periods (state_data (high_msi rs) st))
                  md ms (start_idx, start_time)).
Proof.
  unfold detect_wave_patterns. intros H.
  apply (Permutation_in _ (Permutation_sym (isort_perm _ _))) in H.
  apply in_flat_map in H. destruct H as [st [Hst H]].
  unfold state_waves in H. apply in_flat_map in H.
  destruct H as [[i t] [Hi H]]. exists st, i, t. auto.
Qed.

(** The spread sequence always starts with the start period and its
    districts. *)
Lemma dict_set_head sd t0 rest t :
  exists rest',
    dict_set t (districts_at sd t) ((t0, districts_at sd t0) :: rest)
    = (t0, districts_at sd t0) :: rest' /\
    (length rest' <= S (length rest))%nat.
Proof.
  simpl. destruct (String.eqb_spec t0 t) as [-> | _].
  - exists rest. split; [reflexivity | lia].
  - exists (dict_set t (districts_at sd t) rest). split; [reflexivity|].
    clear. induction rest as [|[k v] r IH]; simpl; [lia|].
    destruct (String.eqb k t); simpl; lia.
Qed.

Lemma track_fold_head sd t0 periods rest cum :
  exists rest' cum',
    fold_left (track_step sd) periods
              ((t0, districts_at sd t0) :: rest, cum)
    = ((t0, districts_at sd t0) :: rest', cum') /\
    (length rest' <= length rest + length periods)%nat /\
    (length cum <= length cum')%nat /\ incl cum cum'.
Proof.
  revert rest cum. induction periods as [|t ps IH]; intros rest cum; simpl.
  - exists rest, cum. split; [reflexivity|]. split; [lia|].
    split; [lia | apply incl_refl].
  - unfold track_step at 2. simpl fst. simpl snd.
    destruct (existsb _ sd).
    + destruct (dict_set_head sd t0 rest t) as [r1 [E1 L1]].
      rewrite E1. destruct (IH r1 (set_union cum (districts_at sd t)))
        as [r2 [c2 [E2 [L2 [L3 L4]]]]].
      exists r2, c2. split; [exact E2|]. split; [lia|].
      unfold set_union in L3, L4. rewrite length_app in L3.
      split; [lia|]. intros x Hx. apply L4. apply in_or_app. left. exact Hx.
    + destruct (IH rest cum) as [r2 [c2 [E2 [L2 [L3 L4]]]]].
      exists r2, c2. split; [exact E2|]. split; [lia|]. split; assumption.
Qed.

Lemma list_max_ge l x : In x l -> (x <= list_max l)%nat.
Proof.
  induction l as [|y l IH]; simpl; [tauto|].
  intros [-> | H]; [lia | specialize (IH H); lia].
Qed.

Lemma list_max_bound l b : (forall x, In x l -> (x <= b)%nat) -> (list_max l <= b)%nat.
Proof.
  induction l as [|y l IH]; intros H; simpl; [lia|].
  assert (y <= b)%nat by (apply H; left; reflexivity).
  assert (list_max l <= b)%nat by (apply IH; intros; apply H; right; assumption).
  lia.
Qed.

Lemma wave_of_fields st sd tps md ms start w :
  In w (wave_of st sd tps md ms start) ->
  let tracked := track sd tps md (fst start) (snd start) in
  let counts := map (fun kv => length (snd kv)) (fst tracked) in
  districts_at sd (snd start) <> [] /\
  qualifies ms tracked = true /\
  wave_state w = st /\ start_time w = snd start /\
  origin_districts w = districts_at sd (snd start) /\
  all_districts w = snd tracked /\
  total_affected w = length (snd tracked) /\
  spread_sequence w = fst tracked /\
  duration w = length (fst tracked) /\
  peak_count w = list_max counts /\
  wave_score w
  = INR (length (snd tracked) * list_max counts)
    / INR (length (districts_at sd (snd start)) + 1).
Proof.
  unfold wave_of.
  destruct (districts_at sd (snd start)) as [|d ds] eqn:E; [intros []|].
  rewrite <- E.
  destruct (qualifies ms (track sd tps md (fst start) (snd start))) eqn:Q;
    [|intros []].
  intros [<- | []]. cbv zeta. simpl.
  repeat split; try reflexivity. rewrite E. discriminate.
Qed.

(** X26.  Every wave that detect_wave_patterns reports has at least
    min_spread affected districts, a non-empty set of origin districts
    contained in the affected ones, a peak count strictly above the
    number of origin districts, between 2 and min_duration + 2 periods
    in its spread sequence, and a positive score
    total_affected * peak_count / (origins + 1). *)
Theorem detected_waves_spread rs md ms w :
  In w (detect_wave_patterns rs md ms) ->
  (ms <= total_affected w)%nat /\
  total_affected w = length (all_districts w) /\
  (1 <= length (origin_districts w) < peak_count w)%nat /\
  (2 <= duration w <= md + 2)%nat /\
  duration w = length (spread_sequence w) /\
  incl (origin_districts w) (all_districts w) /\
  wave_score w
  = INR (total_affected w * peak_count w)
    / INR (length (origin_districts w) + 1) /\
  0 < wave_score w.
Proof.
  intros H. apply detected_wave_origin in H.
  destruct H as [st [i [t [_ [Hi H]]]]].
  set (sd := state_data (high_msi rs) st) in *.
  set (tps := state_periods sd) in *.
  clearbody tps. clearbody sd.
  apply wave_of_fields in H. cbv zeta in H. simpl fst in H. simpl snd in H.
  destruct H as [Hne [Hq [_ [_ [Ho [Ha [Ht [Hs [Hd [Hp Hw]]]]]]]]]].
  unfold track in *.
  destruct (track_fold_head sd t (tracked_periods tps i md) []
              (districts_at sd t)) as [rest [cum [E [L [Lc Li]]]]].
  rewrite E in *. simpl fst in *. simpl snd in *.
  unfold qualifies in Hq. simpl fst in Hq. simpl snd in Hq.
  apply andb_true_iff in Hq. destruct Hq as [Q1 Q2].
  apply Nat.leb_le in Q1. apply Nat.ltb_lt in Q2. simpl hd in Q2.
  assert (Lt : (length (tracked_periods tps i md) <= md + 1)%nat).
  { rewrite tracked_periods_subsequent. unfold subsequent.
    rewrite length_firstn. lia. }
  assert (Hrest : rest <> []).
  { intros ->. unfold list_max in Q2. simpl in Q2.
    rewrite Nat.max_0_r in Q2. exact (Nat.lt_irrefl _ Q2). }
  assert (O1 : (1 <= length (districts_at sd t))%nat).
  { destruct (districts_at sd t); [contradiction | simpl; lia]. }
  rewrite Ht, Ho, Hp, Hd, Hs, Ha, Hw.
  split; [exact Q1|]. split; [reflexivity|]. split; [lia|].
  split; [destruct rest; [contradiction|]; simpl in *; lia|].
  split; [reflexivity|]. split; [exact Li|]. split; [reflexivity|].
  apply Rdiv_lt_0_compat.
  - apply lt_0_INR. apply Nat.mul_pos_pos; lia.
  - apply lt_0_INR. lia.
Qed.

Lemma first_wave_detected :
  In first_wave (detect_wave_patterns late_spread 1 3).
Proof.
  unfold first_wave. pose proof late_spread_waves as H.
  destruct (detect_wave_patterns late_spread 1 3) as [|w l];
    [discriminate | left; reflexivity].
Qed.

Lemma detected_waves_spread_witness :
  (3 <= total_affected first_wave)%nat /\
  total_affected first_wave = length (all_districts first_wave) /\
  (1 <= length (origin_districts first_wave) < peak_count first_wave)%nat /\
  (2 <= duration first_wave <= 1 + 2)%nat /\
  duration first_wave = length (spread_sequence first_wave) /\
  incl (origin_districts first_wave) (all_districts first_wave) /\
  wave_score first_wave
  = INR (total_affected first_wave * peak_count first_wave)
    / INR (length (origin_districts first_wave) + 1) /\
  0 < wave_score first_wave.
Proof.
  apply (detected_waves_spread late_spread 1 3 first_wave).
  apply first_wave_detected.
Defined.

Lemma score_order_total (a b : WavePattern) :
  Py.Rleb (wave_score b) (wave_score a) = true
  \/ Py.Rleb (wave_score a) (wave_score b) = true.
Proof.
  destruct (Rle_dec (wave_score b) (wave_score a)) as [H | H].
  - left. apply Rleb_true. exact H.
  - right. apply Rleb_true. lra.
Qed.

(** X27.  detect_wave_patterns returns the waves by descending
    wave_score: each wave has a score at least that of the next. *)
Theorem waves_ranked_by_score rs md ms :
  Sorted (fun a b => wave_score b <= wave_score a)
         (detect_wave_patterns rs md ms).
Proof.
  unfold detect_wave_patterns.
  pose proof (isort_locally_sorted
                (fun a b : WavePattern => Py.Rleb (wave_score b) (wave_score a))
                score_order_total
                (flat_map (state_waves (high_msi rs) md ms)
                          (Py.unique String.eqb (map state (high_msi rs))))) as S.
  induction S as [|x l Hs IH Hd]; constructor; [exact IH|].
  destruct Hd as [|y l' Hxy]; constructor. apply Rleb_iff. exact Hxy.
Qed.

Lemma track_values sd periods affected cum (P : list string -> Prop) :
  (forall kv, In kv affected -> P (snd kv)) ->
  (forall t, In t periods -> P (districts_at sd t)) ->
  forall kv, In kv (fst (fold_left (track_step sd) periods (affected, cum))) ->
             P (snd kv).
Proof.
  revert affected cum. induction periods as [|t ps IH]; intros affected cum Ha Hp; simpl.
  - exact Ha.
  - unfold track_step at 2. simpl fst. simpl snd.
    destruct (existsb _ sd).
    + apply IH; [|intros; apply Hp; right; assumption].
      intros kv Hkv.
      assert (G : forall d, (forall kv, In kv d -> P (snd kv)) ->
                  forall kv, In kv (dict_set t (districts_at sd t) d) -> P (snd kv)).
      { clear -Hp. induction d as [|[k v] r IHd]; simpl; intros Hd kv Hkv.
        - destruct Hkv as [<- | []]. simpl. apply Hp. left. reflexivity.
        - destruct (String.eqb k t).
          + destruct Hkv as [<- | Hkv]; [simpl; apply Hp; left; reflexivity|].
            apply Hd. right. exact Hkv.
          + destruct Hkv as [<- | Hkv]; [apply Hd; left; reflexivity|].
            apply IHd; [intros; apply Hd; right; assumption | exact Hkv]. }
      apply (G affected Ha kv Hkv).
    + apply IH; [exact Ha | intros; apply Hp; right; assumption].
Qed.

(** X28.  A candidate start whose tracked periods never show more
    high-MSI districts than the start period yields no wave: a flat or
    declining count does not pass the test. *)
Theorem flat_spread_is_no_wave st sd tps md ms start_idx start_time :
  (forall t, In t (tracked_periods tps start_idx md) ->
     (length (districts_at sd t) <= length (districts_at sd start_time))%nat) ->
  wave_of st sd tps md ms (start_idx, start_time) = [].
Proof.
  intros H. unfold wave_of. simpl fst. simpl snd.
  destruct (districts_at sd start_time) as [|d ds] eqn:E; [reflexivity|].
  rewrite <- E in *.
  assert (Q : qualifies ms (track sd tps md start_idx start_time) = false).
  { unfold qualifies. apply andb_false_iff. right. apply Nat.ltb_ge.
    unfold track.
    destruct (track_fold_head sd start_time (tracked_periods tps start_idx md) []
                (districts_at sd start_time)) as [rest [cum [Ef _]]].
    pose proof (track_values sd (tracked_periods tps start_idx md)
                  [(start_time, districts_at sd start_time)]
                  (districts_at sd start_time)
                  (fun l => (length l <= length (districts_at sd start_time))%nat)) as V.
    rewrite Ef in *. simpl fst in *. simpl hd.
    apply list_max_bound. intros x Hx. apply in_map_iff in Hx.
    destruct Hx as [kv [<- Hkv]]. apply V; [| exact H | exact Hkv].
    intros kv' [<- | []]. simpl. lia. }
  rewrite Q. reflexivity.
Qed.

Lemma flat_spread_is_no_wave_witness :
  wave_of "X" (state_data late_spread_high "X")
          (state_periods (state_data late_spread_high "X")) 1 3
          (0%nat, "2025-W01"%string) = [].
Proof.
  apply (flat_spread_is_no_wave "X" (state_data late_spread_high "X")
           (state_periods (state_data late_spread_high "X")) 1 3 0 "2025-W01").
  intros t H. simpl in H. destruct H as [<- | [<- | []]]; simpl; lia.
Defined.

End WaveMoreFacts.

(** ** Percent changes and rolling z-scores ([compute_temporal_changes]) *)

Section TemporalFacts.
Import NeighborGraph MSI TemporalChanges.

Lemma last_as_nth {A} (l : list A) (d : A) :
  last l d = nth (length l - 1) l d.
Proof.
  induction l as [|x [|y r] IH]; try reflexivity.
  change (last (x :: y :: r) d) with (last (y :: r) d). rewrite IH.
  simpl. rewrite Nat.sub_0_r. reflexivity.
Qed.

Lemma rolling_window_shape col i :
  (i < length col)%nat ->
  length (rolling_window col i) = Nat.min 4 (i + 1) /\
  last (rolling_window col i) 0 = nth i col 0.
Proof.
  intros Hi. unfold rolling_window, Py.slice.
  assert (L : length (firstn (i + 1 - (i + 1 - 4)) (skipn (i + 1 - 4) col))
              = Nat.min 4 (i + 1)).
  { rewrite length_firstn, length_skipn. lia. }
  split; [exact L|].
  rewrite last_as_nth, L, nth_firstn.
  assert (E : (Nat.min 4 (i + 1) - 1 <? i + 1 - (i + 1 - 4))%nat = true)
    by (apply Nat.ltb_lt; lia).
  rewrite E, nth_skipn. f_equal. lia.
Qed.

Lemma rolling_window_In col i x :
  In x (rolling_window col i) -> In x col.
Proof.
  unfold rolling_window, Py.slice. intros H.
  apply firstn_incl in H. revert H. apply skipn_incl.
Qed.

(** Samuelson's inequality for 2, 3 and 4 observations: no observation
    lies more than (n - 1) / sqrt n sample standard deviations from the
    mean, which is at most 3/2 up to n = 4. *)
Lemma deviation_bound_2 a b :
  let m := (a + b) / 2 in
  (b - m) * (b - m)
  <= 9 / 4 * (((a - m) * (a - m) + ((b - m) * (b - m) + 0)) / (1 + 1 - 1)).
Proof.
  intros m. assert (M : a = 2 * m - b) by (unfold m; lra).
  clearbody m. subst a.
  replace (2 * m - b - m) with (- (b - m)) by lra.
  set (d := b - m). clearbody d.
  replace (1 + 1 - 1) with 1 by lra. nra.
Qed.

Lemma deviation_bound_3 a b c :
  let m := (a + b + c) / 3 in
  (c - m) * (c - m)
  <= 9 / 4 * (((a - m) * (a - m)
               + ((b - m) * (b - m) + ((c - m) * (c - m) + 0)))
              / (1 + 1 + 1 - 1)).
Proof.
  intros m. assert (M : c - m = - (a - m) - (b - m)) by (unfold m; lra).
  rewrite M. set (p := a - m). set (q := b - m). clearbody p q. clear.
  replace (1 + 1 + 1 - 1) with 2 by lra. nra.
Qed.

Lemma deviation_bound_4 a b c d :
  let m := (a + b + c + d) / 4 in
  (d - m) * (d - m)
  <= 9 / 4 * (((a - m) * (a - m)
               + ((b - m) * (b - m)
                  + ((c - m) * (c - m) + ((d - m) * (d - m) + 0))))
              / (1 + 1 + 1 + 1 - 1)).
Proof.
  intros m.
  assert (M : d - m = - (a - m) - (b - m) - (c - m)) by (unfold m; lra).
  rewrite M. set (p := a - m). set (q := b - m). set (r := c - m).
  clearbody p q r. clear.
  replace (1 + 1 + 1 + 1 - 1) with 3 by lra.
  pose proof (Rle_0_sqr (p - q)) as Q1. pose proof (Rle_0_sqr (p - r)) as Q2.
  pose proof (Rle_0_sqr (q - r)) as Q3. unfold Rsqr in *. nra.
Qed.

Lemma window_deviation_bound w :
  (2 <= length w <= 4)%nat ->
  (last w 0 - Py.mean w) * (last w 0 - Py.mean w)
  <= 9 / 4 * (Py.sq_dev w / (INR (length w) - 1)).
Proof.
  intros H.
  destruct w as [|a [|b [|c [|d [|x r]]]]]; simpl in H; try lia.
  - unfold Py.sq_dev, Py.mean. cbn [length last map Py.Rsum fold_right INR].
    replace ((a + (b + 0)) / (1 + 1)) with ((a + b) / 2) by lra.
    apply deviation_bound_2.
  - unfold Py.sq_dev, Py.mean. cbn [length last map Py.Rsum fold_right INR].
    replace ((a + (b + (c + 0))) / (1 + 1 + 1)) with ((a + b + c) / 3) by lra.
    apply deviation_bound_3.
  - unfold Py.sq_dev, Py.mean. cbn [length last map Py.Rsum fold_right INR].
    replace ((a + (b + (c + (d + 0)))) / (1 + 1 + 1 + 1))
      with ((a + b + c + d) / 4) by lra.
    apply deviation_bound_4.
Qed.

Lemma sq_dev_nonneg w : 0 <= Py.sq_dev w.
Proof.
  unfold Py.sq_dev. generalize (Py.mean w). intros m.
  induction w as [|x r IH]; simpl; [lra|].
  pose proof (Rle_0_sqr (x - m)) as Q. unfold Rsqr in Q. lra.
Qed.

(** A defined rolling z-score is at most 3/2 in absolute value. *)
Lemma zscore_bounded col i z :
  (i < length col)%nat -> zscore col i = Some z -> Rabs z <= 3 / 2.
Proof.
  intros Hi. unfold zscore, rolling_std, Py.pd_std.
  destruct (rolling_window_shape col i Hi) as [L La].
  set (w := rolling_window col i) in *.
  destruct (length w <? 2)%nat eqn:E; simpl; [discriminate|].
  apply Nat.ltb_ge in E. intros Hz. injection Hz as <-.
  assert (B := window_deviation_bound w ltac:(lia)).
  rewrite La in B.
  set (d := nth i col 0 - Py.mean w) in *.
  assert (V : 0 <= Py.sq_dev w / (INR (length w) - 1)).
  { apply Rmult_le_pos; [apply sq_dev_nonneg|].
    left. apply Rinv_0_lt_compat.
    assert (2 <= INR (length w)) by (apply (le_INR 2); exact E). lra. }
  set (v := Py.sq_dev w / (INR (length w) - 1)) in *.
  pose proof (sqrt_pos v) as SP. pose proof (sqrt_sqrt v V) as SS.
  unfold Py.Reqb. destruct (Req_dec_T (sqrt v) 0) as [Z | NZ].
  - assert (v = 0) by (apply sqrt_eq_0; assumption).
    assert (d = 0) by (clearbody d v; nra).
    replace (d / 1) with 0 by (rewrite H0; lra).
    rewrite Rabs_R0. lra.
  - set (s := sqrt v) in *. clearbody d v s.
    assert (S0 : 0 < s) by lra.
    unfold Rdiv. rewrite Rabs_mult, (Rabs_inv s), (Rabs_right s) by lra.
    apply (Rmult_le_reg_r s); [exact S0|].
    rewrite Rmult_assoc, Rinv_l by lra. rewrite Rmult_1_r.
    pose proof (Rabs_pos d) as AP.
    assert (AA : Rabs d * Rabs d = d * d).
    { unfold Rabs. destruct (Rcase_abs d); lra. }
    destruct (Rle_dec (Rabs d) (3 / 2 * s)) as [Ok | Bad]; [exact Ok|].
    exfalso. assert (G : 3 / 2 * s < Rabs d) by lra.
    assert (G2 : (3 / 2 * s) * (3 / 2 * s) < Rabs d * Rabs d)
      by (apply Rmult_le_0_lt_compat; lra).
    nra.
Qed.

Lemma dict_get_map {U V} (f : list U -> list V) loc (pv : Frame U) :
  dict_get loc (map (fun kc => (fst kc, f (snd kc))) pv)
  = option_map f (dict_get loc pv).
Proof.
  induction pv as [|[k c] r IH]; simpl; [reflexivity|].
  destruct (String.eqb k loc); [reflexivity | exact IH].
Qed.

Lemma dict_get_In {V} loc (d : Dict V) :
  In loc (map fst d) -> exists v, dict_get loc d = Some v /\ In (loc, v) d.
Proof.
  induction d as [|[k c] r IH]; simpl; [intros []|].
  intros H. destruct (String.eqb k loc) eqn:E.
  - apply String.eqb_eq in E. subst k. exists c. split; auto.
  - destruct H as [H | H]; [subst k; rewrite String.eqb_refl in E; discriminate|].
    destruct (IH H) as [v [G I]]. exists v. split; auto.
Qed.

Lemma dict_get_Some_In {V} loc (d : Dict V) v :
  dict_get loc d = Some v -> In (loc, v) d.
Proof.
  induction d as [|[k c] r IH]; simpl; [discriminate|].
  destruct (String.eqb k loc) eqn:E.
  - apply String.eqb_eq in E. subst k. intros H. injection H as <-. auto.
  - auto.
Qed.

Lemma nth_map_seq {V} (f : nat -> V) n i d :
  (i < n)%nat -> nth i (map f (seq 0 n)) d = f i.
Proof.
  intros H. rewrite (nth_indep _ d (f 0%nat)) by (rewrite length_map, length_seq; exact H).
  rewrite (map_nth f (seq 0 n) 0%nat i), seq_nth by exact H. reflexivity.
Qed.

(** What [compute_temporal_changes] returns: the three frames have the
    same columns, each as long as the index. *)
Lemma temporal_frames_shape data fr :
  compute_temporal_changes data = Some fr ->
  frame_changes fr
  = map (fun kc => (fst kc, pct_change_column (snd kc))) (frame_pivot fr) /\
  frame_zscores fr
  = map (fun kc => (fst kc, zscore_column (snd kc))) (frame_pivot fr) /\
  (forall k col, In (k, col) (frame_pivot fr) ->
                 length col = length (frame_index fr)).
Proof.
  unfold compute_temporal_changes, pivot.
  destruct (has_duplicate _); [discriminate|].
  intros H. injection H as <-. simpl. repeat split.
  intros k col Hin. apply in_map_iff in Hin. destruct Hin as [k' [E _]].
  injection E as _ <-. rewrite length_map. reflexivity.
Qed.

Lemma frame_zscore_origin data fr i loc z :
  compute_temporal_changes data = Some fr ->
  zscore_at (frame_zscores fr) i loc = Some z ->
  exists col, (i < length col)%nat /\ zscore col i = Some z.
Proof.
  intros H. destruct (temporal_frames_shape data fr H) as [_ [Z _]].
  unfold zscore_at, column, dict_get_default. rewrite Z, dict_get_map.
  destruct (dict_get loc (frame_pivot fr)) as [col|]; simpl.
  - intros Hz. exists col.
    destruct (lt_dec i (length col)) as [Hi | Hi].
    + split; [exact Hi|]. unfold zscore_column in Hz.
      rewrite nth_map_seq in Hz by exact Hi. exact Hz.
    + rewrite nth_overflow in Hz; [discriminate|].
      unfold zscore_column. rewrite length_map, length_seq. lia.
  - destruct i; discriminate.
Qed.

Lemma constant_window w c :
  w <> [] -> (forall x, In x w -> x = c) ->
  Py.mean w = c /\ Py.sq_dev w = 0.
Proof.
  intros Hne Hall.
  assert (S : forall l, (forall x, In x l -> x = c) ->
                        Py.Rsum l = INR (length l) * c).
  { induction l as [|x r IH]; intros Hc; [simpl; lra|].
    change (Py.Rsum (x :: r)) with (x + Py.Rsum r).
    change (length (x :: r)) with (S (length r)). rewrite S_INR.
    rewrite IH by (intros y Hy; apply Hc; right; exact Hy).
    rewrite (Hc x) by (left; reflexivity). lra. }
  assert (M : Py.mean w = c).
  { unfold Py.mean. rewrite S by exact Hall. field.
    apply not_0_INR. destruct w; [contradiction | simpl; lia]. }
  split; [exact M|]. unfold Py.sq_dev. rewrite M.
  clear M Hne. induction w as [|x r IH]; [reflexivity|].
  simpl. simpl in IH. rewrite IH by (intros y Hy; apply Hall; right; exact Hy).
  rewrite (Hall x) by (left; reflexivity). lra.
Qed.

(** X29.  A location whose activity is the same value c in every period
    (in particular one with no activity at all, c = 0) gets a percent
    change of 0 in every period, also where the previous value is 0 and
    the quotient is undefined, and a rolling z-score of 0 from the second
    period on: its rolling standard deviation is 0 and is replaced by 1.
    In the first period the z-score is NaN, since the standard deviation
    of one observation is. *)
Theorem constant_activity_is_flat data fr loc c :
  compute_temporal_changes data = Some fr ->
  In loc (map fst (frame_pivot fr)) ->
  (forall i, (i < length (frame_index fr))%nat ->
             value_at (frame_pivot fr) i loc = c) ->
  forall i, (i < length (frame_index fr))%nat ->
    value_at (frame_changes fr) i loc = 0 /\
    zscore_at (frame_zscores fr) i loc
    = match i with O => None | S _ => Some 0 end.
Proof.
  intros H Hloc Hc i Hi.
  destruct (temporal_frames_shape data fr H) as [C [Z L]].
  destruct (dict_get_In loc _ Hloc) as [col [G I]].
  specialize (L loc col I).
  assert (Hcol : forall j, (j < length col)%nat -> nth j col 0 = c).
  { intros j Hj. rewrite <- (Hc j) by lia.
    unfold value_at, column, dict_get_default. rewrite G. reflexivity. }
  unfold value_at, zscore_at, column, dict_get_default.
  rewrite C, Z, !dict_get_map, G. simpl.
  unfold pct_change_column, zscore_column.
  rewrite !nth_map_seq by lia. split.
  - destruct i as [|j]; [reflexivity|]. unfold pct_change_at.
    rewrite !Hcol by lia. unfold Py.Reqb.
    destruct (Req_dec_T c 0); [reflexivity | field; assumption].
  - destruct (rolling_window_shape col i ltac:(lia)) as [Lw _].
    assert (Hall : forall x, In x (rolling_window col i) -> x = c).
    { intros x Hx. apply rolling_window_In in Hx.
      apply (In_nth _ _ 0) in Hx. destruct Hx as [j [Hj <-]].
      apply Hcol. exact Hj. }
    unfold zscore, rolling_std, Py.pd_std.
    destruct i as [|j].
    + rewrite Lw. reflexivity.
    + assert (E : (length (rolling_window col (S j)) <? 2)%nat = false)
        by (apply Nat.ltb_ge; lia).
      rewrite E. simpl.
      destruct (constant_window (rolling_window col (S j)) c) as [M D].
      { intros N. rewrite N in Lw. simpl in Lw. lia. }
      { exact Hall. }
      rewrite M, D, Hcol by lia.
      unfold Rdiv at 2. rewrite Rmult_0_l, sqrt_0.
      unfold Py.Reqb. destruct (Req_dec_T 0 0); [|contradiction].
      f_equal. lra.
Qed.

Lemma constant_activity_is_flat_witness :
  value_at (frame_changes flat_frames) 2 "X|A"%string = 0 /\
  zscore_at (frame_zscores flat_frames) 2 "X|A"%string = Some 0.
Proof.
  apply (constant_activity_is_flat flat_weeks flat_frames "X|A"%string (100 + 0)).
  - reflexivity.
  - simpl. auto.
  - intros i Hi. simpl in Hi.
    destruct i as [|[|[|[|i]]]]; try reflexivity. lia.
  - simpl. lia.
Defined.

(** X30.  On the frames that compute_temporal_changes produces, a window
    of at most 4 periods keeps every defined rolling z-score within 3/2
    in absolute value.  Hence in every record of compute_msi the cap
    min(z_magnitude, 3) leaves z_magnitude unchanged, and a defined
    msi_score lies in [-1, 1]. *)
Theorem pipeline_msi_within_one data fr graph w rs r :
  compute_temporal_changes data = Some fr ->
  compute_msi (engine_of fr graph) w = Some rs ->
  In r rs ->
  (forall z, z_magnitude r = Some z -> z <= 3 / 2 /\ Py.min z 3 = z) /\
  (forall m, msi_score r = Some m -> -1 <= m <= 1).
Proof.
  intros H Hrs Hin.
  destruct (compute_msi_records _ w rs r Hrs Hin)
    as [loc [t [names [Hloc [Hv [Ht [_ ->]]]]]]].
  set (e := engine_of fr graph) in *.
  set (valid := valid_neighbors e loc) in *.
  destruct (msi_record_fields e w valid loc t names)
    as [F1 [F2 [F3 [F4 [F5 F6]]]]].
  destruct (msi_record_counts e w valid loc t names) as [N1 N2].
  cbv zeta in *.
  set (r := msi_row e w valid loc t names) in *.
  assert (ZB : forall z, z_magnitude r = Some z -> 0 <= z <= 3 / 2).
  { intros z Hz. rewrite F5 in Hz.
    destruct (existsb _ _).
    - destruct (zscore_at _ _ _) as [z0|] eqn:Z0; simpl in Hz; [|discriminate].
      injection Hz as <-.
      destruct (frame_zscore_origin data fr t loc z0 H Z0) as [col [Hi Hc]].
      split; [apply Rabs_pos | exact (zscore_bounded col t z0 Hi Hc)].
    - injection Hz as <-. lra. }
  assert (SB : 0 <= spatial_spread r <= 1).
  { rewrite F4. destruct valid as [|v0 vr] eqn:EV; [simpl in Hv; lia|].
    rewrite <- EV.
    pose proof (opposite_count_le e t valid
                  (np_sign (last (loc_changes e w t loc) 0))) as Hle.
    apply le_INR in Hle.
    pose proof (pos_INR (opposite_count_of e t valid
                  (np_sign (last (loc_changes e w t loc) 0)))) as O.
    assert (P : 0 < INR (length valid))
      by (apply lt_0_INR; rewrite EV; simpl; lia).
    split.
    - apply Rmult_le_pos; [exact O|]. left. apply Rinv_0_lt_compat. exact P.
    - apply (Rmult_le_reg_r (INR (length valid))); [exact P|].
      unfold Rdiv. rewrite Rmult_assoc, Rinv_l by lra. lra. }
  assert (IB : -1 <= inverse_correlation r <= 1).
  { rewrite F3. apply inverse_corr_bounded.
    unfold neighbor_changes, loc_changes. rewrite !length_map. reflexivity. }
  assert (MN : forall z, z_magnitude r = Some z -> Py.min z 3 = z).
  { intros z Hz. destruct (ZB z Hz) as [_ Hu].
    rewrite py_min_Rmin. apply Rmin_left. lra. }
  split.
  - intros z Hz. split; [apply (ZB z Hz) | exact (MN z Hz)].
  - intros m Hm. rewrite F6 in Hm.
    destruct (z_magnitude r) as [z|] eqn:Z; simpl in Hm; [|discriminate].
    injection Hm as <-. rewrite (MN z eq_refl).
    destruct (ZB z eq_refl) as [Z0 Z1].
    set (i := inverse_correlation r) in *. set (s := spatial_spread r) in *.
    clearbody i s.
    assert (A1 : -2 <= i * (1 + s) <= 2) by (split; nra).
    set (q := i * (1 + s)) in *. clearbody q. split; nra.
Qed.

Lemma pipeline_msi_within_one_witness :
  (forall z, z_magnitude flat_engine_record = Some z ->
             z <= 3 / 2 /\ Py.min z 3 = z) /\
  (forall m, msi_score flat_engine_record = Some m -> -1 <= m <= 1).
Proof.
  apply (pipeline_msi_within_one flat_weeks flat_frames
           (build_district_graph [("X", "A"); ("X", "B"); ("X", "C")]%string)
           3 flat_engine_records).
  - reflexivity.
  - reflexivity.
  - assert (C : compute_msi flat_engine 3 = Some flat_engine_records)
      by reflexivity.
    destruct (msi_record_in flat_engine 3 flat_engine_records "X|C" 3 C)
      as [names [S I]]; [simpl; auto | simpl; lia | simpl; lia |].
    cbv in S. injection S as <-. exact I.
Defined.

End TemporalFacts.
